(** * Who8MyRPi: the DHT22 sensor channels of [who8myrpi/sensors.py]

    A shallow embedding of the decoder ([compute_checksum], [bits_to_bytes],
    [read_dht22_single]), of the per-channel history and outlier check
    ([Channel.add_data], [Channel.adjust_history], [Channel.check_values]) and
    of the two loops of [collect_data] (readiness wait, queue drain).

    Conventions of the embedding.
    - Python integers are [Z]; lengths and counters are [nat].
    - Python floats are idealised as exact rationals [Q]: no rounding, no
      infinities and no NaN (the one place where numpy would produce NaN, the
      median of an empty array, is modelled by [None]). The decision rule of
      the outlier check, which rounding can tip, is also given on IEEE
      doubles, in the module [Check64].
    - A bit delivered by [dht22.read_bits] is a [bool] ([true] is the integer
      1, [false] the integer 0). The source does not test its items: the
      module [RawDecoder] gives the decoder on items that are any integers.
    - A sample, a Python dict with the keys ['type'], ['pin'], ['RH'], ['Tf']
      and ['time_stamp'], is a record.
    - Wall-clock and CPU-clock readings ([time.time()], [time.clock()]) are
      inputs of the functions that read them.
    - An exception is a value of [exn]; methods that mutate the channel or
      the queue live in a state monad that keeps the mutated state when an
      exception is raised. *)

From Stdlib Require Import String Ascii ZArith QArith Qabs Qminmax List Bool Arith Lia Lqa.
From Stdlib Require Import Permutation Sorted DecimalString.
From Stdlib Require SpecFloat.
Import ListNotations.

Local Open Scope Z_scope.

(** ** Exceptions *)

Inductive exn : Type :=
| ValueError_bits_length (n : nat)
    (* 'list of bits not equal to 40: %d' % len(bits) *)
| ValueError_invalid_literal (s : string)
    (* int(s, 2) on a string that is not a binary numeral *)
| ValueError_no_data_remains
    (* 'No data remains in history.' *)
| ValueError_not_in_list
    (* list.remove(x): x not in list *)
| ValueError_channels_not_ready (count_ready total : nat) (time_wait_max : Q)
    (* 'Only %d channels ready (out of %d) after waiting %s seconds.' *)
| Queue_Full.
    (* Queue.Full *)

Inductive result (A : Type) : Type :=
| Ok (a : A)
| Raise (e : exn).
Arguments Ok {A} a.
Arguments Raise {A} e.

(** ** Decoder *)

Module Decoder.

(** [c2f]: F = C * 9./5. + 32. *)
Definition c2f (C : Q) : Q := (C * 9 / 5 + 32)%Q.

(** [f2c]: C = (F - 32.) * 5./9. *)
Definition f2c (F : Q) : Q := ((F - 32) * 5 / 9)%Q.

Definition compute_checksum (byte_1 byte_2 byte_3 byte_4 byte_5 : Z) : bool :=
  let val_sum := byte_1 + byte_2 + byte_3 + byte_4 in
  let val_check := Z.land val_sum 255 in
  if val_check =? byte_5 then true else false.

(** [str(b)] for a bit. *)
Definition str_bit (b : bool) : string := if b then "1"%string else "0"%string.

(** The loop [for b in bits[i:j]: s += str(b)]. *)
Definition bits_str (bits : list bool) : string :=
  fold_left (fun s b => (s ++ str_bit b)%string) bits EmptyString.

(** [int(s, 2)] on a string of binary digits; any other string, the empty one
    included, is a [ValueError]. *)
Fixpoint int2_digits (s : string) (acc : Z) : option Z :=
  match s with
  | EmptyString => Some acc
  | String c rest =>
      if Ascii.eqb c "0" then int2_digits rest (2 * acc)
      else if Ascii.eqb c "1" then int2_digits rest (2 * acc + 1)
      else None
  end.

Definition np_int2 (s : string) : result Z :=
  match s with
  | EmptyString => Raise (ValueError_invalid_literal s)
  | _ => match int2_digits s 0 with
         | Some v => Ok v
         | None => Raise (ValueError_invalid_literal s)
         end
  end.

(** Python slice [l[i:j]] for [0 <= i <= j]. *)
Definition slice {A : Type} (l : list A) (i j : nat) : list A :=
  firstn (j - i) (skipn i l).

(** The fifth byte is only used for the checksum and is not returned, as in
    the source. *)
Definition bits_to_bytes (bits : list bool) : result (Z * Z * Z * Z * bool) :=
  if negb (length bits =? 40)%nat then Raise (ValueError_bits_length (length bits))
  else
    match np_int2 (bits_str (slice bits 0 8)) with
    | Raise e => Raise e
    | Ok byte_1 =>
    match np_int2 (bits_str (slice bits 8 16)) with
    | Raise e => Raise e
    | Ok byte_2 =>
    match np_int2 (bits_str (slice bits 16 24)) with
    | Raise e => Raise e
    | Ok byte_3 =>
    match np_int2 (bits_str (slice bits 24 32)) with
    | Raise e => Raise e
    | Ok byte_4 =>
    match np_int2 (bits_str (slice bits 32 40)) with
    | Raise e => Raise e
    | Ok byte_5 =>
        let ok := compute_checksum byte_1 byte_2 byte_3 byte_4 byte_5 in
        Ok (byte_1, byte_2, byte_3, byte_4, ok)
    end end end end end.

(** What [dht22.read_bits] hands back: [(None, message)] when the sensor did
    not answer, [(first, bits)] otherwise. *)
Inductive capture : Type :=
| NoAnswer (msg : string)
| Capture (first : Z) (bits : list bool).

(** The second component of the pair returned next to [RH = None]. *)
Inductive fail_msg : Type :=
| Fail_read_bits (msg : string)   (* the message of read_bits: no response *)
| Fail_first                      (* 'Fail first != 1': malformed start *)
| Fail_checksum                   (* 'Fail checksum': checksum mismatch *)
| Fail_len (n : nat).             (* 'Fail len(bits) != 40 [%d]': wrong length *)

(** The pair [(RH, Tc)] returned by [read_dht22_single]: two floats, or
    [None] and a message. *)
Inductive reading : Type :=
| Reading (RH Tc : Q)
| NoReading (msg : fail_msg).

(** [read_dht22_single], from the result of [dht22.read_bits] on. An
    exception of [bits_to_bytes] propagates. *)
Definition read_dht22_single (cap : capture) : result reading :=
  match cap with
  | NoAnswer msg => Ok (NoReading (Fail_read_bits msg))
  | Capture first bits =>
      if negb (first =? 1) then Ok (NoReading Fail_first)
      else if (length bits =? 40)%nat then
        match bits_to_bytes bits with
        | Raise e => Raise e
        | Ok (byte_1, byte_2, byte_3, byte_4, ok) =>
            if ok then
              let RH := (inject_Z (Z.shiftl byte_1 8 + byte_2) / 10)%Q in
              let Tc := (inject_Z (Z.shiftl byte_3 8 + byte_4) / 10)%Q in
              Ok (Reading RH Tc)
            else Ok (NoReading Fail_checksum)
        end
      else Ok (NoReading (Fail_len (length bits)))
  end.

(** The words of the specification: the value of a group of bits read as a
    big-endian binary numeral, and the [k]-th byte of a frame. *)
Definition be_value (bits : list bool) : Z :=
  fold_left (fun acc b => 2 * acc + Z.b2z b) bits 0.

Definition frame_byte (k : nat) (bits : list bool) : Z :=
  be_value (firstn 8 (skipn (8 * k) bits)).

End Decoder.

(** ** Samples and the shared queue *)

(** [a > b] and [a < b] on floats. *)
Definition Qgtb (a b : Q) : bool := negb (Qle_bool a b).
Definition Qltb (a b : Q) : bool := negb (Qle_bool b a).

Module Sample.

(** The dict built in [Channel.run]. *)
Record t : Type := mk {
  type : string;
  pin : Z;
  RH : Q;
  Tf : Q;
  time_stamp : Q
}.

(** Python's [==] on two such dicts: key by key, floats by value. *)
Definition eqb (a b : t) : bool :=
  String.eqb (type a) (type b) && (pin a =? pin b) &&
  Qeq_bool (RH a) (RH b) && Qeq_bool (Tf a) (Tf b) &&
  Qeq_bool (time_stamp a) (time_stamp b).

(** [info.copy()] followed by the two assignments of [check_values]. *)
Definition set_RH (v : Q) (info : t) : t :=
  mk (type info) (pin info) v (Tf info) (time_stamp info).
Definition set_Tf (v : Q) (info : t) : t :=
  mk (type info) (pin info) (RH info) v (time_stamp info).

End Sample.

Module Queue.

(** [Queue.Queue(maxsize)]: a FIFO, unbounded when [maxsize] is 0. *)
Record t : Type := mk {
  maxsize : nat;
  items : list Sample.t
}.

Definition qsize (q : t) : nat := length (items q).
Definition empty (q : t) : bool := (qsize q =? 0)%nat.
Definition full (q : t) : bool := (0 <? maxsize q)%nat && (maxsize q =? qsize q)%nat.

(** [put(item, block=False)]. *)
Definition put_nowait (item : Sample.t) (q : t) : result t :=
  if (0 <? maxsize q)%nat && (qsize q =? maxsize q)%nat then Raise Queue_Full
  else Ok (mk (maxsize q) (items q ++ [item])).

(** [get()] on a queue that is not empty; on an empty queue the call blocks. *)
Definition get (q : t) : option (Sample.t * t) :=
  match items q with
  | [] => None
  | info :: rest => Some (info, mk (maxsize q) rest)
  end.

End Queue.

(** ** Channel *)

Module Channel.

Definition _time_wait_default : Q := 5.
Definition _time_history_default : Q := inject_Z (10 * 60).

Record t : Type := mk {
  pin : Z;
  time_wait : Q;
  time_history : Q;
  num_min_history : nat;
  check_threshold : Q;
  data_history : list Sample.t;
  data_latest : option Sample.t;
  _keep_running : bool
}.

(** [Channel.__init__]; the queue is kept next to the channel, see [heap]. *)
Definition __init__ (pin : Z) (time_wait time_history : option Q) : t :=
  let time_wait := match time_wait with None => _time_wait_default | Some w => w end in
  let time_history :=
    match time_history with None => _time_history_default | Some h => h end in
  mk pin time_wait time_history 10 25 [] None false.

Definition stop (self : t) : t :=
  mk (pin self) (time_wait self) (time_history self) (num_min_history self)
     (check_threshold self) (data_history self) (data_latest self) false.

Definition set_history (h : list Sample.t) (self : t) : t :=
  mk (pin self) (time_wait self) (time_history self) (num_min_history self)
     (check_threshold self) h (data_latest self) (_keep_running self).

Definition set_latest (info : Sample.t) (self : t) : t :=
  mk (pin self) (time_wait self) (time_history self) (num_min_history self)
     (check_threshold self) (data_history self) (Some info) (_keep_running self).

(** The channel object and the queue object it refers to; the queue is shared
    with the other channels and with [collect_data]. *)
Record heap : Type := mkHeap {
  self : t;
  queue : Queue.t
}.

(** State and exceptions: the heap survives a raise. *)
Definition M (A : Type) : Type := heap -> result A * heap.

Definition ret {A : Type} (a : A) : M A := fun h => (Ok a, h).
Definition bind {A B : Type} (c : M A) (k : A -> M B) : M B :=
  fun h => match c h with
           | (Ok a, h') => k a h'
           | (Raise e, h') => (Raise e, h')
           end.
Definition raise {A : Type} (e : exn) : M A := fun h => (Raise e, h).
Definition get_self : M t := fun h => (Ok (self h), h).
Definition modify_self (f : t -> t) : M unit :=
  fun h => (Ok tt, mkHeap (f (self h)) (queue h)).

Declare Scope channel_scope.
Delimit Scope channel_scope with channel.
Notation "x <- c ;; k" := (bind c (fun x => k))
  (at level 61, c at next level, right associativity) : channel_scope.
Notation "c ;;; k" := (bind c (fun _ => k))
  (at level 61, right associativity) : channel_scope.
Local Open Scope channel_scope.

(** [delta > self.time_history] in [adjust_history]. *)
Definition too_old (self : t) (time_stamp_now : Q) (d : Sample.t) : bool :=
  let delta := (time_stamp_now - Sample.time_stamp d)%Q in
  Qgtb delta (time_history self).

(** [list.remove(d)]: drops the first element equal to [d]; [None] when there
    is none (Python raises [ValueError]). *)
Fixpoint list_remove (d : Sample.t) (l : list Sample.t) : option (list Sample.t) :=
  match l with
  | [] => None
  | x :: rest =>
      if Sample.eqb x d then Some rest
      else match list_remove d rest with
           | Some rest' => Some (x :: rest')
           | None => None
           end
  end.

(** The loop [for d in list_too_old: self.data_history.remove(d)]. *)
Fixpoint remove_each (list_too_old : list Sample.t) : M unit :=
  match list_too_old with
  | [] => ret tt
  | d :: rest =>
      self <- get_self ;;
      match list_remove d (data_history self) with
      | None => raise ValueError_not_in_list
      | Some h => modify_self (set_history h) ;;; remove_each rest
      end
  end.

Definition adjust_history (time_stamp_now : Q) : M (nat * nat) :=
  self <- get_self ;;
  let list_too_old := filter (too_old self time_stamp_now) (data_history self) in
  remove_each list_too_old ;;;
  self <- get_self ;;
  ret (length (data_history self), length list_too_old).

(** [numpy.sort] on a one-dimensional array of floats. *)
Fixpoint insert_sorted (x : Q) (l : list Q) : list Q :=
  match l with
  | [] => [x]
  | y :: rest => if Qle_bool x y then x :: l else y :: insert_sorted x rest
  end.

Definition np_sort (a : list Q) : list Q := fold_right insert_sorted [] a.

(** [numpy.median]: the middle element of the sorted array, the mean of the
    two middle elements when the size is even, NaN ([None]) when it is 0. *)
Definition np_median (a : list Q) : option Q :=
  let sorted := np_sort a in
  let n := length a in
  let index := (n / 2)%nat in
  match n with
  | O => None
  | _ => if Nat.even n
         then Some ((nth (index - 1) sorted 0 + nth index sorted 0) / 2)%Q
         else Some (nth index sorted 0%Q)
  end.

(** With a NaN median [delta > self.check_threshold] is false and the value
    is kept. *)
Definition _check_data_value (self : t) (samples : list Q) (value : Q) : Q :=
  match np_median samples with
  | None => value
  | Some value_med =>
      let delta := Qabs (value - value_med) in
      if Qgtb delta (check_threshold self) then value_med else value
  end.

Definition check_values (self : t) (info_new : Sample.t) : Sample.t :=
  if (num_min_history self <=? length (data_history self))%nat then
    let data_history_RH := map Sample.RH (data_history self) in
    let data_history_Tf := map Sample.Tf (data_history self) in
    let RH_checked := _check_data_value self data_history_RH (Sample.RH info_new) in
    let Tf_checked := _check_data_value self data_history_Tf (Sample.Tf info_new) in
    Sample.set_Tf Tf_checked (Sample.set_RH RH_checked info_new)
  else info_new.

(** [self.queue.put(info, False)]; the handler of [Queue.Full] prints and
    raises the exception again. *)
Definition queue_put (info : Sample.t) : M unit :=
  fun h => match Queue.put_nowait info (queue h) with
           | Ok q => (Ok tt, mkHeap (self h) q)
           | Raise e => (Raise e, h)
           end.

(** [add_data]; [time_stamp_now] is what [time.time()] returns inside
    [adjust_history]. *)
Definition add_data (time_stamp_now : Q) (info : Sample.t) : M Sample.t :=
  counts <- adjust_history time_stamp_now ;;
  let '(num_remain, num_removed) := counts in
  if (num_remain =? 0)%nat && (0 <? num_removed)%nat
  then raise ValueError_no_data_remains
  else
    self <- get_self ;;
    let info := check_values self info in
    modify_self (fun c => set_history (data_history c ++ [info]) c) ;;;
    modify_self (set_latest info) ;;;
    queue_put info ;;;
    ret info.

(** One turn of the loop of [run], without the sleeps and the printing:
    [cap] is what the sensor delivers, [time_now] the value of [time.time()]
    put into the sample and [time_stamp_now] its value inside [add_data]. *)
Definition run_cycle (cap : Decoder.capture) (time_now time_stamp_now : Q)
  : M (option Sample.t) :=
  match Decoder.read_dht22_single cap with
  | Raise e => raise e
  | Ok (Decoder.NoReading _) => ret None
  | Ok (Decoder.Reading RH Tc) =>
      self <- get_self ;;
      let info := Sample.mk "sample" (pin self) RH (Decoder.c2f Tc) time_now in
      info <- add_data time_stamp_now info ;;
      ret (Some info)
  end.

(** The words of the specification: the entries of the history whose age at
    [time_stamp_now] exceeds the retention window, and the others. *)
Definition evicted_history (self : t) (time_stamp_now : Q) : list Sample.t :=
  filter (too_old self time_stamp_now) (data_history self).

Definition kept_history (self : t) (time_stamp_now : Q) : list Sample.t :=
  filter (fun d => negb (too_old self time_stamp_now d)) (data_history self).

(** [freshness] *)
Definition freshness (self : t) (time_now : Q) : option Q :=
  match data_latest self with
  | None => None
  | Some info => Some (time_now - Sample.time_stamp info)%Q
  end.

End Channel.

(** ** The coordinator: [collect_data] *)

Module Collect.

Definition stop_all_channels (channels : list Channel.t) : list Channel.t :=
  map Channel.stop channels.

(** *** Waiting for the channels *)

Definition time_wait_max : Q := 30.

(** What one turn of the waiting loop observes: the channel objects, which
    the channel threads change in between, and the value of [time.clock()]
    at the end of the turn. *)
Record poll : Type := mkPoll {
  channels_seen : list Channel.t;
  clock_after : Q
}.

(** The variables of the loop; [count_ready] is unbound in the source until
    the first turn, which always runs. *)
Record wait_state : Type := mkWait {
  all_channels_ok : bool;
  time_elapsed : Q;
  count_ready : nat;
  channels : list Channel.t
}.

Definition count_channels_ready (channels : list Channel.t) : nat :=
  fold_left
    (fun count c => match Channel.data_latest c with
                    | Some _ => S count
                    | None => count
                    end)
    channels O.

Definition wait_body (time_zero : Q) (p : poll) (st : wait_state) : wait_state :=
  let count_ready := count_channels_ready (channels_seen p) in
  let all_channels_ok :=
    if (count_ready =? length (channels_seen p))%nat then true
    else all_channels_ok st in
  mkWait all_channels_ok (clock_after p - time_zero)%Q count_ready (channels_seen p).

(** [while time_elapsed < time_wait_max and not all_channels_ok]; [None] when
    the observations run out while the loop is still turning. *)
Fixpoint wait_loop (time_zero : Q) (polls : list poll) (st : wait_state)
  : option wait_state :=
  if Qltb (time_elapsed st) time_wait_max && negb (all_channels_ok st) then
    match polls with
    | [] => None
    | p :: rest => wait_loop time_zero rest (wait_body time_zero p st)
    end
  else Some st.

(** From the creation of the channels to the end of the readiness check:
    the result of the check and the channel objects as it leaves them. *)
Definition wait_for_channels (channels0 : list Channel.t) (time_zero : Q)
    (polls : list poll) : option (result unit * list Channel.t) :=
  match wait_loop time_zero polls (mkWait false 0 O channels0) with
  | None => None
  | Some st =>
      if negb (all_channels_ok st) then
        Some (Raise (ValueError_channels_not_ready
                       (count_ready st) (length (channels st)) time_wait_max),
              stop_all_channels (channels st))
      else Some (Ok tt, channels st)
  end.

(** The words of the specification: a channel that has reported a sample,
    and the number of such channels. *)
Definition has_latest (c : Channel.t) : bool :=
  match Channel.data_latest c with
  | Some _ => true
  | None => false
  end.

Definition ready_count (channels : list Channel.t) : nat :=
  length (filter has_latest channels).

(** *** Draining the queue into a file *)

(** [os.path.join(a, b)] of [posixpath]. *)
Fixpoint ends_with_slash (s : string) : bool :=
  match s with
  | EmptyString => false
  | String c EmptyString => Ascii.eqb c "/"
  | String _ rest => ends_with_slash rest
  end.

Definition starts_with_slash (s : string) : bool :=
  match s with
  | String c _ => Ascii.eqb c "/"
  | EmptyString => false
  end.

Definition os_path_join (a b : string) : string :=
  if starts_with_slash b then b
  else if String.eqb a EmptyString || ends_with_slash a then (a ++ b)%string
  else (a ++ "/" ++ b)%string.

(** [while not queue.empty(): info = queue.get(); data_collected.append(info)],
    with the collector as the only consumer: every turn takes the head of the
    queue, and the loop ends when nothing is left. *)
Fixpoint drain_items (items data_collected : list Sample.t) : list Sample.t :=
  match items with
  | [] => data_collected
  | info :: rest => drain_items rest (data_collected ++ [info])
  end.

Definition drain (queue : Queue.t) : list Sample.t * Queue.t :=
  (drain_items (Queue.items queue) [], Queue.mk (Queue.maxsize queue) []).

Section Persist.

(** The date functions of [datetime] and [pytz]:
    [fromtimestamp(seconds, utc).astimezone(timezone('America/Los_Angeles')).strftime(fmt)]. *)
Variable strftime_LAX : Q -> string -> string.

(** [utility.reformat_timestamp] on a float. *)
Definition reformat_timestamp (seconds : Q) (fmt : option string) : string :=
  let fmt := match fmt with
             | None => "%Y-%m-%d %H:%M:%S"%string
             | Some f => f
             end in
  strftime_LAX seconds fmt.

(** The first half of one turn of the main loop: the call of [io.write], if
    any, as the pair of its arguments, and the queue afterwards. *)
Definition collect_pass (path_data : string) (queue : Queue.t)
  : option (string * list Sample.t) * Queue.t :=
  let '(data_collected, queue') := drain queue in
  match data_collected with
  | [] => (None, queue')
  | info0 :: _ =>
      let t := Sample.time_stamp info0 in
      let fmt := "%Y-%m-%d %H-%M-%S"%string in
      let time_stamp := reformat_timestamp t (Some fmt) in
      let f := os_path_join path_data ("data-" ++ time_stamp ++ ".yml")%string in
      (Some (f, data_collected), queue')
  end.

End Persist.

(** The words of the specification: the earliest time stamp of a batch. *)
Definition earliest_time_stamp (info0 : Sample.t) (others : list Sample.t) : Q :=
  fold_left (fun m info => Qmin m (Sample.time_stamp info)) others
            (Sample.time_stamp info0).

End Collect.

(** ** The sensor's side of the wire *)

Module Wire.

(** The [width] low bits of [v], most significant first: what the sensor
    sends for a byte. *)
Fixpoint bits_of (width : nat) (v : Z) : list bool :=
  match width with
  | O => []
  | S w => bits_of w (v / 2) ++ [Z.odd v]
  end.

Definition byte_bits (v : Z) : list bool := bits_of 8 v.

(** A frame: two humidity bytes, two temperature bytes, one checksum byte. *)
Definition frame_of_bytes (b1 b2 b3 b4 b5 : Z) : list bool :=
  byte_bits b1 ++ byte_bits b2 ++ byte_bits b3 ++ byte_bits b4 ++ byte_bits b5.

(** The checksum byte the sensor appends. *)
Definition checksum_byte (b1 b2 b3 b4 : Z) : Z := (b1 + b2 + b3 + b4) mod 256.

End Wire.

(** ** Pins, LEDs and power *)

Module Gpio.

(** The constants [_LOW], [_HIGH] and [_OUTPUT] of the module [dht22], which
    is not among the sources, are kept symbolic. *)
Inductive level : Type := LOW | HIGH.
Inductive mode : Type := OUTPUT.

(** What a function does to the outside, in the order of the calls:
    [dht22._pinMode], [dht22._digitalWrite], [time.sleep] and [io.write]. *)
Inductive event : Type :=
| PinMode (pin : Z) (m : mode)
| DigitalWrite (pin : Z) (l : level)
| Sleep (seconds : Q)
| IoWrite (f : string) (records : list Sample.t).

Definition set_status_led (status : Z) (pin_ok pin_err : option Z) : list event :=
  match pin_ok, pin_err with
  | Some pin_ok, Some pin_err =>
      [PinMode pin_ok OUTPUT; PinMode pin_err OUTPUT] ++
      (if 0 <? status then
         [DigitalWrite pin_ok HIGH; DigitalWrite pin_err LOW]
       else if status =? 0 then
         [DigitalWrite pin_ok LOW; DigitalWrite pin_err HIGH]
       else
         [DigitalWrite pin_ok LOW; DigitalWrite pin_err LOW])
  | _, _ => []
  end.

(** [check_pin_connected], from the result of [dht22.read_bits] on. *)
Definition check_pin_connected (cap : Decoder.capture) : bool :=
  match cap with
  | Decoder.NoAnswer _ => false
  | Decoder.Capture _ _ => true
  end.

(** [reset_power]: the argument [time_sleep] is overwritten by 30. *)
Definition reset_power (pin_power : option Z) (time_sleep : option Q) : list event :=
  let time_sleep := 30%Q in
  match pin_power with
  | None => []
  | Some pin_power =>
      [DigitalWrite pin_power LOW; Sleep time_sleep; DigitalWrite pin_power HIGH]
  end.

(** The level a pin is left at by a sequence of events: that of the last
    write to it, if there is one. *)
Definition level_after (events : list event) (pin : Z) : option level :=
  fold_left
    (fun acc e => match e with
                  | DigitalWrite p l => if p =? pin then Some l else acc
                  | _ => acc
                  end)
    events None.

(** The files written by a sequence of events, in order. *)
Definition files_written (events : list event) : list (string * list Sample.t) :=
  flat_map (fun e => match e with
                     | IoWrite f records => [(f, records)]
                     | _ => []
                     end) events.

End Gpio.

(** ** The main loop of [collect_data] and its end *)

Module Main.
Import Gpio.

(** Powering the sensors up, before the channels are built. *)
Definition power_up (pin_power : option Z) : list event :=
  match pin_power with
  | None => []
  | Some pin_power =>
      [PinMode pin_power OUTPUT; DigitalWrite pin_power HIGH; Sleep 5%Q]
  end.

Definition time_wait_poll : Q := 5.

(** The variables that live across the turns of the main loop. *)
Record state : Type := mkState {
  queue : Queue.t;
  time_power_zero : Q
}.

(** The four readings of [time.clock()] in one turn: at its start, in the
    power test, after the power cycle (read only when there is one) and in
    the computation of the pause. *)
Record clocks : Type := mkClocks {
  clock_start : Q;
  clock_test : Q;
  clock_reset : Q;
  clock_end : Q
}.

Section Turn.

Variable strftime_LAX : Q -> string -> string.
Variable path_data : string.
Variable power_cycle_interval : Q.
Variable pin_power : option Z.

(** One turn of [while True]. *)
Definition main_turn (c : clocks) (st : state) : list event * state :=
  let time_poll_zero := clock_start c in
  let '(written, queue') := Collect.collect_pass strftime_LAX path_data (queue st) in
  let ev_write := match written with
                  | Some (f, data_collected) => [IoWrite f data_collected]
                  | None => []
                  end in
  let '(ev_power, time_power_zero') :=
    if Qgtb (clock_test c - time_power_zero st) power_cycle_interval
    then (reset_power pin_power None, clock_reset c)
    else ([], time_power_zero st) in
  let time_delta := (time_wait_poll - (clock_end c - time_poll_zero))%Q in
  let ev_sleep := if Qgtb time_delta 0 then [Sleep time_delta] else [] in
  (ev_write ++ ev_power ++ ev_sleep, mkState queue' time_power_zero').

End Turn.

(** The handler of [KeyboardInterrupt]. *)
Definition on_keyboard_interrupt (pin_ok pin_err pin_power : option Z)
    (channels : list Channel.t) : list event * list Channel.t :=
  let ev_led := set_status_led 0 pin_ok pin_err in
  let channels := Collect.stop_all_channels channels in
  let ev_power := match pin_power with
                  | Some pin_power => [DigitalWrite pin_power LOW]
                  | None => []
                  end in
  (ev_led ++ ev_power, channels).

End Main.

(** ** The thread of a channel: [Channel.run] *)

Module Runner.
Import Channel.
Local Open Scope channel_scope.

(** What one turn of the loop of [run] meets: the capture, the two readings
    of [time.time()], and whether another thread calls [stop] on the channel
    while the turn is under way. *)
Record turn : Type := mkTurn {
  cap : Decoder.capture;
  time_now : Q;
  time_stamp_now : Q;
  stop_called : bool
}.

(** [self._keep_running = True] *)
Definition set_running (self : t) : t :=
  mk (pin self) (time_wait self) (time_history self) (num_min_history self)
     (check_threshold self) (data_history self) (data_latest self) true.

(** The effect of a [stop] that another thread calls during a turn. *)
Definition stop_if (called : bool) : M unit :=
  if called then modify_self stop else ret tt.

(** [while self._keep_running: ...]. The result is [true] when the loop is
    left, [false] when the turns run out while it is still going. A [stop]
    called during a turn takes effect whether the turn raises or not. *)
Fixpoint run_loop (turns : list turn) : M bool :=
  self <- get_self ;;
  if _keep_running self then
    match turns with
    | [] => ret false
    | c :: rest =>
        fun h =>
          match run_cycle (cap c) (time_now c) (time_stamp_now c) h with
          | (Ok _, h') => (stop_if (stop_called c) ;;; run_loop rest) h'
          | (Raise e, h') => (stop_if (stop_called c) ;;; raise e) h'
          end
    end
  else ret true.

Definition run (turns : list turn) : M bool :=
  modify_self set_running ;;;
  run_loop turns.

End Runner.

(** ** The decoder on items that need not be bits *)

(** [dht22.read_bits] is an extension module, and [bits_to_bytes] hands its
    items to [str] and the strings to [int(..., 2)] without a test. Here an
    item is any Python integer, of which 0 and 1 are the bits. *)
Module RawDecoder.

(** [str(b)] for an integer: its decimal numeral. *)
Definition str_int (b : Z) : string := NilZero.string_of_int (Z.to_int b).

(** The loop [for b in bits[i:j]: s += str(b)]. *)
Definition items_str (items : list Z) : string :=
  fold_left (fun s b => (s ++ str_int b)%string) items EmptyString.

(** [int(s, 2)] on such a string, which holds decimal digits and minus signs
    only: one sign is accepted in front of the binary digits. *)
Definition np_int2 (s : string) : result Z :=
  match s with
  | String "-" rest =>
      match Decoder.np_int2 rest with
      | Ok v => Ok (- v)
      | Raise _ => Raise (ValueError_invalid_literal s)
      end
  | _ => Decoder.np_int2 s
  end.

Definition bits_to_bytes (bits : list Z) : result (Z * Z * Z * Z * bool) :=
  if negb (length bits =? 40)%nat then Raise (ValueError_bits_length (length bits))
  else
    match np_int2 (items_str (Decoder.slice bits 0 8)) with
    | Raise e => Raise e
    | Ok byte_1 =>
    match np_int2 (items_str (Decoder.slice bits 8 16)) with
    | Raise e => Raise e
    | Ok byte_2 =>
    match np_int2 (items_str (Decoder.slice bits 16 24)) with
    | Raise e => Raise e
    | Ok byte_3 =>
    match np_int2 (items_str (Decoder.slice bits 24 32)) with
    | Raise e => Raise e
    | Ok byte_4 =>
    match np_int2 (items_str (Decoder.slice bits 32 40)) with
    | Raise e => Raise e
    | Ok byte_5 =>
        let ok := Decoder.compute_checksum byte_1 byte_2 byte_3 byte_4 byte_5 in
        Ok (byte_1, byte_2, byte_3, byte_4, ok)
    end end end end end.

Inductive capture : Type :=
| NoAnswer (msg : string)
| Capture (first : Z) (bits : list Z).

Definition read_dht22_single (cap : capture) : result Decoder.reading :=
  match cap with
  | NoAnswer msg => Ok (Decoder.NoReading (Decoder.Fail_read_bits msg))
  | Capture first bits =>
      if negb (first =? 1) then Ok (Decoder.NoReading Decoder.Fail_first)
      else if (length bits =? 40)%nat then
        match bits_to_bytes bits with
        | Raise e => Raise e
        | Ok (byte_1, byte_2, byte_3, byte_4, ok) =>
            if ok then
              let RH := (inject_Z (Z.shiftl byte_1 8 + byte_2) / 10)%Q in
              let Tc := (inject_Z (Z.shiftl byte_3 8 + byte_4) / 10)%Q in
              Ok (Decoder.Reading RH Tc)
            else Ok (Decoder.NoReading Decoder.Fail_checksum)
        end
      else Ok (Decoder.NoReading (Decoder.Fail_len (length bits)))
  end.

(** The items that are bits, and a capture made of bits seen as a capture
    of [Decoder]. *)
Definition is_bit (b : Z) : bool := (b =? 0) || (b =? 1).

Definition to_bit (b : Z) : bool := b =? 1.

Definition all_bits (cap : capture) : bool :=
  match cap with
  | NoAnswer _ => true
  | Capture _ bits => forallb is_bit bits
  end.

Definition to_capture (cap : capture) : Decoder.capture :=
  match cap with
  | NoAnswer msg => Decoder.NoAnswer msg
  | Capture first bits => Decoder.Capture first (map to_bit bits)
  end.

End RawDecoder.

(** ** The shared queue while the channels run *)

(** All channels publish to the one queue that the collector drains
    ([Channel(p, queue=queue)]); the operations of [Queue.Queue] are atomic,
    so that a run of the drain loop is a sequence of its own operations with
    the publications of the channel threads in between. *)
Module Shared.

(** The publications of the channel threads between two operations of the
    collector, in the order in which they reach the queue: each is a
    [put(info, False)], which on a full queue raises in the thread of its
    channel and leaves the queue as it is. *)
Fixpoint put_each (infos : list Sample.t) (queue : Queue.t) : Queue.t :=
  match infos with
  | [] => queue
  | info :: rest =>
      match Queue.put_nowait info queue with
      | Ok queue' => put_each rest queue'
      | Raise _ => put_each rest queue
      end
  end.

(** What the channels publish around one turn of the drain loop: before the
    test [queue.empty()], and between the test and [queue.get()]. *)
Record arrival : Type := mkArrival {
  before_empty : list Sample.t;
  before_get : list Sample.t
}.

(** [while not queue.empty(): info = queue.get(); data_collected.append(info)]
    with one [arrival] for each turn; when the list runs out the channels
    publish nothing more and the loop empties the queue. *)
Fixpoint drain (arrivals : list arrival) (queue : Queue.t)
    (data_collected : list Sample.t) : list Sample.t * Queue.t :=
  match arrivals with
  | [] =>
      (Collect.drain_items (Queue.items queue) data_collected,
       Queue.mk (Queue.maxsize queue) [])
  | a :: rest =>
      let queue := put_each (before_empty a) queue in
      if Queue.empty queue then (data_collected, queue)
      else
        match Queue.get (put_each (before_get a) queue) with
        | None => (data_collected, queue)
        | Some (info, queue') => drain rest queue' (data_collected ++ [info])
        end
  end.

Section Persist.

Variable strftime_LAX : Q -> string -> string.

(** The first half of one turn of the main loop, as [Collect.collect_pass],
    with the channels running. *)
Definition collect_pass (path_data : string) (arrivals : list arrival)
    (queue : Queue.t) : option (string * list Sample.t) * Queue.t :=
  let '(data_collected, queue') := drain arrivals queue [] in
  match data_collected with
  | [] => (None, queue')
  | info0 :: _ =>
      let t := Sample.time_stamp info0 in
      let fmt := "%Y-%m-%d %H-%M-%S"%string in
      let time_stamp := Collect.reformat_timestamp strftime_LAX t (Some fmt) in
      let f := Collect.os_path_join path_data ("data-" ++ time_stamp ++ ".yml")%string in
      (Some (f, data_collected), queue')
  end.

End Persist.

End Shared.

(** ** The outlier check on doubles *)

(** Where rounding decides what the code does, a Python float is a binary64
    number of the Standard Library's specification of IEEE 754 arithmetic
    (53 bits of precision, round to nearest even), with one NaN. *)
Module Float64.

Definition float : Type := SpecFloat.spec_float.
Definition prec : Z := 53.
Definition emax : Z := 1024.

Definition nan : float := SpecFloat.S754_nan.

(** The double of an integer, as in [float(n)]. *)
Definition of_int (n : Z) : float := SpecFloat.binary_normalize prec emax n 0 false.

Definition add (x y : float) : float := SpecFloat.SFadd prec emax x y.
Definition sub (x y : float) : float := SpecFloat.SFsub prec emax x y.
Definition div (x y : float) : float := SpecFloat.SFdiv prec emax x y.
Definition abs (x : float) : float := SpecFloat.SFabs x.

(** [x <= y] and [x > y]; both are false when an argument is NaN. *)
Definition leb (x y : float) : bool := SpecFloat.SFleb x y.
Definition gtb (x y : float) : bool := SpecFloat.SFltb y x.

Definition is_nan (x : float) : bool :=
  match x with
  | SpecFloat.S754_nan => true
  | _ => false
  end.

(** The place of a double on a line of integer triples, ordered from left to
    right by [key_le]: the negative numbers, the zeros, the positive ones. *)
Definition key (x : float) : Z * Z * Z :=
  match x with
  | SpecFloat.S754_nan => (3, 0, 0)
  | SpecFloat.S754_infinity true => (-2, 0, 0)
  | SpecFloat.S754_infinity false => (2, 0, 0)
  | SpecFloat.S754_zero _ => (0, 0, 0)
  | SpecFloat.S754_finite true m e => (-1, - e, - Zpos m)
  | SpecFloat.S754_finite false m e => (1, e, Zpos m)
  end.

Definition key_le (a b : Z * Z * Z) : Prop :=
  let '(a1, a2, a3) := a in
  let '(b1, b2, b3) := b in
  a1 < b1 \/ (a1 = b1 /\ (a2 < b2 \/ (a2 = b2 /\ a3 <= b3))).

End Float64.

Module Check64.
Import Float64.

(** The sample dict, with its floats as doubles. *)
Record sample : Type := mkSample {
  type : string;
  pin : Z;
  RH : float;
  Tf : float;
  time_stamp : float
}.

(** The attributes of the channel that the check reads. *)
Record t : Type := mk {
  num_min_history : nat;
  check_threshold : float;
  data_history : list sample
}.

(** The values that [Channel.__init__] gives them: 10, 25 and []. *)
Definition __init__ : t := mk 10 (of_int 25) [].

(** [numpy.sort] on an array of doubles without NaN. *)
Fixpoint insert_sorted (x : float) (l : list float) : list float :=
  match l with
  | [] => [x]
  | y :: rest => if leb x y then x :: l else y :: insert_sorted x rest
  end.

Definition np_sort (a : list float) : list float := fold_right insert_sorted [] a.

(** [numpy.median]: the middle element of the sorted array, the mean of the
    two middle elements (their sum divided by 2) when the size is even, NaN
    when it is 0. *)
Definition np_median (a : list float) : float :=
  let sorted := np_sort a in
  let n := length a in
  let index := (n / 2)%nat in
  match n with
  | O => nan
  | _ => if Nat.even n
         then div (add (nth (index - 1) sorted nan) (nth index sorted nan)) (of_int 2)
         else nth index sorted nan
  end.

Definition _check_data_value (self : t) (samples : list float) (value : float) : float :=
  let value_med := np_median samples in
  let delta := abs (sub value value_med) in
  if gtb delta (check_threshold self) then value_med else value.

Definition check_values (self : t) (info_new : sample) : sample :=
  if (num_min_history self <=? length (data_history self))%nat then
    let data_history_RH := map RH (data_history self) in
    let data_history_Tf := map Tf (data_history self) in
    let RH_checked := _check_data_value self data_history_RH (RH info_new) in
    let Tf_checked := _check_data_value self data_history_Tf (Tf info_new) in
    mkSample (type info_new) (pin info_new) RH_checked Tf_checked (time_stamp info_new)
  else info_new.

(** The words of the specification: [m] is the median of the values [a] when
    it is the middle of an ordered arrangement of [a], the mean of the two
    middle values for an even number of them. *)
Definition ordered (s : list float) : Prop :=
  StronglySorted (fun x y => leb x y = true) s.

Definition middle (s : list float) : float :=
  let n := length s in
  if Nat.even n
  then div (add (nth (n / 2 - 1) s nan) (nth (n / 2) s nan)) (of_int 2)
  else nth (n / 2) s nan.

Definition is_median (a : list float) (m : float) : Prop :=
  exists s : list float, Permutation s a /\ ordered s /\ m = middle s.

End Check64.

(** ** Concrete inputs *)

Module Fixtures.

Definition bit (n : nat) : bool := negb (n =? 0)%nat.

(** The frame of the end-to-end example of the specification. *)
Definition spec_frame : list bool :=
  map bit [0;0;0;0;0;0;1;0; 0;0;0;0;1;1;0;0; 0;0;0;0;0;0;0;1; 0;1;0;1;0;0;0;0;
           0;1;1;1;1;1;1;0]%nat.

(** The same four data bytes followed by their checksum, 95. *)
Definition good_frame : list bool :=
  map bit [0;0;0;0;0;0;1;0; 0;0;0;0;1;1;0;0; 0;0;0;0;0;0;0;1; 0;1;0;1;0;0;0;0;
           0;1;0;1;1;1;1;1]%nat.

(** The same frame as integers, and a capture in which one item of the first
    group is a 2. *)
Definition good_items : list Z := map Z.b2z good_frame.

Definition noisy_items : list Z :=
  [0;0;0;0;0;2;1;0; 0;0;0;0;1;1;0;0; 0;0;0;0;0;0;0;1; 0;1;0;1;0;0;0;0;
   0;1;0;1;1;1;1;1].

(** A channel on pin 25 that has been running for a while: ten samples, ten
    seconds apart, humidity 45..54 (median 49.5), temperature 65..74 (median
    69.5). *)
Definition sample_at (k : Z) : Sample.t :=
  Sample.mk "sample" 25 (inject_Z (45 + k)) (inject_Z (65 + k)) (inject_Z (10 * k)).

Definition ten_samples : list Sample.t :=
  map sample_at [0; 1; 2; 3; 4; 5; 6; 7; 8; 9].

Definition channel_with (history : list Sample.t) : Channel.t :=
  Channel.set_history history (Channel.__init__ 25 None None).

Definition busy_channel : Channel.t := channel_with ten_samples.

(** A reading with a humidity spike (49.5 + 25 + 1) and an ordinary
    temperature (69.5 + 25 - 1). *)
Definition spike : Sample.t := Sample.mk "sample" 25 75.5 93.5 100.

(** The wall clock reads 1000 s. One sample was taken at 0 s, long before the
    retention window of 600 s, and one right now. *)
Definition old_sample : Sample.t := Sample.mk "sample" 25 50 70 0.
Definition new_sample : Sample.t := Sample.mk "sample" 25 51 71 1000.

Definition queue_of (maxsize : nat) (items : list Sample.t) : Queue.t :=
  Queue.mk maxsize items.

(** A channel that has not stored anything yet, and one whose only entry is
    the old sample; both publish to an empty queue of capacity 100. *)
Definition idle_heap : Channel.heap :=
  Channel.mkHeap (channel_with []) (queue_of 100 []).

Definition sparse_heap : Channel.heap :=
  Channel.mkHeap (channel_with [old_sample]) (queue_of 100 []).

(** A channel that holds the old sample and one taken at 900 s. *)
Definition recent_sample : Sample.t := Sample.mk "sample" 25 50 70 900.

Definition mixed_heap : Channel.heap :=
  Channel.mkHeap (channel_with [old_sample; recent_sample]) (queue_of 100 []).

(** The channel with the old sample in front of a queue of capacity 1 that
    is full. *)
Definition stale_jammed_heap : Channel.heap :=
  Channel.mkHeap (channel_with [old_sample]) (queue_of 1 [old_sample]).

(** The same idle channel in front of a queue of capacity 1 that is full. *)
Definition jammed_heap : Channel.heap :=
  Channel.mkHeap (channel_with []) (queue_of 1 [old_sample]).

(** Three channels, on the pins 4, 17 and 18, of which the one on pin 17
    never reports. *)
Definition reporting (pin : Z) : Channel.t :=
  Channel.set_latest new_sample (Channel.__init__ pin None None).

Definition silent (pin : Z) : Channel.t := Channel.__init__ pin None None.

Definition fresh_channels : list Channel.t := [silent 4; silent 17; silent 18].
Definition two_of_three : list Channel.t := [reporting 4; silent 17; reporting 18].

(** The clock is read at 0; after 12 CPU seconds one channel has reported,
    after 31 CPU seconds two have. *)
Definition slow_start : list Collect.poll :=
  [Collect.mkPoll [reporting 4; silent 17; silent 18] 12;
   Collect.mkPoll two_of_three 31].

(** Two channels race: the one on pin 4 stamps its sample at 1000 s and
    publishes it before the one on pin 17, which stamped its own at 999 s. *)
Definition stamped_later : Sample.t := Sample.mk "sample" 4 50 70 1000.
Definition stamped_earlier : Sample.t := Sample.mk "sample" 17 50 70 999.
Definition raced_queue : Queue.t := queue_of 100 [stamped_later; stamped_earlier].

(** A pass during which the channel on pin 4 publishes before the first test
    of the queue and the channel on pin 17 right after the second. *)
Definition busy_pass : list Shared.arrival :=
  [Shared.mkArrival [stamped_later] [];
   Shared.mkArrival [] [stamped_earlier]].

(** A stand-in for the date functions, right for Los Angeles on the two
    stamps above: 999 s and 1000 s after the epoch. *)
Definition strftime_two (seconds : Q) (fmt : string) : string :=
  if Qle_bool 1000 seconds then "1969-12-31 16-16-40"%string
  else "1969-12-31 16-16-39"%string.

(** Doubles: ten samples with temperature 70.5 and humidity 30.2, except for
    four glitches in the middle of the history (5.0, 90.0, 95.0 and 10.0), so
    that the median humidity is 30.2; a reading with humidity 55.2 and
    temperature 95.5; and a channel that has stored nothing yet. *)
Definition tenths (n : Z) : Float64.float :=
  Float64.div (Float64.of_int n) (Float64.of_int 10).

Definition reading64 (k rh : Z) : Check64.sample :=
  Check64.mkSample "sample" 25 (tenths rh) (tenths 705) (Float64.of_int (10 * k)).

Definition busy64 : Check64.t :=
  Check64.mk 10 (Float64.of_int 25)
    [reading64 0 302; reading64 1 302; reading64 2 302; reading64 3 50;
     reading64 4 900; reading64 5 950; reading64 6 100; reading64 7 302;
     reading64 8 302; reading64 9 302].

Definition spike64 : Check64.sample :=
  Check64.mkSample "sample" 25 (tenths 552) (tenths 955) (Float64.of_int 100).

Definition idle64 : Check64.t := Check64.__init__.

End Fixtures.

(** * Properties *)

(** ** The decoder *)

Module DecoderFacts.
Import Decoder.

Lemma int2_digits_app (s1 s2 : string) (acc : Z) :
  int2_digits (s1 ++ s2) acc =
  match int2_digits s1 acc with
  | Some v => int2_digits s2 v
  | None => None
  end.
Proof.
  revert acc. induction s1 as [|c s1 IH]; intro acc; simpl.
  - reflexivity.
  - destruct (Ascii.eqb c "0"); [apply IH|].
    destruct (Ascii.eqb c "1"); [apply IH|reflexivity].
Qed.

Lemma int2_digits_str_bit (b : bool) (v : Z) :
  int2_digits (str_bit b) v = Some (2 * v + Z.b2z b).
Proof. destruct b; simpl; f_equal; lia. Qed.

(** Parsing the string built from a group of bits continues the big-endian
    accumulation. *)
Lemma int2_digits_fold (bits : list bool) :
  forall (s : string) (acc v : Z),
    int2_digits s acc = Some v ->
    int2_digits (fold_left (fun s b => (s ++ str_bit b)%string) bits s) acc =
    Some (fold_left (fun a b => 2 * a + Z.b2z b) bits v).
Proof.
  induction bits as [|b bits IH]; intros s acc v Hs; simpl.
  - exact Hs.
  - apply IH. rewrite int2_digits_app, Hs. apply int2_digits_str_bit.
Qed.

Lemma fold_str_length (bits : list bool) :
  forall s : string,
    String.length (fold_left (fun s b => (s ++ str_bit b)%string) bits s) =
    (String.length s + length bits)%nat.
Proof.
  induction bits as [|b bits IH]; intro s; simpl.
  - lia.
  - rewrite IH. replace (String.length (s ++ str_bit b)) with (S (String.length s)).
    + lia.
    + clear. induction s as [|c s IHs]; simpl.
      * destruct b; reflexivity.
      * now rewrite <- IHs.
Qed.

Lemma np_int2_bits_str (bits : list bool) :
  bits <> [] -> np_int2 (bits_str bits) = Ok (be_value bits).
Proof.
  intro Hne. unfold np_int2.
  assert (Hlen : String.length (bits_str bits) = length bits)
    by (unfold bits_str; now rewrite fold_str_length).
  assert (Hval : int2_digits (bits_str bits) 0 = Some (be_value bits))
    by (unfold bits_str, be_value; now apply int2_digits_fold).
  destruct (bits_str bits) eqn:E.
  - destruct bits; [congruence | discriminate Hlen].
  - now rewrite Hval.
Qed.

Lemma slice_frame (bits : list bool) (k : nat) :
  length bits = 40%nat -> (k < 5)%nat ->
  np_int2 (bits_str (slice bits (8 * k) (8 * k + 8))) = Ok (frame_byte k bits).
Proof.
  intros Hlen Hk. unfold slice, frame_byte.
  replace (8 * k + 8 - 8 * k)%nat with 8%nat by lia.
  apply np_int2_bits_str.
  intro Hnil. apply (f_equal (@length bool)) in Hnil.
  rewrite length_firstn, length_skipn, Hlen in Hnil. cbn [length] in Hnil. lia.
Qed.

(** [bits_to_bytes] on a frame of 40 bits, in the words of the specification. *)
Lemma bits_to_bytes_frame (bits : list bool) :
  length bits = 40%nat ->
  bits_to_bytes bits =
  Ok (frame_byte 0 bits, frame_byte 1 bits, frame_byte 2 bits, frame_byte 3 bits,
      compute_checksum (frame_byte 0 bits) (frame_byte 1 bits) (frame_byte 2 bits)
                       (frame_byte 3 bits) (frame_byte 4 bits)).
Proof.
  intro Hlen. unfold bits_to_bytes. rewrite Hlen. simpl negb. cbv iota.
  change (slice bits 0 8) with (slice bits (8 * 0) (8 * 0 + 8)).
  change (slice bits 8 16) with (slice bits (8 * 1) (8 * 1 + 8)).
  change (slice bits 16 24) with (slice bits (8 * 2) (8 * 2 + 8)).
  change (slice bits 24 32) with (slice bits (8 * 3) (8 * 3 + 8)).
  change (slice bits 32 40) with (slice bits (8 * 4) (8 * 4 + 8)).
  rewrite !slice_frame by (assumption || lia).
  reflexivity.
Qed.

Lemma compute_checksum_true (b1 b2 b3 b4 b5 : Z) :
  compute_checksum b1 b2 b3 b4 b5 = true <-> Z.land (b1 + b2 + b3 + b4) 255 = b5.
Proof.
  unfold compute_checksum.
  destruct (Z.eqb_spec (Z.land (b1 + b2 + b3 + b4) 255) b5); split; congruence.
Qed.

(** C1. For every capture of 40 bits whose start marker is 1, with B1..B5
    the five big-endian bytes of the frame: when (B1+B2+B3+B4) & 0xFF equals
    B5 the decoder returns the humidity ((B1<<8)+B2)/10 and the temperature in
    Celsius ((B3<<8)+B4)/10, which [c2f] turns into C*9/5+32; when it differs
    from B5 the decoder returns 'Fail checksum'; hence a reading is returned if
    and only if the checksum matches. *)
Theorem decode_checksum (bits : list bool) :
  length bits = 40%nat ->
  let B1 := frame_byte 0 bits in
  let B2 := frame_byte 1 bits in
  let B3 := frame_byte 2 bits in
  let B4 := frame_byte 3 bits in
  let B5 := frame_byte 4 bits in
  let RH := (inject_Z (Z.shiftl B1 8 + B2) / 10)%Q in
  let Tc := (inject_Z (Z.shiftl B3 8 + B4) / 10)%Q in
  (Z.land (B1 + B2 + B3 + B4) 255 = B5 ->
     read_dht22_single (Capture 1 bits) = Ok (Reading RH Tc)) /\
  (Z.land (B1 + B2 + B3 + B4) 255 <> B5 ->
     read_dht22_single (Capture 1 bits) = Ok (NoReading Fail_checksum)) /\
  ((exists RH' Tc', read_dht22_single (Capture 1 bits) = Ok (Reading RH' Tc')) <->
     Z.land (B1 + B2 + B3 + B4) 255 = B5) /\
  c2f Tc = (Tc * 9 / 5 + 32)%Q.
Proof.
  intros Hlen B1 B2 B3 B4 B5 RH Tc.
  assert (Hread : read_dht22_single (Capture 1 bits) =
                  if compute_checksum B1 B2 B3 B4 B5
                  then Ok (Reading RH Tc) else Ok (NoReading Fail_checksum)).
  { unfold read_dht22_single. simpl negb. cbv iota.
    rewrite Hlen, (bits_to_bytes_frame bits Hlen). simpl Nat.eqb. cbv iota.
    fold B1 B2 B3 B4 B5. destruct (compute_checksum B1 B2 B3 B4 B5); reflexivity. }
  pose proof (compute_checksum_true B1 B2 B3 B4 B5) as Hck.
  destruct (compute_checksum B1 B2 B3 B4 B5) eqn:E.
  - assert (Hsum : Z.land (B1 + B2 + B3 + B4) 255 = B5) by now apply Hck.
    repeat split; auto.
    + intro Hne. contradiction.
    + exists RH, Tc. exact Hread.
  - assert (Hsum : Z.land (B1 + B2 + B3 + B4) 255 <> B5).
    { intro H. apply Hck in H. discriminate. }
    repeat split; auto.
    + intro H. contradiction.
    + intros (RH' & Tc' & H). rewrite Hread in H. discriminate.
    + intro H. contradiction.
Qed.

Lemma decode_checksum_witness :
  length Fixtures.good_frame = 40%nat /\
  read_dht22_single (Capture 1 Fixtures.good_frame) =
    Ok (Reading (inject_Z 524 / 10) (inject_Z 336 / 10)).
Proof.
  split; [reflexivity|].
  apply (decode_checksum Fixtures.good_frame); reflexivity.
Defined.

(** C9. For every capture whose start marker is 1 and whose number of bits is
    not 40, the decoder returns 'Fail len(bits) != 40' with that number,
    whatever the bits are: two captures of the same length get the same
    answer, and [bits_to_bytes] itself stops at its length test, before any
    byte or checksum is computed. *)
Theorem decode_wrong_length (bits : list bool) :
  length bits <> 40%nat ->
  read_dht22_single (Capture 1 bits) = Ok (NoReading (Fail_len (length bits))) /\
  (forall bits' : list bool,
     length bits' = length bits ->
     read_dht22_single (Capture 1 bits') = read_dht22_single (Capture 1 bits)) /\
  bits_to_bytes bits = Raise (ValueError_bits_length (length bits)).
Proof.
  intro Hlen.
  assert (Hgen : forall l : list bool, length l <> 40%nat ->
            read_dht22_single (Capture 1 l) = Ok (NoReading (Fail_len (length l)))).
  { intros l Hl. unfold read_dht22_single. simpl negb. cbv iota.
    destruct (Nat.eqb_spec (length l) 40); [contradiction | reflexivity]. }
  split; [now apply Hgen|]. split.
  - intros bits' Heq. rewrite !Hgen by congruence. now rewrite Heq.
  - unfold bits_to_bytes.
    destruct (Nat.eqb_spec (length bits) 40); [contradiction | reflexivity].
Qed.

Lemma decode_wrong_length_witness :
  length [true; false; true] <> 40%nat /\
  read_dht22_single (Capture 1 [true; false; true]) = Ok (NoReading (Fail_len 3)).
Proof.
  split; [cbn; lia|].
  apply (decode_wrong_length [true; false; true]); cbn; lia.
Defined.

(** C5, as the specification states it, fails: the last byte of the frame is
    126 and not 94, the checksum of the four data bytes is 95 and not 94, and
    the decoder does not accept the frame. *)
Lemma spec_frame_rejected :
  frame_byte 4 Fixtures.spec_frame <> 94 /\
  Z.land (2 + 12 + 1 + 80) 255 <> 94 /\
  ~ (exists RH Tc,
       read_dht22_single (Capture 1 Fixtures.spec_frame) = Ok (Reading RH Tc) /\
       RH == 51.2 /\ Tc == 33.6).
Proof.
  split; [|split].
  - vm_compute. discriminate.
  - vm_compute. discriminate.
  - intros (RH & Tc & H & _). vm_compute in H. discriminate.
Qed.

(** C5, amended. The frame of the example has the bytes 2, 12, 1, 80 and the
    checksum byte 126; the checksum of the data bytes is 95, so the decoder
    answers 'Fail checksum'. The same data bytes followed by the checksum
    byte 95 are accepted, with humidity 52.4 and temperature 33.6 Celsius. *)
Theorem spec_frame_decoded :
  (frame_byte 0 Fixtures.spec_frame, frame_byte 1 Fixtures.spec_frame,
   frame_byte 2 Fixtures.spec_frame, frame_byte 3 Fixtures.spec_frame,
   frame_byte 4 Fixtures.spec_frame) = (2, 12, 1, 80, 126) /\
  bits_to_bytes Fixtures.spec_frame = Ok (2, 12, 1, 80, false) /\
  Z.land (2 + 12 + 1 + 80) 255 = 95 /\
  read_dht22_single (Capture 1 Fixtures.spec_frame) = Ok (NoReading Fail_checksum) /\
  bits_to_bytes Fixtures.good_frame = Ok (2, 12, 1, 80, true) /\
  frame_byte 4 Fixtures.good_frame = 95 /\
  exists RH Tc,
    read_dht22_single (Capture 1 Fixtures.good_frame) = Ok (Reading RH Tc) /\
    RH == 52.4 /\ Tc == 33.6.
Proof.
  repeat split; try reflexivity.
  exists (inject_Z 524 / 10)%Q, (inject_Z 336 / 10)%Q.
  repeat split; reflexivity.
Qed.

End DecoderFacts.

(** ** The outlier check *)

Module CheckFacts.
Import Channel.
Local Open Scope Q_scope.

Lemma Qgtb_true (a b : Q) : Qgtb a b = true <-> b < a.
Proof.
  unfold Qgtb. destruct (Qle_bool a b) eqn:E; simpl.
  - apply Qle_bool_iff in E. split; [discriminate|]. intro H.
    exfalso. exact (Qlt_not_le _ _ H E).
  - split; [intros _|reflexivity]. apply Qnot_le_lt. intro H.
    apply Qle_bool_iff in H. congruence.
Qed.

Lemma Qgtb_false (a b : Q) : Qgtb a b = false <-> a <= b.
Proof.
  unfold Qgtb. destruct (Qle_bool a b) eqn:E; simpl.
  - apply Qle_bool_iff in E. tauto.
  - split; [discriminate|]. intro H. apply Qle_bool_iff in H. congruence.
Qed.

(** The two branches of [_check_data_value] once the median is known. *)
Lemma check_data_value_rule (self : t) (samples : list Q) (value m : Q) :
  np_median samples = Some m ->
  (check_threshold self < Qabs (value - m) ->
     _check_data_value self samples value = m) /\
  (Qabs (value - m) <= check_threshold self ->
     _check_data_value self samples value = value).
Proof.
  intro Hm. unfold _check_data_value. rewrite Hm. cbv zeta. split; intro H.
  - apply Qgtb_true in H. now rewrite H.
  - apply Qgtb_false in H. now rewrite H.
Qed.

Lemma check_values_enough (self : t) (info_new : Sample.t) :
  (num_min_history self <= length (data_history self))%nat ->
  check_values self info_new =
  Sample.mk (Sample.type info_new) (Sample.pin info_new)
    (_check_data_value self (map Sample.RH (data_history self)) (Sample.RH info_new))
    (_check_data_value self (map Sample.Tf (data_history self)) (Sample.Tf info_new))
    (Sample.time_stamp info_new).
Proof.
  intro H. unfold check_values.
  destruct (Nat.leb_spec (num_min_history self) (length (data_history self)));
    [reflexivity | lia].
Qed.

Lemma check_values_short (self : t) (info_new : Sample.t) :
  (length (data_history self) < num_min_history self)%nat ->
  check_values self info_new = info_new.
Proof.
  intro H. unfold check_values.
  destruct (Nat.leb_spec (num_min_history self) (length (data_history self)));
    [lia | reflexivity].
Qed.

Lemma check_values_time_stamp (self : t) (info_new : Sample.t) :
  Sample.time_stamp (check_values self info_new) = Sample.time_stamp info_new.
Proof.
  unfold check_values.
  now destruct (num_min_history self <=? length (data_history self))%nat.
Qed.

(** [np_median] is defined on every array that is not empty. *)
Lemma np_median_defined (a : list Q) :
  a <> [] -> exists m, np_median a = Some m.
Proof.
  intro Hne. unfold np_median. destruct a as [|x a]; [congruence|].
  cbn [length]. destruct (Nat.even (S (length a))); eexists; reflexivity.
Qed.

(** [np_sort] rearranges its argument into increasing order, so that
    [np_median] picks the middle of the ordered values. *)
Lemma insert_sorted_perm (x : Q) (l : list Q) :
  Permutation (insert_sorted x l) (x :: l).
Proof.
  induction l as [|y l IH]; simpl.
  - apply Permutation_refl.
  - destruct (Qle_bool x y).
    + apply Permutation_refl.
    + eapply perm_trans;
        [apply perm_skip, IH | apply perm_swap].
Qed.

Lemma np_sort_perm (a : list Q) : Permutation (np_sort a) a.
Proof.
  induction a as [|x a IH]; simpl.
  - constructor.
  - eapply perm_trans;
      [apply insert_sorted_perm | now apply perm_skip].
Qed.

Lemma insert_sorted_sorted (x : Q) (l : list Q) :
  LocallySorted Qle l -> LocallySorted Qle (insert_sorted x l).
Proof.
  induction 1 as [|y|y z l Hl IH Hyz]; simpl.
  - constructor.
  - destruct (Qle_bool x y) eqn:E.
    + constructor; [constructor|]. now apply Qle_bool_iff.
    + constructor; [constructor|]. apply Qlt_le_weak, Qgtb_true.
      unfold Qgtb. now rewrite E.
  - destruct (Qle_bool x y) eqn:E.
    + constructor; [now constructor|]. now apply Qle_bool_iff.
    + simpl in IH. destruct (Qle_bool x z) eqn:E'.
      * constructor; [exact IH|]. apply Qlt_le_weak, Qgtb_true.
        unfold Qgtb. now rewrite E.
      * constructor; assumption.
Qed.

Lemma np_sort_sorted (a : list Q) : LocallySorted Qle (np_sort a).
Proof.
  induction a as [|x a IH]; simpl; [constructor | now apply insert_sorted_sorted].
Qed.

(** C10. The outlier check leaves the pin, the type and the time stamp of a
    sample as they are, whatever it does to the humidity and the temperature,
    and with fewer than [num_min_history] samples in the history it returns
    the sample it was given. *)
Theorem check_values_frame (self : t) (info_new : Sample.t) :
  let checked := check_values self info_new in
  Sample.pin checked = Sample.pin info_new /\
  Sample.type checked = Sample.type info_new /\
  Sample.time_stamp checked = Sample.time_stamp info_new /\
  ((length (data_history self) < num_min_history self)%nat -> checked = info_new).
Proof.
  cbv zeta. unfold check_values.
  destruct (Nat.leb_spec (num_min_history self) (length (data_history self)));
    cbn; repeat split; auto; lia.
Qed.

Lemma check_values_frame_witness :
  (length (data_history (Fixtures.channel_with [])) <
     num_min_history (Fixtures.channel_with []))%nat /\
  check_values (Fixtures.channel_with []) Fixtures.spike = Fixtures.spike.
Proof.
  split; [vm_compute; lia|].
  apply (check_values_frame (Fixtures.channel_with []) Fixtures.spike).
  vm_compute; lia.
Defined.

End CheckFacts.

(** ** The history of a channel *)

Module HistoryFacts.
Import Channel.
Local Open Scope Q_scope.
Local Open Scope channel_scope.

Lemma sample_eqb_refl (d : Sample.t) : Sample.eqb d d = true.
Proof.
  unfold Sample.eqb.
  now rewrite String.eqb_refl, Z.eqb_refl, !Qeq_bool_refl.
Qed.

Lemma sample_eqb_time_stamp (x d : Sample.t) :
  Sample.eqb x d = true -> Sample.time_stamp x == Sample.time_stamp d.
Proof.
  unfold Sample.eqb. intro H.
  apply andb_true_iff in H. destruct H as [_ H]. now apply Qeq_bool_eq.
Qed.

Lemma Qle_bool_compat (a b c d : Q) :
  a == c -> b == d -> Qle_bool a b = Qle_bool c d.
Proof.
  intros Hac Hbd.
  destruct (Qle_bool a b) eqn:E1, (Qle_bool c d) eqn:E2; try reflexivity.
  - apply Qle_bool_iff in E1. rewrite Hac, Hbd in E1.
    apply Qle_bool_iff in E1. congruence.
  - apply Qle_bool_iff in E2. rewrite <- Hac, <- Hbd in E2.
    apply Qle_bool_iff in E2. congruence.
Qed.

(** Two samples that Python finds equal are too old together. *)
Lemma too_old_eqb (self : t) (now : Q) (x d : Sample.t) :
  Sample.eqb x d = true -> too_old self now x = too_old self now d.
Proof.
  intro H. apply sample_eqb_time_stamp in H.
  unfold too_old, Qgtb. cbv zeta. f_equal.
  apply Qle_bool_compat; [now rewrite H | reflexivity].
Qed.

Lemma too_old_spec (self : t) (now : Q) (d : Sample.t) :
  too_old self now d = true <-> time_history self < now - Sample.time_stamp d.
Proof. unfold too_old. cbv zeta. apply CheckFacts.Qgtb_true. Qed.

Lemma not_too_old_spec (self : t) (now : Q) (d : Sample.t) :
  too_old self now d = false <-> now - Sample.time_stamp d <= time_history self.
Proof. unfold too_old. cbv zeta. apply CheckFacts.Qgtb_false. Qed.

Section Eviction.

Variable stale : Sample.t -> bool.
Hypothesis stale_eqb :
  forall x d : Sample.t, Sample.eqb x d = true -> stale x = stale d.

(** [remove] passes over the entries that stay and takes the first stale one. *)
Lemma list_remove_first_stale (pre l : list Sample.t) (x : Sample.t) :
  Forall (fun d => stale d = false) pre -> stale x = true ->
  list_remove x (pre ++ x :: l) = Some (pre ++ l).
Proof.
  intros Hpre Hx. induction Hpre as [|y pre Hy Hpre IH]; simpl.
  - now rewrite sample_eqb_refl.
  - destruct (Sample.eqb y x) eqn:E.
    + apply stale_eqb in E. congruence.
    + now rewrite IH.
Qed.

Lemma heap_eta (h : heap) (l : list Sample.t) :
  data_history (self h) = l -> mkHeap (set_history l (self h)) (queue h) = h.
Proof. destruct h as [[] q]. cbn. now intros ->. Qed.

(** The removal loop, run on the stale entries of a history, leaves the
    other entries, in their order. *)
Lemma remove_each_filter (l : list Sample.t) :
  forall (pre : list Sample.t) (h : heap),
    Forall (fun d => stale d = false) pre ->
    data_history (self h) = pre ++ l ->
    remove_each (filter stale l) h =
    (Ok tt, mkHeap (set_history (pre ++ filter (fun d => negb (stale d)) l) (self h))
                   (queue h)).
Proof.
  induction l as [|x l IH]; intros pre h Hpre Hh.
  - cbn [filter remove_each]. unfold ret. f_equal. symmetry. now apply heap_eta.
  - cbn [filter]. destruct (stale x) eqn:Ex; cbn [negb].
    + cbn [remove_each]. unfold bind, get_self, modify_self.
      rewrite Hh, (list_remove_first_stale pre l x Hpre Ex).
      rewrite (IH pre); [reflexivity | exact Hpre | reflexivity].
    + rewrite (IH (pre ++ [x]) h).
      * now rewrite <- app_assoc.
      * apply Forall_app. split; [exact Hpre | now constructor].
      * now rewrite <- app_assoc.
Qed.

End Eviction.

(** [adjust_history] never raises: it keeps exactly the entries that are not
    too old, in their order, and counts both groups. *)
Lemma adjust_history_filter (now : Q) (h : heap) :
  adjust_history now h =
  (Ok (length (kept_history (self h) now), length (evicted_history (self h) now)),
   mkHeap (set_history (kept_history (self h) now) (self h)) (queue h)).
Proof.
  unfold kept_history, evicted_history, adjust_history, bind at 1, get_self at 1.
  unfold bind at 1.
  rewrite (remove_each_filter (too_old (self h) now) (too_old_eqb (self h) now)
             (data_history (self h)) [] h (Forall_nil _) eq_refl).
  reflexivity.
Qed.

(** The three ways [add_data] can end. *)
Lemma add_data_cases (now : Q) (info : Sample.t) (h : heap) :
  let kept := kept_history (self h) now in
  let evicted := evicted_history (self h) now in
  let self1 := set_history kept (self h) in
  let r := check_values self1 info in
  let self2 := set_latest r (set_history (kept ++ [r]) self1) in
  add_data now info h =
  if (length kept =? 0)%nat && (0 <? length evicted)%nat
  then (Raise ValueError_no_data_remains, mkHeap self1 (queue h))
  else match Queue.put_nowait r (queue h) with
       | Ok q => (Ok r, mkHeap self2 q)
       | Raise e => (Raise e, mkHeap self2 (queue h))
       end.
Proof.
  cbv zeta. unfold add_data, bind at 1. rewrite adjust_history_filter.
  destruct ((length (kept_history (self h) now) =? 0)%nat &&
            (0 <? length (evicted_history (self h) now))%nat); [reflexivity|].
  unfold bind, get_self, modify_self, queue_put, ret. cbn [self queue].
  destruct (Queue.put_nowait _ (queue h)); reflexivity.
Qed.

Lemma put_nowait_full (info : Sample.t) (q : Queue.t) :
  Queue.full q = true -> Queue.put_nowait info q = Raise Queue_Full.
Proof.
  unfold Queue.full, Queue.put_nowait. intro H.
  apply andb_true_iff in H. destruct H as [H1 H2].
  apply Nat.eqb_eq in H2. rewrite H1, <- H2, Nat.eqb_refl. reflexivity.
Qed.

Lemma put_nowait_room (info : Sample.t) (q : Queue.t) :
  Queue.full q = false ->
  Queue.put_nowait info q = Ok (Queue.mk (Queue.maxsize q) (Queue.items q ++ [info])).
Proof.
  unfold Queue.full, Queue.put_nowait. intro H.
  rewrite (Nat.eqb_sym (Queue.qsize q)). now rewrite H.
Qed.

(** The guard of [add_data] lets the call through when something is left
    after the eviction or when there was nothing to evict. *)
Lemma guard_passes (self : t) (now : Q) :
  kept_history self now <> [] \/ data_history self = [] ->
  (length (kept_history self now) =? 0)%nat &&
  (0 <? length (evicted_history self now))%nat = false.
Proof.
  intros [H|H].
  - destruct (kept_history self now); [congruence | reflexivity].
  - unfold evicted_history. rewrite H. cbn. apply andb_false_r.
Qed.

Lemma guard_stops (self : t) (now : Q) :
  (length (kept_history self now) =? 0)%nat &&
  (0 <? length (evicted_history self now))%nat = true <->
  data_history self <> [] /\
  Forall (fun d => time_history self < now - Sample.time_stamp d) (data_history self).
Proof.
  unfold kept_history, evicted_history.
  induction (data_history self) as [|x l IH].
  - cbn. split; [discriminate | intros [H _]; congruence].
  - cbn [filter]. destruct (too_old self now x) eqn:Ex; cbn [negb].
    + apply too_old_spec in Ex. split.
      * intro H. split; [discriminate|]. constructor; [exact Ex|].
        destruct l as [|y l]; [constructor|].
        apply IH. apply andb_true_iff in H. destruct H as [H _].
        rewrite H. cbn [andb].
        destruct (filter (too_old self now) (y :: l)) eqn:E; [|reflexivity].
        exfalso. apply Nat.eqb_eq, length_zero_iff_nil in H.
        assert (Hy : In y (y :: l)) by now left.
        destruct (too_old self now y) eqn:Ey.
        -- assert (Hin : In y (filter (too_old self now) (y :: l)))
             by (apply filter_In; split; assumption).
           rewrite E in Hin. contradiction.
        -- assert (Hin : In y (filter (fun d => negb (too_old self now d)) (y :: l)))
             by (apply filter_In; split; [assumption | now rewrite Ey]).
           rewrite H in Hin. contradiction.
      * intros [_ H]. inversion H as [|? ? _ Hl]; subst.
        destruct l as [|y l]; [reflexivity|].
        assert (Hne : y :: l <> []) by discriminate.
        destruct IH as [_ IH]. specialize (IH (conj Hne Hl)).
        apply andb_true_iff in IH. destruct IH as [IH _]. now rewrite IH.
    + cbn. split; [discriminate|]. intros [_ H]. inversion H as [|? ? Hx _]; subst.
      apply not_too_old_spec in Ex. exfalso. exact (Qlt_not_le _ _ Hx Ex).
Qed.

(** C3, as the specification states it, fails: the sample handed to
    [add_data] is stored without a look at its own age. With the default
    window of 600 s, a sample stamped 0 s that is appended when the clock
    reads 1000 s is in the buffer after the call, older than the window. The
    loop of [run] gets there when the wall clock is stepped between the
    stamping of the sample and the eviction. *)
Lemma stale_sample_is_stored :
  fst (add_data 1000 Fixtures.old_sample Fixtures.idle_heap) = Ok Fixtures.old_sample /\
  ~ (forall d : Sample.t,
       In d (data_history (self (snd (add_data 1000 Fixtures.old_sample
                                                 Fixtures.idle_heap)))) ->
       1000 - Sample.time_stamp d <=
       time_history (self (snd (add_data 1000 Fixtures.old_sample Fixtures.idle_heap)))) /\
  data_history
    (self (snd (run_cycle (Decoder.Capture 1 Fixtures.good_frame) 0 1000
                          Fixtures.idle_heap))) =
    [Sample.mk "sample" 25 (inject_Z 524 / 10) (Decoder.c2f (inject_Z 336 / 10)) 0].
Proof.
  split; [reflexivity|]. split; [|reflexivity].
  intro H. specialize (H Fixtures.old_sample (or_introl eq_refl)).
  vm_compute in H. apply H. reflexivity.
Qed.

(** C3, amended. Whenever [add_data] gets past its guard (an entry survives
    the eviction, or the history was empty), the eviction has run first, on
    the clock value [now]: the buffer afterwards is, in order, exactly the
    former entries whose age [now - time_stamp] does not exceed
    [time_history] (600 s unless configured), followed by the new sample as
    checked against those entries. So the new sample is present, is the
    latest one and is not evicted by the same call, and no entry in front of
    it is older than the window; its own age is not examined. The call then
    returns the sample, or raises [Queue.Full] from the publication. *)
Theorem add_data_evicts_then_appends (now : Q) (info : Sample.t) (h : heap) :
  kept_history (self h) now <> [] \/ data_history (self h) = [] ->
  let kept := kept_history (self h) now in
  let r := check_values (set_history kept (self h)) info in
  let h' := snd (add_data now info h) in
  adjust_history now h =
    (Ok (length kept, length (evicted_history (self h) now)),
     mkHeap (set_history kept (self h)) (queue h)) /\
  data_history (self h') = kept ++ [r] /\
  data_latest (self h') = Some r /\
  In r (data_history (self h')) /\
  Sample.time_stamp r = Sample.time_stamp info /\
  (forall d : Sample.t,
     In d kept <->
     In d (data_history (self h)) /\
     now - Sample.time_stamp d <= time_history (self h)) /\
  time_history (self h') = time_history (self h) /\
  (fst (add_data now info h) = Ok r \/ fst (add_data now info h) = Raise Queue_Full) /\
  (forall (pin : Z) (time_wait : option Q),
     time_history (__init__ pin time_wait None) == 600).
Proof.
  intros Hguard kept r h'.
  assert (Hh' : data_history (self h') = kept ++ [r] /\
                data_latest (self h') = Some r /\
                time_history (self h') = time_history (self h) /\
                (fst (add_data now info h) = Ok r \/
                 fst (add_data now info h) = Raise Queue_Full)).
  { subst h'. rewrite (add_data_cases now info h). cbv zeta.
    rewrite (guard_passes (self h) now Hguard). fold kept. fold r.
    destruct (Queue.full (queue h)) eqn:Efull.
    - rewrite (put_nowait_full r _ Efull). cbn. auto.
    - rewrite (put_nowait_room r _ Efull). cbn. auto. }
  destruct Hh' as (Hhist & Hlatest & Hwin & Hres).
  split; [apply adjust_history_filter|].
  split; [exact Hhist|]. split; [exact Hlatest|]. split.
  { rewrite Hhist. apply in_or_app. right. now left. }
  split. { apply CheckFacts.check_values_time_stamp. }
  split.
  { intro d. unfold kept, kept_history. rewrite filter_In, negb_true_iff.
    now rewrite not_too_old_spec. }
  split; [exact Hwin|]. split; [exact Hres|].
  intros. reflexivity.
Qed.

Lemma add_data_evicts_then_appends_witness :
  (kept_history (self Fixtures.mixed_heap) 1000 <> [] \/
   data_history (self Fixtures.mixed_heap) = []) /\
  data_history (self (snd (add_data 1000 Fixtures.new_sample Fixtures.mixed_heap))) =
    [Fixtures.recent_sample; Fixtures.new_sample].
Proof.
  assert (Hguard : kept_history (self Fixtures.mixed_heap) 1000 <> [] \/
                   data_history (self Fixtures.mixed_heap) = [])
    by (left; vm_compute; discriminate).
  split; [exact Hguard|].
  exact (proj1 (proj2
    (add_data_evicts_then_appends 1000 Fixtures.new_sample Fixtures.mixed_heap Hguard))).
Defined.

(** C4, as the specification states it, fails: when the only entry of the
    history is older than the window, appending a new, valid sample raises
    'No data remains in history.'; the buffer is left empty, without the new
    sample, and nothing is published. *)
Lemma append_after_gap_raises :
  Forall (fun d => time_history (self Fixtures.sparse_heap) < 1000 - Sample.time_stamp d)
         (data_history (self Fixtures.sparse_heap)) /\
  fst (add_data 1000 Fixtures.new_sample Fixtures.sparse_heap) =
    Raise ValueError_no_data_remains /\
  data_history (self (snd (add_data 1000 Fixtures.new_sample Fixtures.sparse_heap))) = [] /\
  queue (snd (add_data 1000 Fixtures.new_sample Fixtures.sparse_heap)) =
    queue Fixtures.sparse_heap /\
  ~ (exists r : Sample.t,
       fst (add_data 1000 Fixtures.new_sample Fixtures.sparse_heap) = Ok r /\
       data_history (self (snd (add_data 1000 Fixtures.new_sample Fixtures.sparse_heap)))
         = [r]).
Proof.
  split; [|split; [|split; [|split]]]; try reflexivity.
  - repeat constructor.
  - intros (r & H & _). discriminate H.
Qed.

(** C4, amended. When the history is not empty and every entry of it is
    older than the window, [add_data] raises 'No data remains in history.':
    the eviction has emptied the buffer, the new sample is not stored, the
    latest sample is not updated and nothing is published. The error is
    raised in exactly that situation, whatever the new sample is. An append
    to an empty history, with room in the queue, succeeds and leaves exactly
    the new sample in the buffer. *)
Theorem add_data_after_gap (now : Q) (info : Sample.t) (h : heap) :
  let l := data_history (self h) in
  let all_too_old :=
    Forall (fun d => time_history (self h) < now - Sample.time_stamp d) l in
  (l <> [] -> all_too_old ->
     add_data now info h =
     (Raise ValueError_no_data_remains, mkHeap (set_history [] (self h)) (queue h))) /\
  (fst (add_data now info h) = Raise ValueError_no_data_remains <->
     l <> [] /\ all_too_old) /\
  (l = [] -> Queue.full (queue h) = false ->
     fst (add_data now info h) = Ok info /\
     data_history (self (snd (add_data now info h))) = [info]).
Proof.
  cbv zeta. rewrite (add_data_cases now info h). cbv zeta.
  pose proof (guard_stops (self h) now) as Hg.
  destruct ((length (kept_history (self h) now) =? 0)%nat &&
            (0 <? length (evicted_history (self h) now))%nat) eqn:Eg.
  - assert (Hall : data_history (self h) <> [] /\
                   Forall (fun d => time_history (self h) < now - Sample.time_stamp d)
                          (data_history (self h))) by now apply Hg.
    assert (Hkept : kept_history (self h) now = []).
    { apply andb_true_iff in Eg. destruct Eg as [Eg _].
      now apply Nat.eqb_eq, length_zero_iff_nil in Eg. }
    rewrite Hkept. split; [reflexivity|]. split.
    + split; [intros _; exact Hall | reflexivity].
    + intro Hnil. destruct Hall as [Hne _]. contradiction.
  - split; [|split].
    + intros Hne Hall. destruct Hg as [_ Hg]. specialize (Hg (conj Hne Hall)).
      discriminate.
    + split.
      * intro H. exfalso. revert H.
        destruct (Queue.put_nowait _ (queue h)) eqn:Eput; cbn; [discriminate|].
        unfold Queue.put_nowait in Eput.
        destruct ((0 <? Queue.maxsize (queue h))%nat &&
                  (Queue.qsize (queue h) =? Queue.maxsize (queue h))%nat);
          [|discriminate]. injection Eput as <-. discriminate.
      * intro H. apply Hg in H. discriminate.
    + intros Hnil Hroom.
      assert (Hkept : kept_history (self h) now = [])
        by (unfold kept_history; now rewrite Hnil).
      rewrite Hkept.
      assert (Hr : check_values (set_history [] (self h)) info = info).
      { unfold check_values. cbn [data_history set_history length].
        destruct (num_min_history _ <=? 0)%nat; [|reflexivity].
        cbn. destruct info; reflexivity. }
      rewrite Hr, (put_nowait_room info _ Hroom). cbn. split; reflexivity.
Qed.

Lemma add_data_after_gap_witness :
  data_history (self Fixtures.sparse_heap) <> [] /\
  Forall (fun d => time_history (self Fixtures.sparse_heap) < 1000 - Sample.time_stamp d)
         (data_history (self Fixtures.sparse_heap)) /\
  add_data 1000 Fixtures.new_sample Fixtures.sparse_heap =
    (Raise ValueError_no_data_remains,
     mkHeap (set_history [] (self Fixtures.sparse_heap)) (queue Fixtures.sparse_heap)).
Proof.
  assert (Hne : data_history (self Fixtures.sparse_heap) <> []) by discriminate.
  assert (Hall : Forall (fun d => time_history (self Fixtures.sparse_heap) <
                                  1000 - Sample.time_stamp d)
                        (data_history (self Fixtures.sparse_heap)))
    by (repeat constructor).
  split; [exact Hne|]. split; [exact Hall|].
  exact (proj1 (add_data_after_gap 1000 Fixtures.new_sample Fixtures.sparse_heap)
               Hne Hall).
Defined.

Lemma run_cycle_reading (cap : Decoder.capture) (time_now time_stamp_now RH Tc : Q)
    (h : heap) :
  Decoder.read_dht22_single cap = Ok (Decoder.Reading RH Tc) ->
  run_cycle cap time_now time_stamp_now h =
  match add_data time_stamp_now
          (Sample.mk "sample" (pin (self h)) RH (Decoder.c2f Tc) time_now) h with
  | (Ok info, h') => (Ok (Some info), h')
  | (Raise e, h') => (Raise e, h')
  end.
Proof.
  intro Hread. unfold run_cycle. rewrite Hread.
  unfold bind at 1, get_self at 1. unfold bind at 1.
  destruct (add_data _ _ h) as [[info|e] h']; reflexivity.
Qed.

(** C7, as the specification states it, fails: a cycle that decodes a reading
    does not always publish it, and a full queue does not always give
    [Queue.Full]. When the only entry of the history is older than the window
    the guard of [add_data] raises 'No data remains in history.' before the
    publication: with a full queue that is the error of the cycle, and with
    room in the queue nothing is put into it. *)
Lemma guard_comes_before_publication :
  Decoder.read_dht22_single (Decoder.Capture 1 Fixtures.good_frame) =
    Ok (Decoder.Reading (inject_Z 524 / 10) (inject_Z 336 / 10)) /\
  Queue.full (queue Fixtures.stale_jammed_heap) = true /\
  fst (run_cycle (Decoder.Capture 1 Fixtures.good_frame) 1000 1000
         Fixtures.stale_jammed_heap) = Raise ValueError_no_data_remains /\
  fst (run_cycle (Decoder.Capture 1 Fixtures.good_frame) 1000 1000
         Fixtures.stale_jammed_heap) <> Raise Queue_Full /\
  Queue.full (queue Fixtures.sparse_heap) = false /\
  fst (run_cycle (Decoder.Capture 1 Fixtures.good_frame) 1000 1000
         Fixtures.sparse_heap) = Raise ValueError_no_data_remains /\
  Queue.items (queue (snd (run_cycle (Decoder.Capture 1 Fixtures.good_frame) 1000 1000
                             Fixtures.sparse_heap))) = [].
Proof.
  split; [reflexivity|]. split; [reflexivity|]. split; [reflexivity|].
  split; [vm_compute; discriminate|]. split; [reflexivity|].
  split; reflexivity.
Qed.

(** C7, amended. In every polling cycle that decodes a reading: if the guard
    of [add_data] stops the call (the history is not empty and every entry is
    older than the window) the cycle raises 'No data remains in history.' and
    the queue is left as it was, full or not. Otherwise the sample is handed
    to the shared queue by a [put] that does not block: with room in the
    queue the sample becomes its last item and the cycle returns it; with a
    full queue [add_data] raises [Queue.Full], the queue is left as it was,
    and the exception leaves the cycle of [run], which does not catch it. *)
Theorem run_cycle_publishes_or_raises (cap : Decoder.capture)
    (time_now time_stamp_now : Q) (h : heap) (RH Tc : Q) :
  Decoder.read_dht22_single cap = Ok (Decoder.Reading RH Tc) ->
  let info := Sample.mk "sample" (pin (self h)) RH (Decoder.c2f Tc) time_now in
  let r := check_values
             (set_history (kept_history (self h) time_stamp_now) (self h)) info in
  let published := add_data time_stamp_now info h in
  let cycle := run_cycle cap time_now time_stamp_now h in
  (data_history (self h) <> [] /\
   Forall (fun d => time_history (self h) < time_stamp_now - Sample.time_stamp d)
          (data_history (self h)) ->
     fst published = Raise ValueError_no_data_remains /\
     fst cycle = Raise ValueError_no_data_remains /\
     queue (snd cycle) = queue h) /\
  (kept_history (self h) time_stamp_now <> [] \/ data_history (self h) = [] ->
     (Queue.full (queue h) = true ->
        fst published = Raise Queue_Full /\
        fst cycle = Raise Queue_Full /\
        queue (snd cycle) = queue h) /\
     (Queue.full (queue h) = false ->
        fst published = Ok r /\
        fst cycle = Ok (Some r) /\
        queue (snd cycle) =
          Queue.mk (Queue.maxsize (queue h)) (Queue.items (queue h) ++ [r]))).
Proof.
  intros Hread info r published cycle.
  subst cycle published. rewrite (run_cycle_reading _ _ _ _ _ _ Hread).
  fold info. rewrite (add_data_cases time_stamp_now info h). cbv zeta.
  split.
  - intro Hstop. apply guard_stops in Hstop. rewrite Hstop. cbn. auto.
  - intro Hguard. rewrite (guard_passes (self h) time_stamp_now Hguard). fold r.
    split; intro Hq.
    + rewrite (put_nowait_full r _ Hq). cbn. auto.
    + rewrite (put_nowait_room r _ Hq). cbn. auto.
Qed.

Lemma run_cycle_publishes_or_raises_witness :
  Decoder.read_dht22_single (Decoder.Capture 1 Fixtures.good_frame) =
    Ok (Decoder.Reading (inject_Z 524 / 10) (inject_Z 336 / 10)) /\
  ((kept_history (self Fixtures.jammed_heap) 1000 <> [] \/
    data_history (self Fixtures.jammed_heap) = []) /\
   Queue.full (queue Fixtures.jammed_heap) = true /\
   fst (run_cycle (Decoder.Capture 1 Fixtures.good_frame) 1000 1000
                  Fixtures.jammed_heap) = Raise Queue_Full) /\
  ((kept_history (self Fixtures.idle_heap) 1000 <> [] \/
    data_history (self Fixtures.idle_heap) = []) /\
   Queue.full (queue Fixtures.idle_heap) = false /\
   Queue.items (queue (snd (run_cycle (Decoder.Capture 1 Fixtures.good_frame)
                                      1000 1000 Fixtures.idle_heap))) =
   [Sample.mk "sample" 25 (inject_Z 524 / 10)
              (Decoder.c2f (inject_Z 336 / 10)) 1000]) /\
  ((data_history (self Fixtures.stale_jammed_heap) <> [] /\
    Forall (fun d => time_history (self Fixtures.stale_jammed_heap) <
                     1000 - Sample.time_stamp d)
           (data_history (self Fixtures.stale_jammed_heap))) /\
   fst (run_cycle (Decoder.Capture 1 Fixtures.good_frame) 1000 1000
                  Fixtures.stale_jammed_heap) = Raise ValueError_no_data_remains).
Proof.
  assert (Hread : Decoder.read_dht22_single (Decoder.Capture 1 Fixtures.good_frame) =
                  Ok (Decoder.Reading (inject_Z 524 / 10) (inject_Z 336 / 10)))
    by reflexivity.
  assert (Hjam : kept_history (self Fixtures.jammed_heap) 1000 <> [] \/
                 data_history (self Fixtures.jammed_heap) = [])
    by (right; reflexivity).
  assert (Hidle : kept_history (self Fixtures.idle_heap) 1000 <> [] \/
                  data_history (self Fixtures.idle_heap) = [])
    by (right; reflexivity).
  assert (Hstale : data_history (self Fixtures.stale_jammed_heap) <> [] /\
                   Forall (fun d => time_history (self Fixtures.stale_jammed_heap) <
                                    1000 - Sample.time_stamp d)
                          (data_history (self Fixtures.stale_jammed_heap))).
  { split; [discriminate|]. repeat constructor. }
  split; [exact Hread|]. split; [|split].
  - split; [exact Hjam|]. split; [reflexivity|].
    exact (proj1 (proj2 (proj1 (proj2
      (run_cycle_publishes_or_raises _ 1000 1000 Fixtures.jammed_heap _ _ Hread)
      Hjam) eq_refl))).
  - split; [exact Hidle|]. split; [reflexivity|].
    exact (f_equal Queue.items (proj2 (proj2 (proj2 (proj2
      (run_cycle_publishes_or_raises _ 1000 1000 Fixtures.idle_heap _ _ Hread)
      Hidle) eq_refl)))).
  - split; [exact Hstale|].
    exact (proj1 (proj2 (proj1
      (run_cycle_publishes_or_raises _ 1000 1000 Fixtures.stale_jammed_heap _ _ Hread)
      Hstale))).
Defined.

End HistoryFacts.

(** ** The coordinator *)

Module CollectFacts.
Import Collect.
Local Open Scope Q_scope.

Lemma count_channels_ready_acc (channels : list Channel.t) :
  forall n : nat,
    fold_left (fun count c => match Channel.data_latest c with
                              | Some _ => S count
                              | None => count
                              end) channels n =
    (n + ready_count channels)%nat.
Proof.
  unfold ready_count.
  induction channels as [|c channels IH]; intro n; cbn [fold_left filter].
  - cbn. lia.
  - rewrite IH. unfold has_latest at 2.
    destruct (Channel.data_latest c); cbn [length]; lia.
Qed.

(** The counter of the loop is the number of channels that have reported. *)
Lemma count_channels_ready_spec (channels : list Channel.t) :
  count_channels_ready channels = ready_count channels.
Proof. unfold count_channels_ready. now rewrite count_channels_ready_acc. Qed.

Lemma ready_count_le (channels : list Channel.t) :
  (ready_count channels <= length channels)%nat.
Proof.
  unfold ready_count. induction channels as [|c channels IH]; cbn; [lia|].
  destruct (has_latest c); cbn; lia.
Qed.

Lemma ready_count_all (channels : list Channel.t) :
  ready_count channels = length channels ->
  Forall (fun c => Channel.data_latest c <> None) channels.
Proof.
  unfold ready_count. induction channels as [|c channels IH]; intro H.
  - constructor.
  - cbn [filter] in H. pose proof (ready_count_le channels) as Hle.
    unfold ready_count in Hle. unfold has_latest at 1 in H.
    destruct (Channel.data_latest c) eqn:E; cbn [length] in H.
    + constructor; [congruence | apply IH; lia].
    + lia.
Qed.

Lemma Qltb_true (a b : Q) : Qltb a b = true <-> a < b.
Proof. exact (CheckFacts.Qgtb_true b a). Qed.

Lemma Qltb_false (a b : Q) : Qltb a b = false <-> b <= a.
Proof. exact (CheckFacts.Qgtb_false b a). Qed.

(** A turn that finds a channel missing before the time is up changes
    nothing but the observations. *)
Lemma wait_body_early (time_zero : Q) (p : poll) (st : wait_state) :
  all_channels_ok st = false ->
  wait_body time_zero p st =
  mkWait (count_channels_ready (channels_seen p) =? length (channels_seen p))%nat
         (clock_after p - time_zero) (count_channels_ready (channels_seen p))
         (channels_seen p).
Proof.
  intro Hok. unfold wait_body. rewrite Hok.
  now destruct (count_channels_ready (channels_seen p) =? length (channels_seen p))%nat.
Qed.

(** The loop turns through the early observations and stops at the first
    one that finds every channel ready or the time used up. *)
Lemma wait_loop_stops (time_zero : Q) (last : poll) (rest early : list poll) :
  forall st : wait_state,
    all_channels_ok st = false ->
    time_elapsed st < time_wait_max ->
    Forall (fun p => clock_after p - time_zero < time_wait_max /\
                     count_channels_ready (channels_seen p) <> length (channels_seen p))
           early ->
    count_channels_ready (channels_seen last) = length (channels_seen last) \/
    time_wait_max <= clock_after last - time_zero ->
    wait_loop time_zero (early ++ last :: rest) st =
    Some (mkWait
            (count_channels_ready (channels_seen last) =? length (channels_seen last))%nat
            (clock_after last - time_zero) (count_channels_ready (channels_seen last))
            (channels_seen last)).
Proof.
  induction early as [|p early IH]; intros st Hok Hel Hearly Hlast.
  - cbn [app wait_loop].
    assert (Hc : Qltb (time_elapsed st) time_wait_max && negb (all_channels_ok st) = true)
      by (rewrite Hok; apply andb_true_iff; split; [now apply Qltb_true | reflexivity]).
    rewrite Hc, (wait_body_early _ _ _ Hok).
    destruct rest as [|q rest]; cbn [wait_loop time_elapsed all_channels_ok];
      (destruct Hlast as [Hall|Hlate];
       [ apply Nat.eqb_eq in Hall; rewrite Hall; cbn [negb];
         now rewrite andb_false_r
       | apply Qltb_false in Hlate; now rewrite Hlate ]).
  - inversion Hearly as [|? ? [Hp1 Hp2] Hearly']; subst.
    cbn [app wait_loop].
    assert (Hc : Qltb (time_elapsed st) time_wait_max && negb (all_channels_ok st) = true)
      by (rewrite Hok; apply andb_true_iff; split; [now apply Qltb_true | reflexivity]).
    rewrite Hc, (wait_body_early _ _ _ Hok). apply IH; cbn; try assumption.
    now apply Nat.eqb_neq.
Qed.

(** When the loop ends with [all_channels_ok] set, every channel it saw last
    had reported. *)
Lemma wait_loop_ok (time_zero : Q) (polls : list poll) :
  forall st st' : wait_state,
    (all_channels_ok st = true ->
     Forall (fun c => Channel.data_latest c <> None) (channels st)) ->
    wait_loop time_zero polls st = Some st' ->
    all_channels_ok st' = true ->
    Forall (fun c => Channel.data_latest c <> None) (channels st').
Proof.
  induction polls as [|p polls IH]; intros st st' Hinv Hloop Hok'.
  - cbn [wait_loop] in Hloop.
    destruct (Qltb (time_elapsed st) time_wait_max && negb (all_channels_ok st));
      [discriminate|]. injection Hloop as <-. auto.
  - cbn [wait_loop] in Hloop.
    destruct (Qltb (time_elapsed st) time_wait_max && negb (all_channels_ok st)) eqn:Ec.
    + apply andb_true_iff in Ec. destruct Ec as [_ Ec]. apply negb_true_iff in Ec.
      apply (IH (wait_body time_zero p st) st'); try assumption.
      rewrite (wait_body_early _ _ _ Ec). cbn [all_channels_ok channels]. intro H.
      apply Nat.eqb_eq in H. rewrite count_channels_ready_spec in H.
      now apply ready_count_all.
    + injection Hloop as <-. auto.
Qed.

(** C6. Let the waiting loop see, turn after turn, some channel still
    without a sample while the time is not up, and then a turn [last]. If at
    that turn the 30 seconds are used up and only k of the N channels have a
    latest sample, k < N, the start fails with 'Only k channels ready (out of
    N) after waiting 30 seconds.', and [stop] has been called on each of the N
    channels before the exception leaves. If at that turn all N channels have
    a latest sample the start goes on. And whatever the observations are, the
    start goes on only when every channel has a latest sample. *)
Theorem wait_for_channels_ready_or_raise (channels0 : list Channel.t) (time_zero : Q)
    (early rest : list poll) (last : poll) :
  Forall (fun p => clock_after p - time_zero < time_wait_max /\
                   count_channels_ready (channels_seen p) <> length (channels_seen p))
         early ->
  let k := ready_count (channels_seen last) in
  let N := length (channels_seen last) in
  let outcome := wait_for_channels channels0 time_zero (early ++ last :: rest) in
  ((k < N)%nat -> time_wait_max <= clock_after last - time_zero ->
     outcome = Some (Raise (ValueError_channels_not_ready k N 30),
                     stop_all_channels (channels_seen last)) /\
     length (stop_all_channels (channels_seen last)) = N /\
     Forall (fun c => Channel._keep_running c = false)
            (stop_all_channels (channels_seen last))) /\
  (k = N -> outcome = Some (Ok tt, channels_seen last)) /\
  (forall (polls : list poll) (chs : list Channel.t),
     wait_for_channels channels0 time_zero polls = Some (Ok tt, chs) ->
     Forall (fun c => Channel.data_latest c <> None) chs).
Proof.
  intros Hearly k N outcome.
  assert (Hrun : count_channels_ready (channels_seen last) = N \/
                 time_wait_max <= clock_after last - time_zero ->
                 wait_loop time_zero (early ++ last :: rest) (mkWait false 0 0 channels0) =
                 Some (mkWait (k =? N)%nat (clock_after last - time_zero) k
                              (channels_seen last))).
  { intro H. unfold k. rewrite <- count_channels_ready_spec.
    apply wait_loop_stops; [reflexivity | reflexivity | exact Hearly | exact H]. }
  split; [|split].
  - intros Hk Hlate. split; [|split].
    + unfold outcome, wait_for_channels. rewrite (Hrun (or_intror Hlate)).
      cbn [all_channels_ok count_ready channels].
      assert (Hne : (k =? N)%nat = false) by (apply Nat.eqb_neq; lia).
      rewrite Hne. reflexivity.
    + unfold stop_all_channels. apply length_map.
    + unfold stop_all_channels. apply Forall_map, Forall_forall. reflexivity.
  - intro Hk. unfold outcome, wait_for_channels.
    assert (Hcount : count_channels_ready (channels_seen last) = N)
      by (rewrite count_channels_ready_spec; exact Hk).
    rewrite (Hrun (or_introl Hcount)). cbn [all_channels_ok channels].
    apply Nat.eqb_eq in Hk. rewrite Hk. reflexivity.
  - intros polls chs H. unfold wait_for_channels in H.
    destruct (wait_loop time_zero polls (mkWait false 0 0 channels0)) as [st'|] eqn:E;
      [|discriminate].
    destruct (all_channels_ok st') eqn:Eok; cbn [negb] in H; [|discriminate].
    injection H as <-.
    apply (wait_loop_ok time_zero polls (mkWait false 0 0 channels0) st');
      [discriminate | exact E | exact Eok].
Qed.

Lemma wait_for_channels_ready_or_raise_witness :
  Forall (fun p => clock_after p - 0 < time_wait_max /\
                   count_channels_ready (channels_seen p) <> length (channels_seen p))
         [Collect.mkPoll [Fixtures.reporting 4; Fixtures.silent 17; Fixtures.silent 18] 12] /\
  (ready_count Fixtures.two_of_three < length Fixtures.two_of_three)%nat /\
  time_wait_max <= 31 - 0 /\
  wait_for_channels Fixtures.fresh_channels 0 Fixtures.slow_start =
    Some (Raise (ValueError_channels_not_ready 2 3 30),
          stop_all_channels Fixtures.two_of_three).
Proof.
  assert (Hearly :
    Forall (fun p => clock_after p - 0 < time_wait_max /\
                     count_channels_ready (channels_seen p) <> length (channels_seen p))
      [Collect.mkPoll [Fixtures.reporting 4; Fixtures.silent 17; Fixtures.silent 18] 12]).
  { constructor; [|constructor]. split; [reflexivity | vm_compute; lia]. }
  assert (Hk : (ready_count Fixtures.two_of_three < length Fixtures.two_of_three)%nat)
    by (vm_compute; lia).
  assert (Hlate : time_wait_max <= 31 - 0) by (vm_compute; discriminate).
  split; [exact Hearly|]. split; [exact Hk|]. split; [exact Hlate|].
  exact (proj1 (proj1
    (wait_for_channels_ready_or_raise Fixtures.fresh_channels 0 _ []
       (Collect.mkPoll Fixtures.two_of_three 31) Hearly) Hk Hlate)).
Defined.

(** The draining loop hands over the items of the queue in their order. *)
Lemma drain_items_app (items : list Sample.t) :
  forall data_collected : list Sample.t,
    drain_items items data_collected = data_collected ++ items.
Proof.
  induction items as [|info items IH]; intro data_collected; cbn [drain_items].
  - now rewrite app_nil_r.
  - now rewrite IH, <- app_assoc.
Qed.

(** One turn of the draining loop, in terms of [Queue.empty] and [Queue.get]. *)
Lemma drain_items_turn (queue : Queue.t) (data_collected : list Sample.t) :
  drain_items (Queue.items queue) data_collected =
  if Queue.empty queue then data_collected
  else match Queue.get queue with
       | Some (info, queue') =>
           drain_items (Queue.items queue') (data_collected ++ [info])
       | None => data_collected
       end.
Proof.
  unfold Queue.empty, Queue.qsize, Queue.get.
  destruct (Queue.items queue) as [|info rest]; reflexivity.
Qed.

Lemma drain_all (queue : Queue.t) :
  drain queue = (Queue.items queue, Queue.mk (Queue.maxsize queue) []).
Proof. unfold drain. now rewrite drain_items_app. Qed.

Lemma earliest_is_first (others : list Sample.t) :
  forall m : Q,
    (forall d : Sample.t, In d others -> m <= Sample.time_stamp d) ->
    fold_left (fun m info => Qmin m (Sample.time_stamp info)) others m == m.
Proof.
  induction others as [|x others IH]; intros m Hm; cbn [fold_left].
  - reflexivity.
  - assert (Hx : Qmin m (Sample.time_stamp x) == m)
      by (apply Q.min_l, Hm; now left).
    rewrite IH; [exact Hx|].
    intros d Hd. rewrite Hx. apply Hm. now right.
Qed.

(** C8, as the specification states it, fails: the file is named after the
    first sample taken from the queue, which need not carry the earliest
    time stamp. With the sample stamped 1000 s queued in front of the one
    stamped 999 s, the batch goes to the file of 16-16-40, not to the file
    of its earliest time stamp, 16-16-39. *)
Lemma batch_not_named_after_earliest :
  fst (collect_pass Fixtures.strftime_two "data" Fixtures.raced_queue) =
    Some ("data/data-1969-12-31 16-16-40.yml"%string,
          [Fixtures.stamped_later; Fixtures.stamped_earlier]) /\
  earliest_time_stamp Fixtures.stamped_later [Fixtures.stamped_earlier] == 999 /\
  ~ (exists data_collected : list Sample.t,
       fst (collect_pass Fixtures.strftime_two "data" Fixtures.raced_queue) =
       Some (os_path_join "data"
               ("data-" ++
                reformat_timestamp Fixtures.strftime_two
                  (earliest_time_stamp Fixtures.stamped_later [Fixtures.stamped_earlier])
                  (Some "%Y-%m-%d %H-%M-%S"%string) ++ ".yml")%string,
             data_collected)).
Proof.
  split; [reflexivity|]. split; [reflexivity|].
  intros (data_collected & H). vm_compute in H. discriminate H.
Qed.

(** C8, amended. Every batch that is not empty is written by one call of
    [io.write] that gets all the samples drained in this pass, in the order
    of the queue, which is left empty. The file is
    [data-YYYY-MM-DD HH-MM-SS.yml] in the data directory, where the date is
    the time stamp of the first sample drained, in the time of Los Angeles;
    that is the earliest time stamp of the batch when no later sample of the
    queue carries an earlier one. *)
Theorem collect_pass_one_file (strftime_LAX : Q -> string -> string)
    (path_data : string) (queue : Queue.t) (info0 : Sample.t) (others : list Sample.t) :
  Queue.items queue = info0 :: others ->
  collect_pass strftime_LAX path_data queue =
    (Some (os_path_join path_data
             ("data-" ++ strftime_LAX (Sample.time_stamp info0) "%Y-%m-%d %H-%M-%S" ++
              ".yml")%string,
           info0 :: others),
     Queue.mk (Queue.maxsize queue) []) /\
  ((forall d : Sample.t, In d others ->
      Sample.time_stamp info0 <= Sample.time_stamp d) ->
   earliest_time_stamp info0 others == Sample.time_stamp info0).
Proof.
  intro Hitems. split.
  - unfold collect_pass. rewrite drain_all, Hitems. reflexivity.
  - apply earliest_is_first.
Qed.

Lemma collect_pass_one_file_witness :
  Queue.items Fixtures.raced_queue = [Fixtures.stamped_later; Fixtures.stamped_earlier] /\
  collect_pass Fixtures.strftime_two "data" Fixtures.raced_queue =
    (Some ("data/data-1969-12-31 16-16-40.yml"%string,
           [Fixtures.stamped_later; Fixtures.stamped_earlier]),
     Queue.mk 100 []).
Proof.
  split; [reflexivity|].
  exact (proj1 (collect_pass_one_file Fixtures.strftime_two "data" Fixtures.raced_queue
                  Fixtures.stamped_later [Fixtures.stamped_earlier] eq_refl)).
Defined.

End CollectFacts.

(** ** More on the decoder *)

Module WireFacts.
Import Decoder Wire.

Lemma be_value_acc (bits : list bool) :
  forall acc : Z,
    fold_left (fun a b => 2 * a + Z.b2z b) bits acc =
    acc * 2 ^ Z.of_nat (length bits) + be_value bits.
Proof.
  unfold be_value.
  induction bits as [|b bits IH]; intro acc.
  - cbn. lia.
  - cbn [fold_left length]. rewrite IH, (IH (2 * 0 + Z.b2z b)).
    rewrite Nat2Z.inj_succ, Z.pow_succ_r by lia. ring.
Qed.

Lemma be_value_snoc (bits : list bool) (b : bool) :
  be_value (bits ++ [b]) = 2 * be_value bits + Z.b2z b.
Proof. unfold be_value. rewrite fold_left_app. reflexivity. Qed.

Lemma be_value_range (bits : list bool) :
  0 <= be_value bits < 2 ^ Z.of_nat (length bits).
Proof.
  induction bits as [|b bits IH] using rev_ind.
  - cbn. lia.
  - rewrite be_value_snoc, length_app. cbn [length].
    replace (Z.of_nat (length bits + 1)) with (Z.succ (Z.of_nat (length bits))) by lia.
    rewrite Z.pow_succ_r by lia. destruct b; cbn [Z.b2z]; lia.
Qed.

Lemma length_bits_of (width : nat) :
  forall v : Z, length (bits_of width v) = width.
Proof.
  induction width as [|w IH]; intro v; cbn [bits_of].
  - reflexivity.
  - rewrite length_app, IH. cbn. lia.
Qed.

(** Reading back the bits of a value gives the value modulo the width. *)
Lemma be_value_bits_of (width : nat) :
  forall v : Z, be_value (bits_of width v) = v mod 2 ^ Z.of_nat width.
Proof.
  induction width as [|w IH]; intro v; cbn [bits_of].
  - cbn. now rewrite Z.mod_1_r.
  - rewrite be_value_snoc, IH, Nat2Z.inj_succ, Z.pow_succ_r by lia.
    rewrite Z.rem_mul_r by lia. rewrite (Zmod_odd v).
    destruct (Z.odd v); cbn [Z.b2z]; lia.
Qed.

Lemma frame_byte_range (k : nat) (bits : list bool) :
  0 <= frame_byte k bits <= 255.
Proof.
  unfold frame_byte.
  pose proof (be_value_range (firstn 8 (skipn (8 * k) bits))) as H.
  assert (Hlen : (length (firstn 8 (skipn (8 * k) bits)) <= 8)%nat)
    by (rewrite length_firstn; lia).
  assert (Hpow : 2 ^ Z.of_nat (length (firstn 8 (skipn (8 * k) bits))) <= 2 ^ 8)
    by (apply Z.pow_le_mono_r; lia).
  change (2 ^ 8) with 256 in Hpow. lia.
Qed.

Ltac explode8 l H :=
  do 8 (destruct l as [|? l]; [discriminate H|]);
  destruct l; [clear H | discriminate H].

(** The five groups of eight bits of a frame made of five blocks. *)
Lemma blocks_of_frame (l0 l1 l2 l3 l4 : list bool) :
  length l0 = 8%nat -> length l1 = 8%nat -> length l2 = 8%nat ->
  length l3 = 8%nat -> length l4 = 8%nat ->
  let frame := l0 ++ l1 ++ l2 ++ l3 ++ l4 in
  firstn 8 (skipn (8 * 0) frame) = l0 /\
  firstn 8 (skipn (8 * 1) frame) = l1 /\
  firstn 8 (skipn (8 * 2) frame) = l2 /\
  firstn 8 (skipn (8 * 3) frame) = l3 /\
  firstn 8 (skipn (8 * 4) frame) = l4.
Proof.
  intros H0 H1 H2 H3 H4.
  explode8 l0 H0. explode8 l1 H1. explode8 l2 H2. explode8 l3 H3. explode8 l4 H4.
  cbn. repeat split; reflexivity.
Qed.

Lemma frame_bytes_of_frame (b1 b2 b3 b4 b5 : Z) :
  let frame := frame_of_bytes b1 b2 b3 b4 b5 in
  frame_byte 0 frame = b1 mod 256 /\
  frame_byte 1 frame = b2 mod 256 /\
  frame_byte 2 frame = b3 mod 256 /\
  frame_byte 3 frame = b4 mod 256 /\
  frame_byte 4 frame = b5 mod 256.
Proof.
  cbv zeta. unfold frame_of_bytes, frame_byte, byte_bits.
  destruct (blocks_of_frame (bits_of 8 b1) (bits_of 8 b2) (bits_of 8 b3)
              (bits_of 8 b4) (bits_of 8 b5))
    as (E0 & E1 & E2 & E3 & E4); try apply length_bits_of.
  cbv zeta in E0, E1, E2, E3, E4. rewrite E0, E1, E2, E3, E4.
  repeat split; apply (be_value_bits_of 8).
Qed.

Lemma length_frame_of_bytes (b1 b2 b3 b4 b5 : Z) :
  length (frame_of_bytes b1 b2 b3 b4 b5) = 40%nat.
Proof.
  unfold frame_of_bytes, byte_bits. rewrite !length_app, !length_bits_of. reflexivity.
Qed.

(** [bits_to_bytes] on a frame that carries five values: each one comes back
    modulo 256. *)
Lemma bits_to_bytes_of_frame (b1 b2 b3 b4 b5 : Z) :
  bits_to_bytes (frame_of_bytes b1 b2 b3 b4 b5) =
  Ok (b1 mod 256, b2 mod 256, b3 mod 256, b4 mod 256,
      compute_checksum (b1 mod 256) (b2 mod 256) (b3 mod 256) (b4 mod 256)
                       (b5 mod 256)).
Proof.
  rewrite (DecoderFacts.bits_to_bytes_frame _ (length_frame_of_bytes b1 b2 b3 b4 b5)).
  destruct (frame_bytes_of_frame b1 b2 b3 b4 b5) as (E1 & E2 & E3 & E4 & E5).
  cbv zeta in E1, E2, E3, E4, E5. now rewrite E1, E2, E3, E4, E5.
Qed.

Lemma land_255 (x : Z) : Z.land x 255 = x mod 256.
Proof. change 255 with (Z.ones 8). now rewrite Z.land_ones by lia. Qed.

(** X1. The checksum test passes for exactly one fifth byte, the sum of the
    four data bytes modulo 256; a fifth value outside 0..255 never passes. *)
Theorem compute_checksum_mod_256 (b1 b2 b3 b4 b5 : Z) :
  (compute_checksum b1 b2 b3 b4 b5 = true <-> b5 = (b1 + b2 + b3 + b4) mod 256) /\
  (compute_checksum b1 b2 b3 b4 b5 = true -> 0 <= b5 <= 255).
Proof.
  assert (H : compute_checksum b1 b2 b3 b4 b5 = true <->
              b5 = (b1 + b2 + b3 + b4) mod 256).
  { rewrite DecoderFacts.compute_checksum_true, land_255. split; congruence. }
  split; [exact H|]. intro Hc. apply H in Hc.
  pose proof (Z.mod_pos_bound (b1 + b2 + b3 + b4) 256). lia.
Qed.

Lemma compute_checksum_mod_256_witness :
  compute_checksum 2 12 1 80 95 = true /\ 0 <= 95 <= 255.
Proof.
  split; [reflexivity|].
  apply (proj2 (compute_checksum_mod_256 2 12 1 80 95)). reflexivity.
Defined.

(** X2. On 40 bits [bits_to_bytes] does not raise, and each of the four
    bytes it returns lies between 0 and 255. *)
Theorem bits_to_bytes_byte_range (bits : list bool) :
  length bits = 40%nat ->
  exists (b1 b2 b3 b4 : Z) (ok : bool),
    bits_to_bytes bits = Ok (b1, b2, b3, b4, ok) /\
    0 <= b1 <= 255 /\ 0 <= b2 <= 255 /\ 0 <= b3 <= 255 /\ 0 <= b4 <= 255.
Proof.
  intro Hlen. rewrite (DecoderFacts.bits_to_bytes_frame bits Hlen).
  do 5 eexists. split; [reflexivity|].
  repeat split; apply frame_byte_range.
Qed.

Lemma bits_to_bytes_byte_range_witness :
  length Fixtures.spec_frame = 40%nat /\
  exists (b1 b2 b3 b4 : Z) (ok : bool),
    bits_to_bytes Fixtures.spec_frame = Ok (b1, b2, b3, b4, ok) /\
    0 <= b1 <= 255 /\ 0 <= b2 <= 255 /\ 0 <= b3 <= 255 /\ 0 <= b4 <= 255.
Proof.
  split; [reflexivity|].
  apply (bits_to_bytes_byte_range Fixtures.spec_frame). reflexivity.
Defined.

(** X3. Round trip: five bytes sent most significant bit first are read back
    by [bits_to_bytes] as the same four data bytes, with the flag telling
    whether the fifth is the sum of the others modulo 256. *)
Theorem bits_to_bytes_round_trip (b1 b2 b3 b4 b5 : Z) :
  0 <= b1 <= 255 -> 0 <= b2 <= 255 -> 0 <= b3 <= 255 -> 0 <= b4 <= 255 ->
  0 <= b5 <= 255 ->
  bits_to_bytes (frame_of_bytes b1 b2 b3 b4 b5) =
  Ok (b1, b2, b3, b4, b5 =? checksum_byte b1 b2 b3 b4).
Proof.
  intros H1 H2 H3 H4 H5.
  rewrite bits_to_bytes_of_frame, !Z.mod_small by lia.
  unfold compute_checksum, checksum_byte. rewrite land_255, (Z.eqb_sym b5).
  now destruct ((b1 + b2 + b3 + b4) mod 256 =? b5).
Qed.

Lemma bits_to_bytes_round_trip_witness :
  (0 <= 2 <= 255 /\ 0 <= 12 <= 255 /\ 0 <= 1 <= 255 /\ 0 <= 80 <= 255 /\
   0 <= 126 <= 255) /\
  bits_to_bytes (frame_of_bytes 2 12 1 80 126) = Ok (2, 12, 1, 80, false).
Proof.
  split; [lia|].
  apply (bits_to_bytes_round_trip 2 12 1 80 126); lia.
Defined.

(** X4. Every frame that carries four data bytes and their checksum is
    accepted after a start marker of 1, with humidity (256*b1 + b2)/10 and
    temperature (256*b3 + b4)/10: each tenth from 0 to 6553.5 can be read. *)
Theorem read_frame_with_checksum (b1 b2 b3 b4 : Z) :
  0 <= b1 <= 255 -> 0 <= b2 <= 255 -> 0 <= b3 <= 255 -> 0 <= b4 <= 255 ->
  read_dht22_single
    (Capture 1 (frame_of_bytes b1 b2 b3 b4 (checksum_byte b1 b2 b3 b4))) =
  Ok (Reading (inject_Z (256 * b1 + b2) / 10) (inject_Z (256 * b3 + b4) / 10)).
Proof.
  intros H1 H2 H3 H4.
  assert (H5 : 0 <= checksum_byte b1 b2 b3 b4 <= 255).
  { unfold checksum_byte. pose proof (Z.mod_pos_bound (b1 + b2 + b3 + b4) 256). lia. }
  unfold read_dht22_single. simpl negb. cbv iota.
  rewrite length_frame_of_bytes. simpl Nat.eqb. cbv iota.
  rewrite bits_to_bytes_of_frame, !Z.mod_small by lia.
  assert (Hck : compute_checksum b1 b2 b3 b4 (checksum_byte b1 b2 b3 b4) = true)
    by (apply DecoderFacts.compute_checksum_true; unfold checksum_byte;
        apply land_255).
  rewrite Hck.
  rewrite !Z.shiftl_mul_pow2 by lia. change (2 ^ 8) with 256.
  now rewrite (Z.mul_comm b1), (Z.mul_comm b3).
Qed.

Lemma read_frame_with_checksum_witness :
  (0 <= 2 <= 255 /\ 0 <= 12 <= 255 /\ 0 <= 1 <= 255 /\ 0 <= 80 <= 255) /\
  read_dht22_single (Capture 1 (frame_of_bytes 2 12 1 80 (checksum_byte 2 12 1 80))) =
  Ok (Reading (inject_Z (256 * 2 + 12) / 10) (inject_Z (256 * 1 + 80) / 10)).
Proof.
  split; [lia|].
  apply (read_frame_with_checksum 2 12 1 80); lia.
Defined.

(** On bits the decoder always answers. *)
Lemma read_dht22_single_answers (cap : capture) :
  exists r : reading, read_dht22_single cap = Ok r.
Proof.
  destruct cap as [msg|first bits]; cbn [read_dht22_single].
  - eexists; reflexivity.
  - destruct (negb (first =? 1)); [eexists; reflexivity|].
    destruct (Nat.eqb_spec (length bits) 40) as [Hlen|Hlen];
      [|eexists; reflexivity].
    rewrite (DecoderFacts.bits_to_bytes_frame bits Hlen).
    destruct (compute_checksum _ _ _ _ _); eexists; reflexivity.
Qed.

Lemma is_bit_cases (b : Z) : RawDecoder.is_bit b = true -> b = 0 \/ b = 1.
Proof. unfold RawDecoder.is_bit. lia. Qed.

Lemma str_int_bit (b : Z) :
  RawDecoder.is_bit b = true -> RawDecoder.str_int b = str_bit (RawDecoder.to_bit b).
Proof. intro H. destruct (is_bit_cases b H) as [-> | ->]; reflexivity. Qed.

Lemma items_str_bits (items : list Z) :
  forallb RawDecoder.is_bit items = true ->
  RawDecoder.items_str items = bits_str (map RawDecoder.to_bit items).
Proof.
  unfold RawDecoder.items_str, bits_str. generalize EmptyString.
  induction items as [|b items IH]; intros s H; cbn [fold_left map].
  - reflexivity.
  - cbn [forallb] in H. apply andb_prop in H. destruct H as [Hb H].
    rewrite (str_int_bit b Hb). now apply IH.
Qed.

Lemma forallb_slice (f : Z -> bool) (items : list Z) (i j : nat) :
  forallb f items = true -> forallb f (slice items i j) = true.
Proof.
  intro H. unfold slice.
  rewrite <- (firstn_skipn i items), forallb_app in H.
  apply andb_prop in H. destruct H as [_ H].
  rewrite <- (firstn_skipn (j - i) (skipn i items)), forallb_app in H.
  apply andb_prop in H. tauto.
Qed.

Lemma map_slice (items : list Z) (i j : nat) :
  map RawDecoder.to_bit (slice items i j) = slice (map RawDecoder.to_bit items) i j.
Proof. unfold slice. now rewrite <- firstn_map, <- skipn_map. Qed.

Lemma string_app_nil_r (s : string) : (s ++ EmptyString)%string = s.
Proof. induction s as [|c s IH]; cbn; [reflexivity | now rewrite IH]. Qed.

Lemma string_app_assoc (s1 s2 s3 : string) :
  ((s1 ++ s2) ++ s3)%string = (s1 ++ s2 ++ s3)%string.
Proof. induction s1 as [|c s1 IH]; cbn; [reflexivity | now rewrite IH]. Qed.

Lemma bits_str_prefix (bits : list bool) :
  forall s : string,
    fold_left (fun s b => (s ++ str_bit b)%string) bits s =
    (s ++ bits_str bits)%string.
Proof.
  unfold bits_str.
  induction bits as [|b bits IH]; intro s; cbn [fold_left].
  - now rewrite string_app_nil_r.
  - rewrite IH, (IH (EmptyString ++ str_bit b)%string). cbn [append].
    apply string_app_assoc.
Qed.

Lemma items_str_prefix (items : list Z) :
  forall s : string,
    fold_left (fun s b => (s ++ RawDecoder.str_int b)%string) items s =
    (s ++ RawDecoder.items_str items)%string.
Proof.
  unfold RawDecoder.items_str.
  induction items as [|b items IH]; intro s; cbn [fold_left].
  - now rewrite string_app_nil_r.
  - rewrite IH, (IH (EmptyString ++ RawDecoder.str_int b)%string). cbn [append].
    apply string_app_assoc.
Qed.

Lemma items_str_app (l1 l2 : list Z) :
  RawDecoder.items_str (l1 ++ l2) =
  (RawDecoder.items_str l1 ++ RawDecoder.items_str l2)%string.
Proof.
  unfold RawDecoder.items_str at 1. rewrite fold_left_app.
  fold (RawDecoder.items_str l1). apply items_str_prefix.
Qed.

Lemma items_str_cons (b : Z) (l : list Z) :
  RawDecoder.items_str (b :: l) =
  (RawDecoder.str_int b ++ RawDecoder.items_str l)%string.
Proof.
  unfold RawDecoder.items_str at 1. cbn [fold_left]. rewrite items_str_prefix.
  reflexivity.
Qed.

(** A string built from bits carries no sign. *)
Lemma np_int2_unsigned (bits : list bool) :
  RawDecoder.np_int2 (bits_str bits) = np_int2 (bits_str bits).
Proof.
  destruct bits as [|b bits]; [reflexivity|].
  unfold bits_str. cbn [fold_left]. rewrite bits_str_prefix.
  destruct b; reflexivity.
Qed.

Lemma raw_slice_bits (items : list Z) (i j : nat) :
  forallb RawDecoder.is_bit items = true ->
  RawDecoder.np_int2 (RawDecoder.items_str (slice items i j)) =
  np_int2 (bits_str (slice (map RawDecoder.to_bit items) i j)).
Proof.
  intro H. rewrite (items_str_bits _ (forallb_slice _ items i j H)), map_slice.
  apply np_int2_unsigned.
Qed.

Lemma raw_bits_to_bytes_bits (items : list Z) :
  forallb RawDecoder.is_bit items = true ->
  RawDecoder.bits_to_bytes items = bits_to_bytes (map RawDecoder.to_bit items).
Proof.
  intro H. unfold RawDecoder.bits_to_bytes, bits_to_bytes.
  rewrite length_map, !(raw_slice_bits items _ _ H). reflexivity.
Qed.

Lemma raw_read_bits (cap : RawDecoder.capture) :
  RawDecoder.all_bits cap = true ->
  RawDecoder.read_dht22_single cap = read_dht22_single (RawDecoder.to_capture cap).
Proof.
  destruct cap as [msg|first items]; intro H; [reflexivity|].
  cbn [RawDecoder.all_bits] in H.
  cbn [RawDecoder.read_dht22_single RawDecoder.to_capture read_dht22_single].
  now rewrite length_map, (raw_bits_to_bytes_bits items H).
Qed.

Lemma np_int2_error (s : string) (e : exn) :
  np_int2 s = Raise e -> e = ValueError_invalid_literal s.
Proof.
  unfold np_int2. destruct s as [|c s]; [congruence|].
  destruct (int2_digits (String c s) 0); congruence.
Qed.

Lemma raw_np_int2_cases (s : string) :
  RawDecoder.np_int2 s = np_int2 s \/
  exists rest : string,
    s = String "-" rest /\
    RawDecoder.np_int2 s = match np_int2 rest with
                           | Ok v => Ok (- v)
                           | Raise _ => Raise (ValueError_invalid_literal s)
                           end.
Proof.
  destruct s as [|c rest]; [now left|].
  destruct c as [[] [] [] [] [] [] [] []]; try (now left).
  right. exists rest. split; reflexivity.
Qed.

Lemma raw_np_int2_error (s : string) (e : exn) :
  RawDecoder.np_int2 s = Raise e -> e = ValueError_invalid_literal s.
Proof.
  intro H.
  destruct (raw_np_int2_cases s) as [E | (rest & _ & E)]; rewrite E in H.
  - now apply np_int2_error.
  - destruct (np_int2 rest); congruence.
Qed.

(** A character other than 0 and 1 anywhere in the string makes [int(s, 2)]
    fail. *)
Lemma np_int2_bad (s1 s2 : string) (c : ascii) :
  c <> "0"%char -> c <> "1"%char ->
  exists e : exn, np_int2 (s1 ++ String c s2) = Raise e.
Proof.
  intros H0 H1. unfold np_int2.
  destruct (s1 ++ String c s2)%string as [|c' s'] eqn:E; [eexists; reflexivity|].
  rewrite <- E, DecoderFacts.int2_digits_app.
  destruct (int2_digits s1 0) as [v|]; [|eexists; reflexivity].
  cbn [int2_digits].
  apply Ascii.eqb_neq in H0. apply Ascii.eqb_neq in H1. rewrite H0, H1.
  eexists; reflexivity.
Qed.

Lemma raw_np_int2_bad (s1 s2 : string) (c : ascii) :
  c <> "0"%char -> c <> "1"%char -> c <> "-"%char ->
  exists e : exn, RawDecoder.np_int2 (s1 ++ String c s2) = Raise e.
Proof.
  intros H0 H1 Hm.
  destruct (raw_np_int2_cases (s1 ++ String c s2)) as [E | (rest & Hs & E)];
    rewrite E.
  - now apply np_int2_bad.
  - destruct s1 as [|c1 s1]; cbn [append] in Hs; injection Hs as Hc Hrest.
    + congruence.
    + subst rest. destruct (np_int2_bad s1 s2 c H0 H1) as (e & ->).
      eexists; reflexivity.
Qed.

(** The decimal numeral of 2..9 is one character, and not a binary digit. *)
Lemma str_int_digit (b : Z) :
  2 <= b <= 9 ->
  exists c : ascii,
    RawDecoder.str_int b = String c EmptyString /\
    c <> "0"%char /\ c <> "1"%char /\ c <> "-"%char.
Proof.
  intro H.
  assert (Hb : b = 2 \/ b = 3 \/ b = 4 \/ b = 5 \/ b = 6 \/ b = 7 \/ b = 8 \/ b = 9)
    by lia.
  repeat destruct Hb as [-> | Hb]; try subst b;
    eexists; (split; [reflexivity|]); repeat split; discriminate.
Qed.

Lemma raw_group_bad (group : list Z) (b : Z) :
  In b group -> 2 <= b <= 9 ->
  exists e : exn, RawDecoder.np_int2 (RawDecoder.items_str group) = Raise e.
Proof.
  intros Hin Hb. apply in_split in Hin. destruct Hin as (l1 & l2 & ->).
  destruct (str_int_digit b Hb) as (c & Hc & H0 & H1 & Hm).
  rewrite items_str_app, items_str_cons, Hc. cbn [append].
  now apply raw_np_int2_bad.
Qed.

(** An item of a frame of 40 lies in one of the five groups of eight. *)
Lemma in_frame_group (items : list Z) (b : Z) :
  length items = 40%nat -> In b items ->
  In b (slice items 0 8) \/ In b (slice items 8 16) \/ In b (slice items 16 24) \/
  In b (slice items 24 32) \/ In b (slice items 32 40).
Proof.
  intros Hlen Hin. unfold slice. cbn [Nat.sub skipn].
  rewrite <- (firstn_skipn 8 items) in Hin. apply in_app_or in Hin.
  destruct Hin as [Hin|Hin]; [now left | right].
  rewrite <- (firstn_skipn 8 (skipn 8 items)), skipn_skipn in Hin.
  apply in_app_or in Hin. destruct Hin as [Hin|Hin]; [now left | right].
  rewrite <- (firstn_skipn 8 (skipn (8 + 8) items)), skipn_skipn in Hin.
  apply in_app_or in Hin. destruct Hin as [Hin|Hin]; [now left | right].
  rewrite <- (firstn_skipn 8 (skipn (8 + (8 + 8)) items)), skipn_skipn in Hin.
  apply in_app_or in Hin. destruct Hin as [Hin|Hin]; [now left | right].
  rewrite <- (firstn_skipn 8 (skipn (8 + (8 + (8 + 8))) items)), skipn_skipn in Hin.
  apply in_app_or in Hin. destruct Hin as [Hin|Hin]; [exact Hin|].
  rewrite skipn_all2 in Hin by (rewrite Hlen; cbn; lia). destruct Hin.
Qed.

Lemma raw_bits_to_bytes_bad (items : list Z) (b : Z) :
  length items = 40%nat -> In b items -> 2 <= b <= 9 ->
  exists e : exn, RawDecoder.bits_to_bytes items = Raise e.
Proof.
  intros Hlen Hin Hb.
  assert (Hgroup : exists i j e,
             RawDecoder.np_int2 (RawDecoder.items_str (slice items i j)) = Raise e /\
             ((i, j) = (0, 8) \/ (i, j) = (8, 16) \/ (i, j) = (16, 24) \/
              (i, j) = (24, 32) \/ (i, j) = (32, 40))%nat).
  { destruct (in_frame_group items b Hlen Hin) as [H|[H|[H|[H|H]]]];
      destruct (raw_group_bad _ b H Hb) as (e & He);
      do 3 eexists; (split; [exact He|]); tauto. }
  destruct Hgroup as (i & j & e & He & Hij).
  unfold RawDecoder.bits_to_bytes. rewrite Hlen. cbn [Nat.eqb negb].
  destruct (RawDecoder.np_int2 (RawDecoder.items_str (slice items 0 8))) eqn:E1;
    [|eexists; reflexivity].
  destruct (RawDecoder.np_int2 (RawDecoder.items_str (slice items 8 16))) eqn:E2;
    [|eexists; reflexivity].
  destruct (RawDecoder.np_int2 (RawDecoder.items_str (slice items 16 24))) eqn:E3;
    [|eexists; reflexivity].
  destruct (RawDecoder.np_int2 (RawDecoder.items_str (slice items 24 32))) eqn:E4;
    [|eexists; reflexivity].
  destruct (RawDecoder.np_int2 (RawDecoder.items_str (slice items 32 40))) eqn:E5;
    [|eexists; reflexivity].
  exfalso.
  destruct Hij as [H|[H|[H|[H|H]]]]; injection H as -> ->; congruence.
Qed.

Lemma raw_bits_to_bytes_error (items : list Z) (e : exn) :
  length items = 40%nat ->
  RawDecoder.bits_to_bytes items = Raise e ->
  exists s : string, e = ValueError_invalid_literal s.
Proof.
  intros Hlen. unfold RawDecoder.bits_to_bytes. rewrite Hlen. cbn [Nat.eqb negb].
  repeat match goal with
         | |- context [RawDecoder.np_int2 ?s] =>
             let E := fresh "E" in
             destruct (RawDecoder.np_int2 s) eqn:E;
             [|intro H; injection H as <-; eexists;
               exact (raw_np_int2_error _ _ E)]
         end.
  discriminate.
Qed.

(** X5. [bits_to_bytes] hands the items of a capture to [str] and
    [int(..., 2)] without a test. On a capture whose items are all 0 or 1,
    [read_dht22_single] does not raise: it answers as the decoder on bits
    does, and every failure comes back as a message. When it does raise, the
    start marker is 1, there are 40 items, one of them is not a bit, and the
    exception is the [ValueError] of [int]; the length error of
    [bits_to_bytes] is out of reach. And it does raise on every capture with
    the start marker 1 and 40 items of which one is a digit from 2 to 9. *)
Theorem read_dht22_single_never_raises (cap : RawDecoder.capture) :
  (RawDecoder.all_bits cap = true ->
   RawDecoder.read_dht22_single cap = read_dht22_single (RawDecoder.to_capture cap) /\
   exists r : reading, RawDecoder.read_dht22_single cap = Ok r) /\
  (forall e : exn,
     RawDecoder.read_dht22_single cap = Raise e ->
     exists (items : list Z) (s : string),
       cap = RawDecoder.Capture 1 items /\ length items = 40%nat /\
       forallb RawDecoder.is_bit items = false /\
       e = ValueError_invalid_literal s) /\
  (forall (items : list Z) (b : Z),
     cap = RawDecoder.Capture 1 items -> length items = 40%nat ->
     In b items -> 2 <= b <= 9 ->
     exists s : string,
       RawDecoder.read_dht22_single cap = Raise (ValueError_invalid_literal s)).
Proof.
  split; [|split].
  - intro H. split; [now apply raw_read_bits|].
    rewrite (raw_read_bits cap H). apply read_dht22_single_answers.
  - intros e H.
    destruct cap as [msg|first items]; [discriminate|].
    destruct (forallb RawDecoder.is_bit items) eqn:Hbits.
    + rewrite (raw_read_bits (RawDecoder.Capture first items) Hbits) in H.
      destruct (read_dht22_single_answers
                  (RawDecoder.to_capture (RawDecoder.Capture first items)))
        as (r & Hr).
      congruence.
    + cbn [RawDecoder.read_dht22_single] in H.
      destruct (Z.eqb_spec first 1) as [->|Hne]; cbn [negb] in H; [|discriminate].
      destruct (Nat.eqb_spec (length items) 40) as [Hlen|Hlen]; [|discriminate].
      destruct (RawDecoder.bits_to_bytes items) as [[[[[b1 b2] b3] b4] ok]|e'] eqn:E.
      * destruct ok; discriminate.
      * injection H as <-.
        destruct (raw_bits_to_bytes_error items e' Hlen E) as (s & ->).
        exists items, s. repeat split; assumption.
  - intros items b -> Hlen Hin Hb.
    cbn [RawDecoder.read_dht22_single]. rewrite Hlen. cbn [Z.eqb Pos.eqb Nat.eqb negb].
    destruct (raw_bits_to_bytes_bad items b Hlen Hin Hb) as (e & He).
    destruct (raw_bits_to_bytes_error items e Hlen He) as (s & ->).
    rewrite He. exists s. reflexivity.
Qed.

Lemma read_dht22_single_never_raises_witness :
  (RawDecoder.all_bits (RawDecoder.Capture 1 Fixtures.good_items) = true /\
   exists r : reading,
     RawDecoder.read_dht22_single (RawDecoder.Capture 1 Fixtures.good_items) = Ok r) /\
  (RawDecoder.read_dht22_single (RawDecoder.Capture 1 Fixtures.noisy_items) =
   Raise (ValueError_invalid_literal "00000210") /\
   exists (items : list Z) (s : string),
     RawDecoder.Capture 1 Fixtures.noisy_items = RawDecoder.Capture 1 items /\
     length items = 40%nat /\
     forallb RawDecoder.is_bit items = false /\
     ValueError_invalid_literal "00000210" = ValueError_invalid_literal s) /\
  (length Fixtures.noisy_items = 40%nat /\ In 2 Fixtures.noisy_items /\ 2 <= 2 <= 9 /\
   exists s : string,
     RawDecoder.read_dht22_single (RawDecoder.Capture 1 Fixtures.noisy_items) =
     Raise (ValueError_invalid_literal s)).
Proof.
  split; [|split].
  - split; [reflexivity|].
    exact (proj2 (proj1 (read_dht22_single_never_raises
                           (RawDecoder.Capture 1 Fixtures.good_items)) eq_refl)).
  - split; [reflexivity|].
    exact (proj1 (proj2 (read_dht22_single_never_raises
                           (RawDecoder.Capture 1 Fixtures.noisy_items)))
                 (ValueError_invalid_literal "00000210") eq_refl).
  - assert (Hin : In 2 Fixtures.noisy_items) by (cbn; tauto).
    assert (Hb : 2 <= 2 <= 9) by lia.
    split; [reflexivity|]. split; [exact Hin|]. split; [exact Hb|].
    exact (proj2 (proj2 (read_dht22_single_never_raises
                           (RawDecoder.Capture 1 Fixtures.noisy_items)))
                 Fixtures.noisy_items 2 eq_refl eq_refl Hin Hb).
Defined.

(** X6. A reading is returned only for a start marker of 1 and 40 bits whose
    checksum matches, and its values are tenths between 0 and 6553.5: the
    temperature is never negative, so that its Fahrenheit value is never
    below 32. *)
Theorem reading_inversion (cap : capture) (RH Tc : Q) :
  read_dht22_single cap = Ok (Reading RH Tc) ->
  exists bits : list bool,
    cap = Capture 1 bits /\ length bits = 40%nat /\
    (frame_byte 0 bits + frame_byte 1 bits + frame_byte 2 bits + frame_byte 3 bits)
      mod 256 = frame_byte 4 bits /\
    RH = (inject_Z (Z.shiftl (frame_byte 0 bits) 8 + frame_byte 1 bits) / 10)%Q /\
    Tc = (inject_Z (Z.shiftl (frame_byte 2 bits) 8 + frame_byte 3 bits) / 10)%Q /\
    (0 <= RH <= 6553.5)%Q /\ (0 <= Tc <= 6553.5)%Q /\ (32 <= c2f Tc)%Q.
Proof.
  intro H. destruct cap as [msg|first bits]; cbn [read_dht22_single] in H;
    [discriminate|].
  destruct (Z.eqb_spec first 1) as [->|Hne]; cbn [negb] in H; [|discriminate].
  destruct (Nat.eqb_spec (length bits) 40) as [Hlen|Hlen]; [|discriminate].
  rewrite (DecoderFacts.bits_to_bytes_frame bits Hlen) in H.
  destruct (compute_checksum _ _ _ _ _) eqn:Eck; [|discriminate].
  apply DecoderFacts.compute_checksum_true in Eck. rewrite land_255 in Eck.
  assert (Hq : forall h l : Z, 0 <= h <= 255 -> 0 <= l <= 255 ->
             (0 <= inject_Z (Z.shiftl h 8 + l) / 10 <= 6553.5)%Q).
  { intros h l Hh Hl. rewrite Z.shiftl_mul_pow2 by lia. change (2 ^ 8) with 256.
    assert (H0 : (inject_Z 0 <= inject_Z (h * 256 + l))%Q)
      by (rewrite <- Zle_Qle; lia).
    assert (H1 : (inject_Z (h * 256 + l) <= inject_Z 65535)%Q)
      by (rewrite <- Zle_Qle; lia).
    change (inject_Z 0) with 0%Q in H0. change (inject_Z 65535) with 65535%Q in H1.
    split.
    - apply Qle_shift_div_l; [reflexivity|]. lra.
    - apply Qle_shift_div_r; [reflexivity|]. lra. }
  pose proof (Hq _ _ (frame_byte_range 0 bits) (frame_byte_range 1 bits)) as HRH.
  pose proof (Hq _ _ (frame_byte_range 2 bits) (frame_byte_range 3 bits)) as HTc.
  set (h := (inject_Z (Z.shiftl (frame_byte 0 bits) 8 + frame_byte 1 bits) / 10)%Q)
    in *.
  set (t := (inject_Z (Z.shiftl (frame_byte 2 bits) 8 + frame_byte 3 bits) / 10)%Q)
    in *.
  assert (ERH : RH = h) by congruence.
  assert (ETc : Tc = t) by congruence.
  subst RH Tc.
  exists bits. split; [reflexivity|]. split; [exact Hlen|]. split; [exact Eck|].
  split; [reflexivity|]. split; [reflexivity|].
  split; [exact HRH|]. split; [exact HTc|].
  destruct HTc as [HTc _]. clearbody t. unfold c2f.
  assert (E : (t * 9 / 5 == t * (9 # 5))%Q) by field. rewrite E. lra.
Qed.

Lemma reading_inversion_witness :
  read_dht22_single (Capture 1 Fixtures.good_frame) =
    Ok (Reading (inject_Z 524 / 10) (inject_Z 336 / 10)) /\
  exists bits : list bool,
    Capture 1 Fixtures.good_frame = Capture 1 bits /\ length bits = 40%nat.
Proof.
  split; [reflexivity|].
  destruct (reading_inversion (Capture 1 Fixtures.good_frame)
              (inject_Z 524 / 10) (inject_Z 336 / 10) eq_refl)
    as (bits & Hcap & Hlen & _).
  exists bits. split; assumption.
Defined.

End WireFacts.

(** ** More on the outlier check *)

Module CheckMore.
Import Channel.
Local Open Scope Q_scope.

(** X7. With a threshold that is not negative, the value that comes out of
    [_check_data_value] is never further from the median of the history than
    the threshold. *)
Theorem checked_value_near_median (self : t) (samples : list Q) (value m : Q) :
  np_median samples = Some m ->
  0 <= check_threshold self ->
  Qabs (_check_data_value self samples value - m) <= check_threshold self.
Proof.
  intros Hm Ht. unfold _check_data_value. rewrite Hm. cbv zeta.
  destruct (Qgtb (Qabs (value - m)) (check_threshold self)) eqn:E.
  - apply Qabs_case; intro H; lra.
  - now apply CheckFacts.Qgtb_false.
Qed.

Lemma checked_value_near_median_witness :
  np_median (map Sample.RH (data_history Fixtures.busy_channel)) = Some ((49 + 50) / 2) /\
  0 <= check_threshold Fixtures.busy_channel /\
  Qabs (_check_data_value Fixtures.busy_channel
          (map Sample.RH (data_history Fixtures.busy_channel)) 75.5 - (49 + 50) / 2)
    <= check_threshold Fixtures.busy_channel.
Proof.
  assert (Hm : np_median (map Sample.RH (data_history Fixtures.busy_channel)) =
               Some ((49 + 50) / 2)) by reflexivity.
  assert (Ht : 0 <= check_threshold Fixtures.busy_channel)
    by (vm_compute; discriminate).
  split; [exact Hm|]. split; [exact Ht|].
  exact (checked_value_near_median Fixtures.busy_channel _ 75.5 _ Hm Ht).
Defined.

Lemma check_data_value_idempotent (self : t) (samples : list Q) (value : Q) :
  0 <= check_threshold self ->
  _check_data_value self samples (_check_data_value self samples value) =
  _check_data_value self samples value.
Proof.
  intro Ht. unfold _check_data_value.
  destruct (np_median samples) as [m|]; [|reflexivity]. cbv zeta.
  destruct (Qgtb (Qabs (value - m)) (check_threshold self)) eqn:E.
  - assert (H : Qgtb (Qabs (m - m)) (check_threshold self) = false).
    { apply CheckFacts.Qgtb_false. apply Qabs_case; intro H; lra. }
    now rewrite H.
  - now rewrite E.
Qed.

(** X8. With a threshold that is not negative, checking a sample that has
    already been checked against the same history changes nothing. *)
Theorem check_values_idempotent (self : t) (info_new : Sample.t) :
  0 <= check_threshold self ->
  check_values self (check_values self info_new) = check_values self info_new.
Proof.
  intro Ht. unfold check_values.
  destruct (num_min_history self <=? length (data_history self))%nat; [|reflexivity].
  cbn [Sample.set_Tf Sample.set_RH Sample.RH Sample.Tf Sample.type Sample.pin
       Sample.time_stamp].
  now rewrite !check_data_value_idempotent.
Qed.

Lemma check_values_idempotent_witness :
  0 <= check_threshold Fixtures.busy_channel /\
  check_values Fixtures.busy_channel
    (check_values Fixtures.busy_channel Fixtures.spike) =
  check_values Fixtures.busy_channel Fixtures.spike.
Proof.
  assert (Ht : 0 <= check_threshold Fixtures.busy_channel)
    by (vm_compute; discriminate).
  split; [exact Ht|].
  exact (check_values_idempotent Fixtures.busy_channel Fixtures.spike Ht).
Defined.

Lemma np_sort_strongly_sorted (a : list Q) : StronglySorted Qle (np_sort a).
Proof.
  apply Sorted_StronglySorted.
  - exact Qle_trans.
  - apply Sorted_LocallySorted_iff, CheckFacts.np_sort_sorted.
Qed.

Lemma filter_length_perm (f : Q -> bool) (l l' : list Q) :
  Permutation l l' -> length (filter f l) = length (filter f l').
Proof.
  induction 1 as [|x l l' _ IH|x y l|l l' l'' _ IH1 _ IH2]; cbn [filter].
  - reflexivity.
  - destruct (f x); cbn [length]; now rewrite IH.
  - destruct (f x), (f y); reflexivity.
  - now rewrite IH1.
Qed.

Lemma filter_length_all (f : Q -> bool) (l : list Q) :
  Forall (fun x => f x = true) l -> length (filter f l) = length l.
Proof.
  induction 1 as [|x l Hx _ IH]; cbn [filter length].
  - reflexivity.
  - rewrite Hx. cbn [length]. now rewrite IH.
Qed.

Lemma filter_length_le (f : Q -> bool) (l : list Q) :
  (length (filter f l) <= length l)%nat.
Proof.
  induction l as [|x l IH]; cbn [filter length]; [lia|].
  destruct (f x); cbn [length]; lia.
Qed.

(** In a sorted list an earlier position holds a smaller value. *)
Lemma sorted_nth_le (s : list Q) :
  StronglySorted Qle s ->
  forall i j : nat, (i <= j)%nat -> (j < length s)%nat -> nth i s 0 <= nth j s 0.
Proof.
  induction 1 as [|a s _ IH Ha]; intros i j Hij Hj.
  - cbn in Hj. lia.
  - destruct j as [|j].
    + assert (i = O) by lia. subst i. apply Qle_refl.
    + cbn [length] in Hj. destruct i as [|i]; cbn [nth].
      * rewrite Forall_forall in Ha. apply Ha, nth_In. lia.
      * apply IH; lia.
Qed.

Lemma sorted_count_le (s : list Q) (v : Q) :
  StronglySorted Qle s ->
  forall k : nat, (k < length s)%nat -> nth k s 0 <= v ->
  (k + 1 <= length (filter (fun x => Qle_bool x v) s))%nat.
Proof.
  induction 1 as [|a s Hs IH Ha]; intros k Hk Hv.
  - cbn in Hk. lia.
  - cbn [length] in Hk. cbn [filter].
    assert (Hav : Qle_bool a v = true).
    { apply Qle_bool_iff. apply Qle_trans with (nth k (a :: s) 0); [|exact Hv].
      apply (sorted_nth_le (a :: s) (SSorted_cons a Hs Ha) 0 k); cbn [length]; lia. }
    rewrite Hav. cbn [length]. destruct k as [|k]; [lia|].
    cbn [nth] in Hv. specialize (IH k ltac:(lia) Hv). lia.
Qed.

Lemma sorted_count_ge (s : list Q) (v : Q) :
  StronglySorted Qle s ->
  forall k : nat, (k < length s)%nat -> v <= nth k s 0 ->
  (length s - k <= length (filter (fun x => Qle_bool v x) s))%nat.
Proof.
  induction 1 as [|a s Hs IH Ha]; intros k Hk Hv.
  - cbn in Hk. lia.
  - cbn [length] in Hk. destruct k as [|k].
    + cbn [nth] in Hv. rewrite filter_length_all; [lia|].
      constructor; [now apply Qle_bool_iff|].
      apply Forall_impl with (2 := Ha). intros x Hx.
      apply Qle_bool_iff. now apply Qle_trans with a.
    + cbn [nth] in Hv. specialize (IH k ltac:(lia) Hv).
      cbn [filter length]. destruct (Qle_bool v a); cbn [length]; lia.
Qed.

Lemma nth_np_sort_in (a : list Q) (k : nat) :
  (k < length a)%nat -> In (nth k (np_sort a) 0) a.
Proof.
  intro Hk. apply (Permutation_in _ (CheckFacts.np_sort_perm a)).
  apply nth_In. now rewrite (Permutation_length (CheckFacts.np_sort_perm a)).
Qed.

Lemma mean_between (x y : Q) : x <= y -> x <= (x + y) / 2 /\ (x + y) / 2 <= y.
Proof.
  intro H. assert (E : (x + y) / 2 == (x + y) * (1 # 2)) by field.
  rewrite E. split; lra.
Qed.

(** X9. The value that [_check_data_value] takes from [np.median] is a
    median of the history: at least half of the samples are not above it, at
    least half are not below it, and it lies between two of the samples. *)
Theorem np_median_is_median (a : list Q) (m : Q) :
  np_median a = Some m ->
  (length a <= 2 * length (filter (fun x => Qle_bool x m) a))%nat /\
  (length a <= 2 * length (filter (fun x => Qle_bool m x) a))%nat /\
  exists lo hi : Q, In lo a /\ In hi a /\ lo <= m <= hi.
Proof.
  intro Hm.
  pose proof (np_sort_strongly_sorted a) as Hs.
  pose proof (Permutation_length (CheckFacts.np_sort_perm a)) as Hlen.
  rewrite <- (filter_length_perm _ _ _ (CheckFacts.np_sort_perm a)).
  rewrite <- (filter_length_perm (fun x => Qle_bool m x) _ _
                (CheckFacts.np_sort_perm a)).
  unfold np_median in Hm. cbv zeta in Hm.
  destruct (length a) as [|n'] eqn:En; [discriminate|].
  remember (S n') as n eqn:Hn.
  destruct (Nat.even n) eqn:Ev.
  - apply Nat.even_spec in Ev. destruct Ev as [k Hk].
    assert (Hidx : (n / 2 = k)%nat)
      by (rewrite Hk, Nat.mul_comm; apply Nat.div_mul; lia).
    assert (Hk1 : (1 <= k)%nat) by lia.
    rewrite Hidx in Hm. injection Hm as Hm.
    assert (Hord : nth (k - 1) (np_sort a) 0 <= nth k (np_sort a) 0)
      by (apply sorted_nth_le; [exact Hs | lia | lia]).
    destruct (mean_between _ _ Hord) as [Hlo Hhi]. rewrite Hm in Hlo, Hhi.
    pose proof (sorted_count_le (np_sort a) m Hs (k - 1) ltac:(lia) Hlo) as Hle.
    pose proof (sorted_count_ge (np_sort a) m Hs k ltac:(lia) Hhi) as Hge.
    split; [lia|]. split; [lia|].
    exists (nth (k - 1) (np_sort a) 0), (nth k (np_sort a) 0).
    split; [apply nth_np_sort_in; lia|]. split; [apply nth_np_sort_in; lia|].
    split; assumption.
  - assert (Hodd : Nat.odd n = true) by (rewrite <- Nat.negb_even, Ev; reflexivity).
    apply Nat.odd_spec in Hodd. destruct Hodd as [k Hk].
    assert (Hidx : (n / 2 = k)%nat)
      by (symmetry; apply (Nat.div_unique n 2 k 1); lia).
    rewrite Hidx in Hm. injection Hm as Hm.
    assert (Hmm : nth k (np_sort a) 0 <= m) by (rewrite Hm; apply Qle_refl).
    assert (Hmm' : m <= nth k (np_sort a) 0) by (rewrite Hm; apply Qle_refl).
    pose proof (sorted_count_le (np_sort a) m Hs k ltac:(lia) Hmm) as Hle.
    pose proof (sorted_count_ge (np_sort a) m Hs k ltac:(lia) Hmm') as Hge.
    split; [lia|]. split; [lia|].
    exists m, m. rewrite <- Hm at 1 2.
    split; [apply nth_np_sort_in; lia|]. split; [apply nth_np_sort_in; lia|].
    split; apply Qle_refl.
Qed.

Lemma np_median_is_median_witness :
  np_median (map Sample.RH Fixtures.ten_samples) = Some ((49 + 50) / 2) /\
  (length (map Sample.RH Fixtures.ten_samples) <=
   2 * length (filter (fun x => Qle_bool x ((49 + 50) / 2))
                      (map Sample.RH Fixtures.ten_samples)))%nat.
Proof.
  split; [reflexivity|].
  exact (proj1 (np_median_is_median (map Sample.RH Fixtures.ten_samples)
                  ((49 + 50) / 2) eq_refl)).
Defined.

End CheckMore.

(** ** More on the history and the polling cycle *)

Module HistoryMore.
Import Channel.
Local Open Scope Q_scope.

Lemma filter_partition_length (f : Sample.t -> bool) (l : list Sample.t) :
  (length (filter (fun d => negb (f d)) l) + length (filter f l) = length l)%nat.
Proof.
  induction l as [|x l IH]; cbn [filter length]; [reflexivity|].
  destruct (f x); cbn [negb length]; lia.
Qed.

(** X10. [adjust_history] never raises ([list.remove] always finds its
    element), the two numbers it returns add up to the former length of the
    history, and it touches neither the latest sample nor the queue. *)
Theorem adjust_history_counts (now : Q) (h : heap) :
  exists num_remain num_removed : nat,
    fst (adjust_history now h) = Ok (num_remain, num_removed) /\
    (num_remain + num_removed = length (data_history (self h)))%nat /\
    length (data_history (self (snd (adjust_history now h)))) = num_remain /\
    data_latest (self (snd (adjust_history now h))) = data_latest (self h) /\
    queue (snd (adjust_history now h)) = queue h.
Proof.
  rewrite HistoryFacts.adjust_history_filter. cbn [fst snd self queue].
  exists (length (kept_history (self h) now)),
         (length (evicted_history (self h) now)).
  split; [reflexivity|]. split.
  - unfold kept_history, evicted_history. apply filter_partition_length.
  - repeat split.
Qed.

Lemma too_old_later (self : t) (now1 now2 : Q) (d : Sample.t) :
  now1 <= now2 -> too_old self now1 d = true -> too_old self now2 d = true.
Proof.
  intros Hle H. apply HistoryFacts.too_old_spec in H.
  apply HistoryFacts.too_old_spec. lra.
Qed.

Lemma filter_filter_weaker (f g : Sample.t -> bool) (l : list Sample.t) :
  (forall d, g d = true -> f d = true) ->
  filter g (filter f l) = filter g l.
Proof.
  intro Hfg. induction l as [|x l IH]; cbn [filter]; [reflexivity|].
  destruct (f x) eqn:Ef; cbn [filter].
  - now rewrite IH.
  - destruct (g x) eqn:Eg; [|exact IH]. apply Hfg in Eg. congruence.
Qed.

(** X11. Evicting when the clock reads [now1] and again when it reads
    [now2], not earlier, leaves the channel as one eviction at [now2] does;
    in particular a second eviction at the same clock value removes nothing. *)
Theorem adjust_history_twice (now1 now2 : Q) (h : heap) :
  now1 <= now2 ->
  snd (adjust_history now2 (snd (adjust_history now1 h))) =
    snd (adjust_history now2 h) /\
  (now1 == now2 ->
   fst (adjust_history now2 (snd (adjust_history now1 h))) =
     Ok (length (data_history (self (snd (adjust_history now1 h)))), O)).
Proof.
  intro Hle. rewrite !HistoryFacts.adjust_history_filter. cbn [fst snd self queue].
  assert (Hk : kept_history (set_history (kept_history (self h) now1) (self h)) now2 =
               kept_history (self h) now2).
  { unfold kept_history. cbn [data_history set_history].
    apply (filter_filter_weaker
             (fun d => negb (too_old (self h) now1 d))
             (fun d => negb (too_old (self h) now2 d))).
    intros d Hd. apply negb_true_iff in Hd. apply negb_true_iff.
    destruct (too_old (self h) now1 d) eqn:E; [|reflexivity].
    apply (too_old_later _ _ _ _ Hle) in E.
    unfold too_old in *. cbn [time_history set_history] in Hd. congruence. }
  split.
  - rewrite Hk. reflexivity.
  - intro Heq. rewrite Hk. do 2 f_equal.
    + cbn [data_history set_history]. unfold kept_history.
      f_equal. apply filter_ext. intro d. f_equal.
      unfold too_old, Qgtb. cbv zeta. f_equal.
      apply HistoryFacts.Qle_bool_compat; [now rewrite Heq | reflexivity].
    + unfold evicted_history. cbn [data_history set_history].
      unfold kept_history.
      assert (Hnone : forall l : list Sample.t,
                filter (too_old (set_history (filter
                          (fun d => negb (too_old (self h) now1 d))
                          (data_history (self h))) (self h)) now2)
                       (filter (fun d => negb (too_old (self h) now1 d)) l) = []).
      { induction l as [|x l IH]; cbn [filter]; [reflexivity|].
        destruct (too_old (self h) now1 x) eqn:E; cbn [negb filter]; [exact IH|].
        assert (E2 : too_old (set_history (filter
                          (fun d => negb (too_old (self h) now1 d))
                          (data_history (self h))) (self h)) now2 x = false).
        { rewrite <- E. unfold too_old, Qgtb. cbv zeta.
          cbn [time_history set_history]. f_equal.
          apply HistoryFacts.Qle_bool_compat; [now rewrite Heq | reflexivity]. }
        now rewrite E2. }
      now rewrite Hnone.
Qed.

Lemma adjust_history_twice_witness :
  900 <= 1000 /\
  snd (adjust_history 1000 (snd (adjust_history 900 Fixtures.mixed_heap))) =
  snd (adjust_history 1000 Fixtures.mixed_heap).
Proof.
  assert (Hle : 900 <= 1000) by (vm_compute; discriminate).
  split; [exact Hle|].
  exact (proj1 (adjust_history_twice 900 1000 Fixtures.mixed_heap Hle)).
Defined.

Lemma read_outcome (cap : Decoder.capture) :
  (exists msg, Decoder.read_dht22_single cap = Ok (Decoder.NoReading msg)) \/
  (exists RH Tc, Decoder.read_dht22_single cap = Ok (Decoder.Reading RH Tc)).
Proof.
  destruct cap as [msg|first bits]; cbn [Decoder.read_dht22_single].
  - left. eexists; reflexivity.
  - destruct (negb (first =? 1)%Z); [left; eexists; reflexivity|].
    destruct (Nat.eqb_spec (length bits) 40) as [Hlen|Hlen];
      [|left; eexists; reflexivity].
    rewrite (DecoderFacts.bits_to_bytes_frame bits Hlen).
    destruct (Decoder.compute_checksum _ _ _ _ _);
      [right; do 2 eexists; reflexivity | left; eexists; reflexivity].
Qed.

Lemma run_cycle_no_reading (cap : Decoder.capture) (time_now time_stamp_now : Q)
    (h : heap) (msg : Decoder.fail_msg) :
  Decoder.read_dht22_single cap = Ok (Decoder.NoReading msg) ->
  run_cycle cap time_now time_stamp_now h = (Ok None, h).
Proof. intro H. unfold run_cycle. now rewrite H. Qed.

(** What [add_data] leaves behind, in each of its three outcomes. *)
Lemma add_data_heap (now : Q) (info : Sample.t) (h : heap) :
  let kept := kept_history (self h) now in
  let r := check_values (set_history kept (self h)) info in
  snd (add_data now info h) = mkHeap (set_history kept (self h)) (queue h) \/
  snd (add_data now info h) =
    mkHeap (set_latest r (set_history (kept ++ [r]) (self h))) (queue h) \/
  (Queue.full (queue h) = false /\
   snd (add_data now info h) =
     mkHeap (set_latest r (set_history (kept ++ [r]) (self h)))
            (Queue.mk (Queue.maxsize (queue h)) (Queue.items (queue h) ++ [r]))).
Proof.
  cbv zeta. rewrite (HistoryFacts.add_data_cases now info h). cbv zeta.
  destruct ((length (kept_history (self h) now) =? 0)%nat &&
            (0 <? length (evicted_history (self h) now))%nat);
    [left; reflexivity|].
  destruct (Queue.full (queue h)) eqn:Efull.
  - rewrite (HistoryFacts.put_nowait_full _ _ Efull). right. left. reflexivity.
  - rewrite (HistoryFacts.put_nowait_room _ _ Efull). right. right.
    split; reflexivity.
Qed.

(** The heap after a cycle is the heap before it or a heap that [add_data]
    leaves. *)
Lemma run_cycle_heap (cap : Decoder.capture) (time_now time_stamp_now : Q) (h : heap) :
  snd (run_cycle cap time_now time_stamp_now h) = h \/
  exists info : Sample.t,
    snd (run_cycle cap time_now time_stamp_now h) = snd (add_data time_stamp_now info h).
Proof.
  destruct (read_outcome cap) as [(msg & H)|(RH & Tc & H)].
  - left. now rewrite (run_cycle_no_reading _ _ _ _ _ H).
  - right. rewrite (HistoryFacts.run_cycle_reading _ _ _ _ _ _ H).
    exists (Sample.mk "sample" (pin (self h)) RH (Decoder.c2f Tc) time_now).
    destruct (add_data _ _ h) as [[info|e] h']; reflexivity.
Qed.

(** X12. A polling cycle, however it ends, leaves the configuration of the
    channel, its running flag and the capacity of the queue as they were: in
    particular a channel that dies of an exception still says it is running. *)
Theorem run_cycle_keeps_configuration (cap : Decoder.capture)
    (time_now time_stamp_now : Q) (h : heap) :
  let h' := snd (run_cycle cap time_now time_stamp_now h) in
  pin (self h') = pin (self h) /\
  time_wait (self h') = time_wait (self h) /\
  time_history (self h') = time_history (self h) /\
  num_min_history (self h') = num_min_history (self h) /\
  check_threshold (self h') = check_threshold (self h) /\
  _keep_running (self h') = _keep_running (self h) /\
  Queue.maxsize (queue h') = Queue.maxsize (queue h).
Proof.
  cbv zeta.
  destruct (run_cycle_heap cap time_now time_stamp_now h) as [->|(info & ->)].
  - repeat split.
  - destruct (add_data_heap time_stamp_now info h) as [->|[->|[_ ->]]];
      repeat split.
Qed.

(** X13. A capture that does not decode to a reading (no answer, a start
    marker other than 1, a number of bits other than 40, a checksum that does
    not match) leaves the channel and the queue exactly as they were. *)
Theorem failed_read_changes_nothing (cap : Decoder.capture)
    (time_now time_stamp_now : Q) (h : heap) :
  (forall RH Tc : Q, Decoder.read_dht22_single cap <> Ok (Decoder.Reading RH Tc)) ->
  run_cycle cap time_now time_stamp_now h = (Ok None, h).
Proof.
  intro Hno. destruct (read_outcome cap) as [(msg & H)|(RH & Tc & H)].
  - now apply (run_cycle_no_reading _ _ _ _ msg).
  - exfalso. exact (Hno RH Tc H).
Qed.

Lemma failed_read_changes_nothing_witness :
  (forall RH Tc : Q,
     Decoder.read_dht22_single (Decoder.Capture 1 Fixtures.spec_frame) <>
     Ok (Decoder.Reading RH Tc)) /\
  run_cycle (Decoder.Capture 1 Fixtures.spec_frame) 1000 1000 Fixtures.sparse_heap =
    (Ok None, Fixtures.sparse_heap).
Proof.
  assert (Hno : forall RH Tc : Q,
            Decoder.read_dht22_single (Decoder.Capture 1 Fixtures.spec_frame) <>
            Ok (Decoder.Reading RH Tc))
    by (intros RH Tc H; vm_compute in H; discriminate H).
  split; [exact Hno|].
  exact (failed_read_changes_nothing _ 1000 1000 Fixtures.sparse_heap Hno).
Defined.

(** X14. Once a channel has a latest sample no polling cycle takes it away,
    whatever the cycle reads and however it ends: the number of channels that
    [collect_data] counts as ready never goes down. *)
Theorem run_cycle_keeps_latest (cap : Decoder.capture)
    (time_now time_stamp_now : Q) (h : heap) :
  data_latest (self h) <> None ->
  data_latest (self (snd (run_cycle cap time_now time_stamp_now h))) <> None.
Proof.
  intro Hl.
  destruct (run_cycle_heap cap time_now time_stamp_now h) as [->|(info & ->)].
  - exact Hl.
  - destruct (add_data_heap time_stamp_now info h) as [->|[->|[_ ->]]];
      cbn [self data_latest set_latest set_history]; [exact Hl | discriminate..].
Qed.

Lemma run_cycle_keeps_latest_witness :
  data_latest (self (mkHeap (Fixtures.reporting 4) (Fixtures.queue_of 100 []))) <> None /\
  data_latest
    (self (snd (run_cycle (Decoder.Capture 1 Fixtures.good_frame) 2000 2000
                  (mkHeap (Fixtures.reporting 4) (Fixtures.queue_of 100 []))))) <> None.
Proof.
  assert (Hl : data_latest (self (mkHeap (Fixtures.reporting 4)
                                         (Fixtures.queue_of 100 []))) <> None)
    by (cbn; discriminate).
  split; [exact Hl|].
  exact (run_cycle_keeps_latest _ 2000 2000 _ Hl).
Defined.

(** X15. A polling cycle leaves the queue as it was or adds one sample at its
    end, and it never fills a bounded queue beyond its capacity. *)
Theorem run_cycle_queue_bound (cap : Decoder.capture)
    (time_now time_stamp_now : Q) (h : heap) :
  let q := queue h in
  let q' := queue (snd (run_cycle cap time_now time_stamp_now h)) in
  (Queue.items q' = Queue.items q \/
   exists r : Sample.t, Queue.items q' = Queue.items q ++ [r]) /\
  ((0 < Queue.maxsize q)%nat -> (Queue.qsize q <= Queue.maxsize q)%nat ->
   (Queue.qsize q' <= Queue.maxsize q')%nat).
Proof.
  cbv zeta.
  destruct (run_cycle_heap cap time_now time_stamp_now h) as [->|(info & ->)].
  - split; [now left | auto].
  - destruct (add_data_heap time_stamp_now info h) as [->|[->|[Hroom ->]]];
      cbn [queue]; try (split; [now left | auto]).
    split; [right; eexists; reflexivity|].
    intros Hpos Hle. unfold Queue.qsize in *. cbn [Queue.items Queue.maxsize].
    rewrite length_app. cbn [length].
    unfold Queue.full, Queue.qsize in Hroom.
    apply andb_false_iff in Hroom. destruct Hroom as [Hroom|Hroom].
    + apply Nat.ltb_ge in Hroom. lia.
    + apply Nat.eqb_neq in Hroom. lia.
Qed.

Lemma run_cycle_queue_bound_witness :
  (0 < Queue.maxsize (queue Fixtures.jammed_heap))%nat /\
  (Queue.qsize (queue Fixtures.jammed_heap) <=
     Queue.maxsize (queue Fixtures.jammed_heap))%nat /\
  (Queue.qsize (queue (snd (run_cycle (Decoder.Capture 1 Fixtures.good_frame)
                              1000 1000 Fixtures.jammed_heap))) <=
   Queue.maxsize (queue (snd (run_cycle (Decoder.Capture 1 Fixtures.good_frame)
                                1000 1000 Fixtures.jammed_heap))))%nat.
Proof.
  assert (Hpos : (0 < Queue.maxsize (queue Fixtures.jammed_heap))%nat)
    by (vm_compute; lia).
  assert (Hle : (Queue.qsize (queue Fixtures.jammed_heap) <=
                   Queue.maxsize (queue Fixtures.jammed_heap))%nat)
    by (vm_compute; lia).
  split; [exact Hpos|]. split; [exact Hle|].
  exact (proj2 (run_cycle_queue_bound (Decoder.Capture 1 Fixtures.good_frame)
                  1000 1000 Fixtures.jammed_heap) Hpos Hle).
Defined.

Lemma check_values_empty_history (self : t) (info : Sample.t) :
  data_history self = [] -> check_values self info = info.
Proof.
  intro H. unfold check_values. rewrite H. cbn [length map].
  destruct (num_min_history self <=? 0)%nat; [|reflexivity].
  cbn. destruct info; reflexivity.
Qed.

(** An append to an empty history, with room in the queue. *)
Lemma add_data_first (now : Q) (info : Sample.t) (h : heap) :
  data_history (self h) = [] -> Queue.full (queue h) = false ->
  add_data now info h =
  (Ok info,
   mkHeap (set_latest info (set_history [info] (self h)))
          (Queue.mk (Queue.maxsize (queue h)) (Queue.items (queue h) ++ [info]))).
Proof.
  intros Hnil Hroom. rewrite (HistoryFacts.add_data_cases now info h). cbv zeta.
  assert (Hk : kept_history (self h) now = [])
    by (unfold kept_history; now rewrite Hnil).
  assert (He : evicted_history (self h) now = [])
    by (unfold evicted_history; now rewrite Hnil).
  rewrite Hk, He. cbn [length Nat.eqb Nat.ltb Nat.leb andb app].
  rewrite (check_values_empty_history (set_history [] (self h)) info eq_refl).
  now rewrite (HistoryFacts.put_nowait_room info _ Hroom).
Qed.

(** X16. The error 'No data remains in history.' does not repeat: it leaves
    the history empty, so that the next append, whenever it comes and
    whatever it brings, is accepted and becomes the only entry. *)
Theorem add_data_after_error (now now' : Q) (info info' : Sample.t) (h : heap) :
  fst (add_data now info h) = Raise ValueError_no_data_remains ->
  Queue.full (queue h) = false ->
  let h1 := snd (add_data now info h) in
  fst (add_data now' info' h1) = Ok info' /\
  data_history (self (snd (add_data now' info' h1))) = [info'] /\
  Queue.items (queue (snd (add_data now' info' h1))) = Queue.items (queue h) ++ [info'].
Proof.
  intros Hraise Hroom h1.
  assert (Hh1 : data_history (self h1) = [] /\ queue h1 = queue h).
  { subst h1. revert Hraise. rewrite (HistoryFacts.add_data_cases now info h).
    cbv zeta.
    destruct ((length (kept_history (self h) now) =? 0)%nat &&
              (0 <? length (evicted_history (self h) now))%nat) eqn:Eg.
    - intros _. apply andb_true_iff in Eg. destruct Eg as [Eg _].
      apply Nat.eqb_eq, length_zero_iff_nil in Eg. rewrite Eg. split; reflexivity.
    - rewrite (HistoryFacts.put_nowait_room _ _ Hroom). cbn. discriminate. }
  destruct Hh1 as [Hnil Hq].
  assert (Hroom1 : Queue.full (queue h1) = false) by now rewrite Hq.
  rewrite (add_data_first now' info' h1 Hnil Hroom1). cbn. rewrite Hq.
  repeat split.
Qed.

Lemma add_data_after_error_witness :
  fst (add_data 1000 Fixtures.new_sample Fixtures.sparse_heap) =
    Raise ValueError_no_data_remains /\
  Queue.full (queue Fixtures.sparse_heap) = false /\
  fst (add_data 1005 Fixtures.new_sample
         (snd (add_data 1000 Fixtures.new_sample Fixtures.sparse_heap))) =
    Ok Fixtures.new_sample.
Proof.
  split; [reflexivity|]. split; [reflexivity|].
  exact (proj1 (add_data_after_error 1000 1005 Fixtures.new_sample Fixtures.new_sample
                  Fixtures.sparse_heap eq_refl eq_refl)).
Defined.

(** X17. A pause kills the channel: when a channel with an empty history
    stores a reading stamped [t1] and the next reading arrives when the clock
    is more than [time_history] past [t1], the second cycle raises 'No data
    remains in history.', although both readings are good. *)
Theorem long_pause_raises (cap1 cap2 : Decoder.capture) (RH1 Tc1 RH2 Tc2 : Q)
    (t1 now1 t2 now2 : Q) (h : heap) :
  data_history (self h) = [] ->
  Queue.full (queue h) = false ->
  Decoder.read_dht22_single cap1 = Ok (Decoder.Reading RH1 Tc1) ->
  Decoder.read_dht22_single cap2 = Ok (Decoder.Reading RH2 Tc2) ->
  time_history (self h) < now2 - t1 ->
  fst (run_cycle cap1 t1 now1 h) =
    Ok (Some (Sample.mk "sample" (pin (self h)) RH1 (Decoder.c2f Tc1) t1)) /\
  fst (run_cycle cap2 t2 now2 (snd (run_cycle cap1 t1 now1 h))) =
    Raise ValueError_no_data_remains.
Proof.
  intros Hnil Hroom H1 H2 Hgap.
  rewrite (HistoryFacts.run_cycle_reading _ _ _ _ _ _ H1).
  rewrite (add_data_first now1 _ h Hnil Hroom). cbn [fst snd].
  split; [reflexivity|].
  rewrite (HistoryFacts.run_cycle_reading _ _ _ _ _ _ H2).
  rewrite HistoryFacts.add_data_cases. cbv zeta.
  set (s1 := Sample.mk "sample" (pin (self h)) RH1 (Decoder.c2f Tc1) t1).
  assert (Hold : too_old (set_latest s1 (set_history [s1] (self h))) now2 s1 = true).
  { apply HistoryFacts.too_old_spec. cbn. exact Hgap. }
  unfold kept_history, evicted_history.
  cbn [self data_history set_latest set_history filter].
  rewrite Hold. reflexivity.
Qed.

Lemma long_pause_raises_witness :
  data_history (self Fixtures.idle_heap) = [] /\
  Queue.full (queue Fixtures.idle_heap) = false /\
  time_history (self Fixtures.idle_heap) < 1000 - 0 /\
  fst (run_cycle (Decoder.Capture 1 Fixtures.good_frame) 1000 1000
         (snd (run_cycle (Decoder.Capture 1 Fixtures.good_frame) 0 0
                 Fixtures.idle_heap))) = Raise ValueError_no_data_remains.
Proof.
  assert (Hgap : time_history (self Fixtures.idle_heap) < 1000 - 0) by reflexivity.
  split; [reflexivity|]. split; [reflexivity|]. split; [exact Hgap|].
  exact (proj2 (long_pause_raises (Decoder.Capture 1 Fixtures.good_frame)
                  (Decoder.Capture 1 Fixtures.good_frame)
                  _ _ _ _ 0 0 1000 1000 Fixtures.idle_heap
                  eq_refl eq_refl eq_refl eq_refl Hgap)).
Defined.

Local Abbreviation chronological :=
  (StronglySorted (fun a b : Sample.t => Sample.time_stamp a <= Sample.time_stamp b)).

Lemma too_old_earlier (self : t) (now : Q) (x y : Sample.t) :
  Sample.time_stamp x <= Sample.time_stamp y ->
  too_old self now y = true -> too_old self now x = true.
Proof.
  intros Hle H. apply HistoryFacts.too_old_spec in H.
  apply HistoryFacts.too_old_spec. lra.
Qed.

Lemma filter_none (f : Sample.t -> bool) (l : list Sample.t) :
  Forall (fun d => f d = false) l -> filter f l = [].
Proof.
  induction 1 as [|x l Hx _ IH]; cbn [filter]; [reflexivity|]. now rewrite Hx.
Qed.

Lemma filter_all (f : Sample.t -> bool) (l : list Sample.t) :
  Forall (fun d => f d = true) l -> filter f l = l.
Proof.
  induction 1 as [|x l Hx _ IH]; cbn [filter]; [reflexivity|].
  now rewrite Hx, IH.
Qed.

(** In a history in the order of the time stamps the entries that are too
    old come first. *)
Lemma too_old_prefix (self : t) (now : Q) (l : list Sample.t) :
  chronological l ->
  filter (too_old self now) l = firstn (length (filter (too_old self now) l)) l /\
  filter (fun d => negb (too_old self now d)) l =
    skipn (length (filter (too_old self now) l)) l.
Proof.
  induction 1 as [|x l _ IH Hx]; [split; reflexivity|].
  cbn [filter]. destruct (too_old self now x) eqn:Ex; cbn [negb length firstn skipn].
  - destruct IH as [IH1 IH2]. split; [now rewrite <- IH1 | exact IH2].
  - assert (Hl : Forall (fun d => too_old self now d = false) l).
    { apply Forall_impl with (2 := Hx). intros y Hxy.
      destruct (too_old self now y) eqn:Ey; [|reflexivity].
      apply (too_old_earlier _ _ _ _ Hxy) in Ey. congruence. }
    rewrite (filter_none _ _ Hl). cbn [length firstn skipn]. split; [reflexivity|].
    f_equal. apply filter_all. apply Forall_impl with (2 := Hl).
    intros y Hy. now rewrite Hy.
Qed.

(** X18. When the history is in the order of the time stamps, the eviction
    takes away a front part of it: the [num_removed] oldest entries go and
    the rest stays. *)
Theorem eviction_removes_oldest (now : Q) (h : heap) :
  chronological (data_history (self h)) ->
  exists num_removed : nat,
    fst (adjust_history now h) =
      Ok ((length (data_history (self h)) - num_removed)%nat, num_removed) /\
    (num_removed <= length (data_history (self h)))%nat /\
    data_history (self (snd (adjust_history now h))) =
      skipn num_removed (data_history (self h)) /\
    Forall (fun d => time_history (self h) < now - Sample.time_stamp d)
           (firstn num_removed (data_history (self h))).
Proof.
  intro Hs. rewrite HistoryFacts.adjust_history_filter. cbn [fst snd self].
  destruct (too_old_prefix (self h) now _ Hs) as [Hfirst Hskip].
  pose proof (filter_partition_length (too_old (self h) now) (data_history (self h)))
    as Hlen.
  exists (length (evicted_history (self h) now)).
  unfold kept_history, evicted_history in *. cbn [data_history set_history].
  split; [do 2 f_equal; lia|]. split; [lia|]. split; [exact Hskip|].
  rewrite <- Hfirst. apply Forall_forall. intros d Hd.
  apply filter_In in Hd. now apply HistoryFacts.too_old_spec.
Qed.

Lemma eviction_removes_oldest_witness :
  chronological (data_history (self Fixtures.mixed_heap)) /\
  exists num_removed : nat,
    data_history (self (snd (adjust_history 1000 Fixtures.mixed_heap))) =
      skipn num_removed (data_history (self Fixtures.mixed_heap)).
Proof.
  assert (Hs : chronological (data_history (self Fixtures.mixed_heap))).
  { repeat constructor. vm_compute. discriminate. }
  split; [exact Hs|].
  destruct (eviction_removes_oldest 1000 Fixtures.mixed_heap Hs)
    as (k & _ & _ & Hk & _).
  exists k. exact Hk.
Defined.

Lemma chronological_filter (f : Sample.t -> bool) (l : list Sample.t) :
  chronological l -> chronological (filter f l).
Proof.
  induction 1 as [|x l _ IH Hx]; cbn [filter]; [constructor|].
  destruct (f x); [|exact IH]. constructor; [exact IH|].
  apply Forall_forall. intros y Hy. apply filter_In in Hy.
  rewrite Forall_forall in Hx. now apply Hx.
Qed.

Lemma chronological_snoc (l : list Sample.t) (r : Sample.t) :
  chronological l ->
  Forall (fun d => Sample.time_stamp d <= Sample.time_stamp r) l ->
  chronological (l ++ [r]).
Proof.
  induction 1 as [|x l _ IH Hx]; intro Hr; cbn [app].
  - repeat constructor.
  - inversion Hr as [|? ? Hxr Hlr]; subst. constructor; [now apply IH|].
    apply Forall_app. split; [exact Hx | now constructor].
Qed.

(** X19. When the history is in the order of the time stamps and the new
    sample is stamped no earlier than any entry, the history is in that
    order again after [add_data], however the call ends. *)
Theorem add_data_keeps_order (now : Q) (info : Sample.t) (h : heap) :
  chronological (data_history (self h)) ->
  Forall (fun d => Sample.time_stamp d <= Sample.time_stamp info)
         (data_history (self h)) ->
  chronological (data_history (self (snd (add_data now info h)))).
Proof.
  intros Hs Hall.
  assert (Hk : chronological (kept_history (self h) now))
    by (apply chronological_filter, Hs).
  assert (Hkr : chronological
                  (kept_history (self h) now ++
                   [check_values (set_history (kept_history (self h) now) (self h))
                                 info])).
  { apply chronological_snoc; [exact Hk|].
    rewrite CheckFacts.check_values_time_stamp.
    apply Forall_forall. intros d Hd. unfold kept_history in Hd.
    apply filter_In in Hd. rewrite Forall_forall in Hall. now apply Hall. }
  destruct (add_data_heap now info h) as [->|[->|[_ ->]]];
    cbn [self data_history set_latest set_history]; assumption.
Qed.

Lemma add_data_keeps_order_witness :
  chronological (data_history (self Fixtures.mixed_heap)) /\
  Forall (fun d => Sample.time_stamp d <= Sample.time_stamp Fixtures.new_sample)
         (data_history (self Fixtures.mixed_heap)) /\
  chronological
    (data_history (self (snd (add_data 1000 Fixtures.new_sample Fixtures.mixed_heap)))).
Proof.
  assert (Hs : chronological (data_history (self Fixtures.mixed_heap))).
  { repeat constructor. vm_compute. discriminate. }
  assert (Hall : Forall (fun d => Sample.time_stamp d <=
                                  Sample.time_stamp Fixtures.new_sample)
                        (data_history (self Fixtures.mixed_heap))).
  { repeat constructor; vm_compute; discriminate. }
  split; [exact Hs|]. split; [exact Hall|].
  exact (add_data_keeps_order 1000 Fixtures.new_sample Fixtures.mixed_heap Hs Hall).
Defined.

End HistoryMore.

(** ** More on the coordinator: files, LEDs and power *)

Module CollectMore.
Import Channel Collect Gpio.
Local Open Scope Q_scope.

Lemma collect_pass_empty (strftime_LAX : Q -> string -> string) (path_data : string)
    (q : Queue.t) :
  Queue.items q = [] ->
  collect_pass strftime_LAX path_data q = (None, Queue.mk (Queue.maxsize q) []).
Proof.
  intro H. unfold collect_pass. rewrite CollectFacts.drain_all, H. reflexivity.
Qed.

Lemma collect_pass_some (strftime_LAX : Q -> string -> string) (path_data : string)
    (q : Queue.t) :
  Queue.items q <> [] ->
  exists f : string,
    collect_pass strftime_LAX path_data q =
    (Some (f, Queue.items q), Queue.mk (Queue.maxsize q) []).
Proof.
  intro H. unfold collect_pass. rewrite CollectFacts.drain_all.
  destruct (Queue.items q) as [|info0 others]; [congruence|].
  eexists. reflexivity.
Qed.

Lemma put_each_items (infos : list Sample.t) :
  forall q : Queue.t,
    exists accepted : list Sample.t,
      Queue.items (Shared.put_each infos q) = Queue.items q ++ accepted /\
      Queue.maxsize (Shared.put_each infos q) = Queue.maxsize q /\
      incl accepted infos.
Proof.
  induction infos as [|info infos IH]; intro q; cbn [Shared.put_each].
  - exists []. rewrite app_nil_r. repeat split. apply incl_refl.
  - unfold Queue.put_nowait.
    destruct ((0 <? Queue.maxsize q)%nat && (Queue.qsize q =? Queue.maxsize q)%nat).
    + destruct (IH q) as (acc & Hi & Hm & Hincl).
      exists acc. repeat split; [exact Hi | exact Hm | now apply incl_tl].
    + destruct (IH (Queue.mk (Queue.maxsize q) (Queue.items q ++ [info])))
        as (acc & Hi & Hm & Hincl).
      cbn [Queue.items Queue.maxsize] in Hi, Hm.
      exists (info :: acc). rewrite Hi, <- app_assoc. repeat split; [exact Hm|].
      intros x [<-|Hx]; [now left | right; now apply Hincl].
Qed.

(** Everything the channels try to publish during a pass. *)
Local Abbreviation published arrivals :=
  (concat (map (fun a => Shared.before_empty a ++ Shared.before_get a) arrivals)).

(** With the channels running the loop still hands over, in their order, the
    items it finds, followed by publications made in the meantime. *)
Lemma shared_drain_shape (arrivals : list Shared.arrival) :
  forall (q : Queue.t) (data_collected : list Sample.t),
    exists (rest : list Sample.t) (q' : Queue.t),
      Shared.drain arrivals q data_collected =
        (data_collected ++ Queue.items q ++ rest, q') /\
      Queue.maxsize q' = Queue.maxsize q /\
      incl (rest ++ Queue.items q') (published arrivals).
Proof.
  induction arrivals as [|a arrivals IH]; intros q c; cbn [Shared.drain].
  - exists [], (Queue.mk (Queue.maxsize q) []).
    rewrite CollectFacts.drain_items_app, app_nil_r.
    repeat split. intros x [].
  - destruct (put_each_items (Shared.before_empty a) q) as (acc1 & Hi1 & Hm1 & Hin1).
    set (q1 := Shared.put_each (Shared.before_empty a) q) in *.
    destruct (put_each_items (Shared.before_get a) q1) as (acc2 & Hi2 & Hm2 & Hin2).
    set (q2 := Shared.put_each (Shared.before_get a) q1) in *.
    unfold Queue.empty, Queue.qsize.
    destruct (Queue.items q1) as [|x1 tl1] eqn:E1; cbn [length Nat.eqb].
    + exists [], q1. symmetry in Hi1. apply app_eq_nil in Hi1.
      destruct Hi1 as [-> _]. rewrite E1. cbn [app]. rewrite app_nil_r.
      repeat split; [exact Hm1|]. intros x [].
    + unfold Queue.get. rewrite Hi2. cbn [app].
      destruct (IH (Queue.mk (Queue.maxsize q2) (tl1 ++ acc2)) (c ++ [x1]))
        as (rest & q' & Hd & Hm & Hin).
      cbn [Queue.items Queue.maxsize] in Hd, Hm.
      exists (acc1 ++ acc2 ++ rest), q'.
      split; [|split].
      * rewrite Hd. f_equal.
        replace ((c ++ [x1]) ++ (tl1 ++ acc2) ++ rest)
          with (c ++ (x1 :: tl1) ++ acc2 ++ rest)
          by (rewrite <- !app_assoc; reflexivity).
        rewrite Hi1, <- !app_assoc. reflexivity.
      * congruence.
      * cbn [map concat]. rewrite <- !app_assoc.
        intros x Hx.
        apply in_app_or in Hx. destruct Hx as [Hx|Hx];
          [apply in_or_app; left; now apply Hin1|].
        apply in_app_or in Hx. destruct Hx as [Hx|Hx];
          [apply in_or_app; right; apply in_or_app; left; now apply Hin2|].
        apply in_or_app. right. apply in_or_app. right. now apply Hin.
Qed.

(** X20. From the channel to the file, with the other channels running:
    when [add_data] has published a sample, the next pass of the collector
    writes one file that holds what was queued before the sample, then the
    sample, then samples that the channels publish in the meantime, whatever
    these publications are and wherever they fall between the operations of
    the drain loop; the file is named after the first of these samples;
    what is written behind the sample and what stays in the queue comes from
    those publications; and with no publication in the meantime just the
    former items and the sample are written and the queue is left empty. *)
Theorem published_sample_is_written (strftime_LAX : Q -> string -> string)
    (path_data : string) (now : Q) (info : Sample.t) (h : heap)
    (arrivals : list Shared.arrival) :
  kept_history (self h) now <> [] \/ data_history (self h) = [] ->
  Queue.full (queue h) = false ->
  let r := check_values (set_history (kept_history (self h) now) (self h)) info in
  let q1 := queue (snd (add_data now info h)) in
  let former := Queue.items (queue h) in
  let f := os_path_join path_data
             ("data-" ++
              reformat_timestamp strftime_LAX (Sample.time_stamp (hd r former))
                                 (Some "%Y-%m-%d %H-%M-%S"%string) ++
              ".yml")%string in
  (exists (rest : list Sample.t) (q' : Queue.t),
     Shared.collect_pass strftime_LAX path_data arrivals q1 =
       (Some (f, former ++ [r] ++ rest), q') /\
     Queue.maxsize q' = Queue.maxsize (queue h) /\
     incl (rest ++ Queue.items q') (published arrivals)) /\
  Shared.collect_pass strftime_LAX path_data [] q1 =
    (Some (f, former ++ [r]), Queue.mk (Queue.maxsize (queue h)) []) /\
  collect_pass strftime_LAX path_data q1 =
    Shared.collect_pass strftime_LAX path_data [] q1.
Proof.
  intros Hguard Hroom r q1 former f.
  assert (Hq : q1 =
               Queue.mk (Queue.maxsize (queue h)) (Queue.items (queue h) ++ [r])).
  { subst q1. rewrite (HistoryFacts.add_data_cases now info h). cbv zeta.
    rewrite (HistoryFacts.guard_passes (self h) now Hguard).
    fold r. now rewrite (HistoryFacts.put_nowait_room r _ Hroom). }
  assert (Hpass : forall arr rest q',
             Shared.drain arr q1 [] = ([] ++ Queue.items q1 ++ rest, q') ->
             Shared.collect_pass strftime_LAX path_data arr q1 =
               (Some (f, former ++ [r] ++ rest), q')).
  { intros arr rest q' Hd. unfold Shared.collect_pass. rewrite Hd, Hq.
    cbn [Queue.items app]. rewrite <- app_assoc. subst f. fold former.
    destruct former as [|x former']; reflexivity. }
  split; [|split].
  - destruct (shared_drain_shape arrivals q1 []) as (rest & q' & Hd & Hm & Hin).
    exists rest, q'. split; [now apply Hpass|]. split; [|exact Hin].
    rewrite Hm, Hq. reflexivity.
  - rewrite (Hpass [] [] (Queue.mk (Queue.maxsize (queue h)) [])).
    + now rewrite app_nil_r.
    + cbn [Shared.drain]. rewrite CollectFacts.drain_items_app, app_nil_r, Hq.
      reflexivity.
  - reflexivity.
Qed.

Lemma published_sample_is_written_witness :
  (kept_history (self Fixtures.mixed_heap) 1000 <> [] \/
   data_history (self Fixtures.mixed_heap) = []) /\
  Queue.full (queue Fixtures.mixed_heap) = false /\
  exists (rest : list Sample.t) (q' : Queue.t),
    Shared.collect_pass Fixtures.strftime_two "data" Fixtures.busy_pass
      (queue (snd (add_data 1000 Fixtures.new_sample Fixtures.mixed_heap))) =
    (Some ("data/data-1969-12-31 16-16-40.yml"%string,
           [] ++ [Fixtures.new_sample] ++ rest), q') /\
    Queue.maxsize q' = 100%nat /\
    incl (rest ++ Queue.items q') (published Fixtures.busy_pass).
Proof.
  assert (Hguard : kept_history (self Fixtures.mixed_heap) 1000 <> [] \/
                   data_history (self Fixtures.mixed_heap) = [])
    by (left; vm_compute; discriminate).
  split; [exact Hguard|]. split; [reflexivity|].
  exact (proj1 (published_sample_is_written Fixtures.strftime_two "data" 1000
                  Fixtures.new_sample Fixtures.mixed_heap Fixtures.busy_pass
                  Hguard eq_refl)).
Defined.

(** X21. A pass of the collector over an empty queue writes nothing; a
    second pass right after a pass writes nothing; and the first publication
    after a pass cannot raise [Queue.Full]. *)
Theorem after_a_pass (strftime_LAX : Q -> string -> string) (path_data : string)
    (now : Q) (info : Sample.t) (self0 : Channel.t) (q : Queue.t) :
  let q' := snd (collect_pass strftime_LAX path_data q) in
  (Queue.items q = [] -> fst (collect_pass strftime_LAX path_data q) = None) /\
  Queue.items q' = [] /\
  collect_pass strftime_LAX path_data q' = (None, q') /\
  fst (add_data now info (mkHeap self0 q')) <> Raise Queue_Full.
Proof.
  cbv zeta.
  assert (Hq' : snd (collect_pass strftime_LAX path_data q) =
                Queue.mk (Queue.maxsize q) []).
  { unfold collect_pass. rewrite CollectFacts.drain_all.
    now destruct (Queue.items q). }
  rewrite Hq'. split; [|split; [|split]].
  - intro H. now rewrite (collect_pass_empty _ _ _ H).
  - reflexivity.
  - now rewrite collect_pass_empty.
  - rewrite HistoryFacts.add_data_cases. cbv zeta. cbn [queue].
    destruct ((length _ =? 0)%nat && (0 <? length _)%nat); [cbn; discriminate|].
    unfold Queue.put_nowait, Queue.qsize. cbn [Queue.items Queue.maxsize length].
    destruct (Queue.maxsize q) as [|n]; cbn; discriminate.
Qed.

Lemma after_a_pass_witness :
  Queue.items (snd (collect_pass Fixtures.strftime_two "data" Fixtures.raced_queue)) = [] /\
  fst (add_data 1000 Fixtures.new_sample
         (mkHeap (Fixtures.channel_with [])
            (snd (collect_pass Fixtures.strftime_two "data" Fixtures.raced_queue)))) <>
    Raise Queue_Full.
Proof.
  split.
  - exact (proj1 (proj2 (after_a_pass Fixtures.strftime_two "data" 1000
                           Fixtures.new_sample (Fixtures.channel_with [])
                           Fixtures.raced_queue))).
  - exact (proj2 (proj2 (proj2 (after_a_pass Fixtures.strftime_two "data" 1000
                           Fixtures.new_sample (Fixtures.channel_with [])
                           Fixtures.raced_queue)))).
Defined.

Lemma level_after_acc (events : list event) (pin : Z) :
  forall acc : option level,
    fold_left
      (fun acc e => match e with
                    | DigitalWrite p l => if (p =? pin)%Z then Some l else acc
                    | _ => acc
                    end) events acc =
    match level_after events pin with
    | Some l => Some l
    | None => acc
    end.
Proof.
  unfold level_after.
  induction events as [|e events IH]; intro acc; cbn [fold_left]; [reflexivity|].
  rewrite IH. rewrite (IH (match e with
                           | DigitalWrite p l => if (p =? pin)%Z then Some l else None
                           | _ => None
                           end)).
  destruct (fold_left _ events None); [reflexivity|].
  destruct e as [| p l | |]; try reflexivity.
  now destruct (p =? pin)%Z.
Qed.

(** The level of a pin after two sequences of events, one after the other. *)
Lemma level_after_app (ev1 ev2 : list event) (pin : Z) :
  level_after (ev1 ++ ev2) pin =
  match level_after ev2 pin with
  | Some l => Some l
  | None => level_after ev1 pin
  end.
Proof.
  unfold level_after at 1. rewrite fold_left_app. apply level_after_acc.
Qed.

Lemma files_written_app (ev1 ev2 : list event) :
  files_written (ev1 ++ ev2) = files_written ev1 ++ files_written ev2.
Proof. unfold files_written. apply flat_map_app. Qed.

Lemma set_status_led_writes_nothing (status : Z) (pin_ok pin_err : option Z) :
  files_written (set_status_led status pin_ok pin_err) = [].
Proof.
  unfold set_status_led. destruct pin_ok, pin_err; try reflexivity.
  destruct (0 <? status)%Z; [reflexivity|]. now destruct (status =? 0)%Z.
Qed.

(** X22. With two different LED pins, [set_status_led] leaves the ok LED on
    exactly when the status is positive and the error LED on exactly when
    the status is 0, never both; when either pin is missing it does nothing. *)
Theorem set_status_led_levels (status pin_ok pin_err : Z) :
  pin_ok <> pin_err ->
  let events := set_status_led status (Some pin_ok) (Some pin_err) in
  (level_after events pin_ok = Some HIGH <-> (0 < status)%Z) /\
  (level_after events pin_err = Some HIGH <-> status = 0%Z) /\
  ~ (level_after events pin_ok = Some HIGH /\ level_after events pin_err = Some HIGH) /\
  (forall pin : option Z,
     set_status_led status None pin = [] /\ set_status_led status pin None = []).
Proof.
  intros Hne events.
  assert (E1 : (pin_err =? pin_ok)%Z = false) by (apply Z.eqb_neq; congruence).
  assert (E2 : (pin_ok =? pin_err)%Z = false) by (now apply Z.eqb_neq).
  assert (Hok : level_after events pin_ok =
                Some (if (0 <? status)%Z then HIGH else LOW)).
  { subst events. unfold set_status_led, level_after.
    destruct (0 <? status)%Z; [|destruct (status =? 0)%Z];
      cbn; now rewrite ?Z.eqb_refl, ?E1, ?Z.eqb_refl. }
  assert (Herr : level_after events pin_err =
                 Some (if (0 <? status)%Z then LOW
                       else if (status =? 0)%Z then HIGH else LOW)).
  { subst events. unfold set_status_led, level_after.
    destruct (0 <? status)%Z; [|destruct (status =? 0)%Z];
      cbn; now rewrite ?Z.eqb_refl, ?E2, ?Z.eqb_refl. }
  rewrite Hok, Herr.
  assert (Hmissing : forall pin : option Z,
            set_status_led status None pin = [] /\
            set_status_led status pin None = [])
    by (intro pin; split; [reflexivity | now destruct pin]).
  destruct (Z.ltb_spec 0 status) as [Hpos|Hle];
    [|destruct (Z.eqb_spec status 0) as [Hz|Hnz]].
  - split; [tauto|]. split; [split; [discriminate | lia]|].
    split; [intros [_ H]; discriminate | exact Hmissing].
  - split; [split; [discriminate | lia]|]. split; [tauto|].
    split; [intros [H _]; discriminate | exact Hmissing].
  - split; [split; [discriminate | lia]|].
    split; [split; [discriminate | contradiction]|].
    split; [intros [H _]; discriminate | exact Hmissing].
Qed.

Lemma set_status_led_levels_witness :
  (23 <> 24)%Z /\
  (level_after (set_status_led 0 (Some 23%Z) (Some 24%Z)) 24 = Some HIGH <-> 0%Z = 0%Z).
Proof.
  assert (Hne : (23 <> 24)%Z) by lia.
  split; [exact Hne|].
  exact (proj1 (proj2 (set_status_led_levels 0 23 24 Hne))).
Defined.

(** The parts of one turn of the main loop. *)
Lemma main_turn_parts (strftime_LAX : Q -> string -> string) (path_data : string)
    (power_cycle_interval : Q) (pin_power : option Z) (c : Main.clocks)
    (st : Main.state) :
  exists (ev_write ev_power ev_sleep : list event) (tpz : Q),
    Main.main_turn strftime_LAX path_data power_cycle_interval pin_power c st =
      (ev_write ++ ev_power ++ ev_sleep,
       Main.mkState (Queue.mk (Queue.maxsize (Main.queue st)) []) tpz) /\
    (Queue.items (Main.queue st) = [] /\ ev_write = [] \/
     Queue.items (Main.queue st) <> [] /\
     exists f, ev_write = [IoWrite f (Queue.items (Main.queue st))]) /\
    (ev_power = [] /\ tpz = Main.time_power_zero st \/
     ev_power = reset_power pin_power None /\ tpz = Main.clock_reset c) /\
    (ev_sleep = [] \/ exists s, ev_sleep = [Sleep s] /\ 0 < s).
Proof.
  unfold Main.main_turn.
  assert (Hcp : exists written,
            collect_pass strftime_LAX path_data (Main.queue st) =
              (written, Queue.mk (Queue.maxsize (Main.queue st)) []) /\
            (Queue.items (Main.queue st) = [] /\ written = None \/
             Queue.items (Main.queue st) <> [] /\
             exists f, written = Some (f, Queue.items (Main.queue st)))).
  { destruct (Queue.items (Main.queue st)) as [|info0 others] eqn:E.
    - exists None. rewrite (collect_pass_empty _ _ _ E). split; [reflexivity|].
      left. split; reflexivity.
    - destruct (collect_pass_some strftime_LAX path_data (Main.queue st))
        as (f & Hf); [rewrite E; discriminate|].
      exists (Some (f, Queue.items (Main.queue st))). rewrite Hf, E.
      split; [reflexivity|]. right. split; [discriminate|]. now exists f. }
  destruct Hcp as (written & -> & Hw).
  destruct (Qgtb (Main.clock_test c - Main.time_power_zero st) power_cycle_interval).
  - destruct (Qgtb (Main.time_wait_poll - (Main.clock_end c - Main.clock_start c)) 0)
      eqn:Es.
    + do 4 eexists. split; [reflexivity|]. split.
      * destruct Hw as [[H ->]|[H (f & ->)]]; [left | right]; split; eauto.
      * split; [right; split; reflexivity|]. right. eexists. split; [reflexivity|].
        now apply CheckFacts.Qgtb_true.
    + do 4 eexists. split; [reflexivity|]. split.
      * destruct Hw as [[H ->]|[H (f & ->)]]; [left | right]; split; eauto.
      * split; [right; split; reflexivity|]. now left.
  - destruct (Qgtb (Main.time_wait_poll - (Main.clock_end c - Main.clock_start c)) 0)
      eqn:Es.
    + do 4 eexists. split; [reflexivity|]. split.
      * destruct Hw as [[H ->]|[H (f & ->)]]; [left | right]; split; eauto.
      * split; [left; split; reflexivity|]. right. eexists. split; [reflexivity|].
        now apply CheckFacts.Qgtb_true.
    + do 4 eexists. split; [reflexivity|]. split.
      * destruct Hw as [[H ->]|[H (f & ->)]]; [left | right]; split; eauto.
      * split; [left; split; reflexivity|]. now left.
Qed.

Lemma level_after_reset_power (pin_power : option Z) (time_sleep : option Q) (p : Z) :
  pin_power = Some p -> level_after (reset_power pin_power time_sleep) p = Some HIGH.
Proof. intros ->. unfold reset_power, level_after. cbn. now rewrite Z.eqb_refl. Qed.

(** X23. One turn of the main loop empties the queue and writes what was in
    it, in order, to one file, or writes nothing when the queue was empty; if
    it touches the power pin it leaves it high, whatever pause was asked for;
    and every pause it makes is positive. *)
Theorem main_turn_effects (strftime_LAX : Q -> string -> string) (path_data : string)
    (power_cycle_interval : Q) (pin_power : option Z) (c : Main.clocks)
    (st : Main.state) :
  let turn :=
    Main.main_turn strftime_LAX path_data power_cycle_interval pin_power c st in
  Main.queue (snd turn) = Queue.mk (Queue.maxsize (Main.queue st)) [] /\
  (Queue.items (Main.queue st) = [] -> files_written (fst turn) = []) /\
  (Queue.items (Main.queue st) <> [] ->
   exists f, files_written (fst turn) = [(f, Queue.items (Main.queue st))]) /\
  (forall p : Z, pin_power = Some p ->
     level_after (fst turn) p = None \/ level_after (fst turn) p = Some HIGH) /\
  (forall s : Q, In (Sleep s) (fst turn) -> 0 < s).
Proof.
  cbv zeta.
  destruct (main_turn_parts strftime_LAX path_data power_cycle_interval pin_power c st)
    as (ev_write & ev_power & ev_sleep & tpz & -> & Hw & Hp & Hs).
  cbn [fst snd Main.queue].
  assert (Hfp : files_written ev_power = []).
  { destruct Hp as [[-> _]|[-> _]]; [reflexivity|]. now destruct pin_power. }
  assert (Hfs : files_written ev_sleep = []).
  { destruct Hs as [->|(s & -> & _)]; reflexivity. }
  assert (Hlw : forall p, level_after ev_write p = None).
  { intro p. destruct Hw as [[_ ->]|[_ (f & ->)]]; reflexivity. }
  assert (Hls : forall p, level_after ev_sleep p = None).
  { intro p. destruct Hs as [->|(s & -> & _)]; reflexivity. }
  split; [reflexivity|]. split; [|split; [|split]].
  - intro Hnil. rewrite !files_written_app, Hfp, Hfs.
    destruct Hw as [[_ ->]|[Hne _]]; [reflexivity | contradiction].
  - intro Hne. rewrite !files_written_app, Hfp, Hfs.
    destruct Hw as [[Hnil _]|[_ (f & ->)]]; [contradiction|].
    exists f. reflexivity.
  - intros p Hpin. rewrite !level_after_app, Hls, Hlw.
    destruct Hp as [[-> _]|[-> _]]; [now left|].
    right. now rewrite (level_after_reset_power _ _ _ Hpin).
  - intros s Hin. apply in_app_or in Hin. destruct Hin as [Hin|Hin].
    + destruct Hw as [[_ ->]|[_ (f & ->)]]; [contradiction|].
      destruct Hin as [Hin|[]]; discriminate.
    + apply in_app_or in Hin. destruct Hin as [Hin|Hin].
      * destruct Hp as [[-> _]|[-> _]]; [contradiction|].
        destruct pin_power as [p|]; [|contradiction].
        cbn in Hin. destruct Hin as [Hin|[Hin|[Hin|[]]]]; try discriminate.
        injection Hin as <-. reflexivity.
      * destruct Hs as [->|(s' & -> & Hpos)]; [contradiction|].
        destruct Hin as [Hin|[]]. now injection Hin as <-.
Qed.

Lemma main_turn_effects_witness :
  Queue.items Fixtures.raced_queue <> [] /\
  exists f : string,
    files_written
      (fst (Main.main_turn Fixtures.strftime_two "data" 1800 (Some 22%Z)
              (Main.mkClocks 10 11 41 42) (Main.mkState Fixtures.raced_queue 0))) =
    [(f, Queue.items Fixtures.raced_queue)].
Proof.
  assert (Hne : Queue.items Fixtures.raced_queue <> []) by discriminate.
  split; [exact Hne|].
  exact (proj1 (proj2 (proj2
    (main_turn_effects Fixtures.strftime_two "data" 1800 (Some 22%Z)
       (Main.mkClocks 10 11 41 42) (Main.mkState Fixtures.raced_queue 0)))) Hne).
Defined.

(** X24. The handler of [KeyboardInterrupt] stops every channel without
    touching its data, leaves the power pin low, shows the error state on two
    different LED pins that are not the power pin, and writes no file: the
    samples still in the queue are not saved. *)
Theorem on_keyboard_interrupt_effects (pin_ok pin_err pin_power : option Z)
    (channels : list Channel.t) :
  let events := fst (Main.on_keyboard_interrupt pin_ok pin_err pin_power channels) in
  let stopped := snd (Main.on_keyboard_interrupt pin_ok pin_err pin_power channels) in
  Forall (fun c => Channel._keep_running c = false) stopped /\
  map Channel.data_history stopped = map Channel.data_history channels /\
  map Channel.data_latest stopped = map Channel.data_latest channels /\
  files_written events = [] /\
  (forall p : Z, pin_power = Some p -> level_after events p = Some LOW) /\
  (forall ok err : Z,
     pin_ok = Some ok -> pin_err = Some err -> ok <> err ->
     pin_power <> Some ok -> pin_power <> Some err ->
     level_after events ok = Some LOW /\ level_after events err = Some HIGH).
Proof.
  cbv zeta. unfold Main.on_keyboard_interrupt. cbn [fst snd].
  split; [|split; [|split; [|split; [|split]]]].
  - unfold stop_all_channels. apply Forall_map, Forall_forall. reflexivity.
  - unfold stop_all_channels. rewrite map_map. reflexivity.
  - unfold stop_all_channels. rewrite map_map. reflexivity.
  - rewrite files_written_app, set_status_led_writes_nothing.
    now destruct pin_power.
  - intros p ->. rewrite level_after_app. unfold level_after at 1. cbn.
    now rewrite Z.eqb_refl.
  - intros ok err -> -> Hne Hpo Hpe. rewrite !level_after_app.
    assert (Hpow : forall q : Z, pin_power <> Some q ->
              level_after match pin_power with
                          | Some pin_power => [DigitalWrite pin_power LOW]
                          | None => []
                          end q = None).
    { intros q Hq. destruct pin_power as [p|]; [|reflexivity].
      unfold level_after. cbn. destruct (Z.eqb_spec p q); [congruence | reflexivity]. }
    rewrite (Hpow ok Hpo), (Hpow err Hpe).
    unfold set_status_led, level_after. cbn.
    rewrite !Z.eqb_refl.
    assert (E1 : (err =? ok)%Z = false) by (apply Z.eqb_neq; congruence).
    assert (E2 : (ok =? err)%Z = false) by (now apply Z.eqb_neq).
    rewrite ?E1, ?E2. split; reflexivity.
Qed.

Lemma on_keyboard_interrupt_effects_witness :
  level_after
    (fst (Main.on_keyboard_interrupt (Some 23%Z) (Some 24%Z) (Some 22%Z)
            Fixtures.two_of_three)) 22 = Some LOW.
Proof.
  exact (proj1 (proj2 (proj2 (proj2 (proj2
    (on_keyboard_interrupt_effects (Some 23%Z) (Some 24%Z) (Some 22%Z)
       Fixtures.two_of_three))))) 22%Z eq_refl).
Defined.

(** X25. [check_pin_connected] says no exactly when [read_dht22_single]
    would hand back the message of [read_bits]: a sensor that answers counts
    as connected even if the decoder rejects everything it sends. *)
Theorem check_pin_connected_iff (cap : Decoder.capture) :
  check_pin_connected cap = false <->
  exists msg : string,
    Decoder.read_dht22_single cap = Ok (Decoder.NoReading (Decoder.Fail_read_bits msg)).
Proof.
  destruct cap as [msg|first bits]; cbn [check_pin_connected Decoder.read_dht22_single].
  - split; [intros _; now exists msg | reflexivity].
  - split; [discriminate|]. intros (msg & H). exfalso. revert H.
    destruct (negb (first =? 1)%Z); [discriminate|].
    destruct (Nat.eqb_spec (length bits) 40) as [Hlen|Hlen]; [|discriminate].
    rewrite (DecoderFacts.bits_to_bytes_frame bits Hlen).
    destruct (Decoder.compute_checksum _ _ _ _ _); discriminate.
Qed.

Lemma check_pin_connected_iff_witness :
  (exists msg : string,
     Decoder.read_dht22_single (Decoder.NoAnswer "no response") =
     Ok (Decoder.NoReading (Decoder.Fail_read_bits msg))) /\
  check_pin_connected (Decoder.NoAnswer "no response") = false.
Proof.
  assert (H : exists msg : string,
            Decoder.read_dht22_single (Decoder.NoAnswer "no response") =
            Ok (Decoder.NoReading (Decoder.Fail_read_bits msg)))
    by (eexists; reflexivity).
  split; [exact H|].
  exact (proj2 (check_pin_connected_iff (Decoder.NoAnswer "no response")) H).
Defined.

End CollectMore.

(** ** The loop of [run] and [stop] *)

Module RunnerFacts.
Import Channel Runner.
Local Open Scope Q_scope.

Lemma run_cycle_keep_running (cap : Decoder.capture) (time_now time_stamp_now : Q)
    (h : heap) :
  _keep_running (self (snd (run_cycle cap time_now time_stamp_now h))) =
  _keep_running (self h).
Proof.
  destruct (HistoryMore.run_cycle_heap cap time_now time_stamp_now h)
    as [->|(info & ->)]; [reflexivity|].
  destruct (HistoryMore.add_data_heap time_stamp_now info h) as [->|[->|[_ ->]]];
    reflexivity.
Qed.

Lemma run_loop_stopped (turns : list turn) (h : heap) :
  _keep_running (self h) = false -> run_loop turns h = (Ok true, h).
Proof.
  intro H. destruct turns; cbn [run_loop]; unfold bind, get_self, ret; now rewrite H.
Qed.

(** The heap a turn hands on: with the running flag off if [stop] was called
    during the turn. *)
Lemma run_loop_step (c : turn) (rest : list turn) (h : heap) :
  _keep_running (self h) = true ->
  run_loop (c :: rest) h =
  match run_cycle (cap c) (time_now c) (time_stamp_now c) h with
  | (Raise e, h') =>
      (Raise e, if stop_called c then mkHeap (stop (self h')) (queue h') else h')
  | (Ok _, h') =>
      run_loop rest (if stop_called c then mkHeap (stop (self h')) (queue h') else h')
  end.
Proof.
  intro H. cbn [run_loop]. unfold bind at 1, get_self at 1. rewrite H.
  destruct (run_cycle (cap c) (time_now c) (time_stamp_now c) h) as [[o|e] h'];
    unfold bind, stop_if; destruct (stop_called c); reflexivity.
Qed.

Lemma run_loop_after_stop (pre rest : list turn) (c : turn) :
  stop_called c = true ->
  forall h : heap,
    run_loop (pre ++ c :: rest) h = run_loop (pre ++ [c]) h /\
    fst (run_loop (pre ++ [c]) h) <> Ok false.
Proof.
  intro Hc. induction pre as [|p pre IH]; intro h; cbn [app].
  - destruct (_keep_running (self h)) eqn:Ek.
    + rewrite !run_loop_step by exact Ek.
      destruct (run_cycle (cap c) (time_now c) (time_stamp_now c) h) as [[o|e] h'].
      * rewrite Hc, !run_loop_stopped by reflexivity. split; [reflexivity|].
        cbn. discriminate.
      * split; [reflexivity | cbn; discriminate].
    + rewrite !run_loop_stopped by exact Ek. split; [reflexivity | cbn; discriminate].
  - destruct (_keep_running (self h)) eqn:Ek.
    + rewrite !run_loop_step by exact Ek.
      destruct (run_cycle (cap p) (time_now p) (time_stamp_now p) h) as [[o|e] h'].
      * apply IH.
      * split; [reflexivity | cbn; discriminate].
    + rewrite !run_loop_stopped by exact Ek. split; [reflexivity | cbn; discriminate].
Qed.

(** X26. [stop] is cooperative: the turn during which it is called is
    finished, and nothing that would follow is ever read: the thread ends
    after that turn at the latest (earlier if an exception ends it). *)
Theorem run_ends_after_stop (pre rest : list turn) (c : turn) (h : heap) :
  stop_called c = true ->
  run (pre ++ c :: rest) h = run (pre ++ [c]) h /\
  fst (run (pre ++ [c]) h) <> Ok false.
Proof.
  intro Hc. unfold run, bind, modify_self. now apply run_loop_after_stop.
Qed.

Lemma run_ends_after_stop_witness :
  stop_called (mkTurn (Decoder.Capture 1 Fixtures.good_frame) 1000 1000 true) = true /\
  run [mkTurn (Decoder.Capture 1 Fixtures.good_frame) 1000 1000 true;
       mkTurn (Decoder.Capture 1 Fixtures.good_frame) 1005 1005 false]
      Fixtures.idle_heap =
  run [mkTurn (Decoder.Capture 1 Fixtures.good_frame) 1000 1000 true]
      Fixtures.idle_heap.
Proof.
  split; [reflexivity|].
  exact (proj1 (run_ends_after_stop []
                  [mkTurn (Decoder.Capture 1 Fixtures.good_frame) 1005 1005 false]
                  (mkTurn (Decoder.Capture 1 Fixtures.good_frame) 1000 1000 true)
                  Fixtures.idle_heap eq_refl)).
Defined.

Lemma run_loop_flag (turns : list turn) :
  forall h : heap,
    (fst (run_loop turns h) = Ok true ->
     _keep_running (self (snd (run_loop turns h))) = false) /\
    (Forall (fun c => stop_called c = false) turns ->
     forall e, fst (run_loop turns h) = Raise e ->
     _keep_running (self (snd (run_loop turns h))) = true).
Proof.
  induction turns as [|c turns IH]; intro h.
  - destruct (_keep_running (self h)) eqn:Ek.
    + cbn [run_loop]. unfold bind, get_self, ret. rewrite Ek. cbn.
      split; [discriminate | intros _ e He; discriminate].
    + rewrite run_loop_stopped by exact Ek. cbn.
      split; [auto | intros _ e He; discriminate].
  - destruct (_keep_running (self h)) eqn:Ek.
    + rewrite run_loop_step by exact Ek.
      pose proof (run_cycle_keep_running (cap c) (time_now c) (time_stamp_now c) h)
        as Hk.
      destruct (run_cycle (cap c) (time_now c) (time_stamp_now c) h) as [[o|e] h'].
      * split; [apply IH|]. intro Hall. inversion Hall as [|? ? Hc Hrest]; subst.
        now apply IH.
      * cbn [fst snd] in *. split; [discriminate|]. intros Hall e' _.
        inversion Hall as [|? ? Hc Hrest]; subst. rewrite Hc. congruence.
    + rewrite run_loop_stopped by exact Ek. cbn.
      split; [auto | intros _ e He; discriminate].
Qed.

(** X27. [run] sets the running flag itself, so a [stop] called before the
    thread starts is lost; when the loop is left in the regular way the flag
    is off; when an exception ends the thread and nobody has called [stop],
    the flag is still on, and the channel goes on saying that it is running. *)
Theorem run_and_the_running_flag (turns : list turn) (h : heap) :
  run turns (mkHeap (stop (self h)) (queue h)) = run turns h /\
  (fst (run turns h) = Ok true ->
   _keep_running (self (snd (run turns h))) = false) /\
  (Forall (fun c => stop_called c = false) turns ->
   forall e : exn, fst (run turns h) = Raise e ->
   _keep_running (self (snd (run turns h))) = true).
Proof.
  split; [reflexivity|]. unfold run, bind, modify_self. apply run_loop_flag.
Qed.

Lemma run_and_the_running_flag_witness :
  Forall (fun c => stop_called c = false)
         [mkTurn (Decoder.Capture 1 Fixtures.good_frame) 1000 1000 false] /\
  fst (run [mkTurn (Decoder.Capture 1 Fixtures.good_frame) 1000 1000 false]
           Fixtures.jammed_heap) = Raise Queue_Full /\
  _keep_running
    (self (snd (run [mkTurn (Decoder.Capture 1 Fixtures.good_frame) 1000 1000 false]
                    Fixtures.jammed_heap))) = true.
Proof.
  assert (Hall : Forall (fun c => stop_called c = false)
                   [mkTurn (Decoder.Capture 1 Fixtures.good_frame) 1000 1000 false])
    by (repeat constructor).
  split; [exact Hall|]. split; [reflexivity|].
  exact (proj2 (proj2 (run_and_the_running_flag
                  [mkTurn (Decoder.Capture 1 Fixtures.good_frame) 1000 1000 false]
                  Fixtures.jammed_heap)) Hall Queue_Full eq_refl).
Defined.

End RunnerFacts.

(** ** The outlier check on doubles *)

Module Check64Facts.
Import Float64 Check64.

(** On numbers, [leb] is the order of the keys. *)
Lemma leb_key (x y : float) :
  is_nan x = false -> is_nan y = false ->
  (leb x y = true <-> key_le (key x) (key y)).
Proof.
  intros Hx Hy. unfold leb, SpecFloat.SFleb, SpecFloat.SFcompare.
  destruct x as [sx|sx| |sx mx ex], y as [sy|sy| |sy my ey]; try discriminate;
    try destruct sx; try destruct sy; cbn [key key_le];
    try (split; [intros _; lia | reflexivity]);
    try (split; [discriminate | intro H; exfalso; lia]).
  - destruct (Z.compare_spec ex ey) as [E|E|E]; cbn [CompOpp].
    + subst. change (Pos.compare_cont Eq mx my) with (Pos.compare mx my).
      destruct (Pos.compare_spec mx my) as [F|F|F]; cbn [CompOpp];
        (split; [intros _; lia | reflexivity]) ||
        (split; [discriminate | intro H; exfalso; lia]).
    + split; [discriminate | intro H; exfalso; lia].
    + split; [intros _; lia | reflexivity].
  - destruct (Z.compare_spec ex ey) as [E|E|E].
    + subst. change (Pos.compare_cont Eq mx my) with (Pos.compare mx my).
      destruct (Pos.compare_spec mx my) as [F|F|F];
        (split; [intros _; lia | reflexivity]) ||
        (split; [discriminate | intro H; exfalso; lia]).
    + split; [intros _; lia | reflexivity].
    + split; [discriminate | intro H; exfalso; lia].
Qed.

Lemma gtb_key (x y : float) :
  is_nan x = false -> is_nan y = false ->
  (gtb x y = true <-> ~ key_le (key x) (key y)).
Proof.
  intros Hx Hy. unfold gtb, SpecFloat.SFltb, SpecFloat.SFcompare.
  destruct x as [sx|sx| |sx mx ex], y as [sy|sy| |sy my ey]; try discriminate;
    try destruct sx; try destruct sy; cbn [key key_le];
    try (split; [intros _; lia | reflexivity]);
    try (split; [discriminate | intro H; exfalso; lia]).
  - destruct (Z.compare_spec ey ex) as [E|E|E]; cbn [CompOpp].
    + subst. change (Pos.compare_cont Eq my mx) with (Pos.compare my mx).
      destruct (Pos.compare_spec my mx) as [F|F|F]; cbn [CompOpp];
        (split; [intros _; lia | reflexivity]) ||
        (split; [discriminate | intro H; exfalso; lia]).
    + split; [discriminate | intro H; exfalso; lia].
    + split; [intros _; lia | reflexivity].
  - destruct (Z.compare_spec ey ex) as [E|E|E].
    + subst. change (Pos.compare_cont Eq my mx) with (Pos.compare my mx).
      destruct (Pos.compare_spec my mx) as [F|F|F];
        (split; [intros _; lia | reflexivity]) ||
        (split; [discriminate | intro H; exfalso; lia]).
    + split; [intros _; lia | reflexivity].
    + split; [discriminate | intro H; exfalso; lia].
Qed.

Lemma leb_numbers (x y : float) :
  leb x y = true -> is_nan x = false /\ is_nan y = false.
Proof.
  unfold leb, SpecFloat.SFleb, SpecFloat.SFcompare.
  destruct x, y; try discriminate; split; reflexivity.
Qed.

(** The two tests of the code exclude each other. *)
Lemma leb_not_gtb (x y : float) : leb x y = true -> gtb x y = false.
Proof.
  intro H. destruct (leb_numbers x y H) as [Hx Hy].
  destruct (gtb x y) eqn:E; [|reflexivity].
  apply (gtb_key x y Hx Hy) in E. apply (leb_key x y Hx Hy) in H. contradiction.
Qed.

Lemma key_le_trans (a b c : Z * Z * Z) : key_le a b -> key_le b c -> key_le a c.
Proof.
  destruct a as [[a1 a2] a3], b as [[b1 b2] b3], c as [[c1 c2] c3].
  unfold key_le. lia.
Qed.

Lemma key_le_total (a b : Z * Z * Z) : key_le a b \/ key_le b a.
Proof.
  destruct a as [[a1 a2] a3], b as [[b1 b2] b3]. unfold key_le. lia.
Qed.

Lemma leb_trans (x y z : float) :
  leb x y = true -> leb y z = true -> leb x z = true.
Proof.
  intros Hxy Hyz.
  destruct (leb_numbers x y Hxy) as [Hx Hy].
  destruct (leb_numbers y z Hyz) as [_ Hz].
  apply (leb_key x z Hx Hz).
  apply key_le_trans with (key y); [now apply leb_key | now apply leb_key].
Qed.

Lemma leb_total (x y : float) :
  is_nan x = false -> is_nan y = false -> leb x y = false -> leb y x = true.
Proof.
  intros Hx Hy H. apply (leb_key y x Hy Hx).
  destruct (key_le_total (key x) (key y)) as [K|K]; [|exact K].
  apply (leb_key x y Hx Hy) in K. congruence.
Qed.

Lemma insert_sorted64_perm (x : float) (l : list float) :
  Permutation (insert_sorted x l) (x :: l).
Proof.
  induction l as [|y l IH]; cbn [insert_sorted].
  - apply Permutation_refl.
  - destruct (leb x y).
    + apply Permutation_refl.
    + eapply perm_trans; [apply perm_skip, IH | apply perm_swap].
Qed.

Lemma np_sort64_perm (a : list float) : Permutation (np_sort a) a.
Proof.
  induction a as [|x a IH]; cbn [np_sort fold_right].
  - constructor.
  - eapply perm_trans; [apply insert_sorted64_perm | now apply perm_skip].
Qed.

Lemma insert_sorted_ordered (x : float) (l : list float) :
  is_nan x = false -> Forall (fun y => is_nan y = false) l ->
  ordered l -> ordered (insert_sorted x l).
Proof.
  intros Hx Hl Hs. unfold ordered in *.
  induction Hs as [|y l Hs IH Hy]; cbn [insert_sorted].
  - repeat constructor.
  - inversion Hl as [|? ? Hny Hnl]; subst.
    destruct (leb x y) eqn:E.
    + constructor; [now constructor|]. constructor; [exact E|].
      apply Forall_impl with (2 := Hy). intros z Hz. now apply leb_trans with y.
    + constructor; [now apply IH|].
      apply (Permutation_Forall (Permutation_sym (insert_sorted64_perm x l))).
      constructor; [now apply leb_total | exact Hy].
Qed.

(** [np_sort] arranges an array of numbers in order. *)
Lemma np_sort_ordered (a : list float) :
  Forall (fun y => is_nan y = false) a -> ordered (np_sort a).
Proof.
  induction 1 as [|x a Hx Ha IH]; cbn [np_sort fold_right].
  - constructor.
  - apply insert_sorted_ordered; [exact Hx | | exact IH].
    apply (Permutation_Forall (Permutation_sym (np_sort64_perm a))). exact Ha.
Qed.

Lemma np_median_middle (a : list float) :
  a <> [] -> np_median a = middle (np_sort a).
Proof.
  intro Hne. unfold np_median, middle.
  rewrite (Permutation_length (np_sort64_perm a)).
  destruct a as [|x a]; [congruence|]. reflexivity.
Qed.

(** The value of [np.median] on numbers is their median. *)
Lemma np_median64_is_median (a : list float) :
  a <> [] -> Forall (fun y => is_nan y = false) a -> is_median a (np_median a).
Proof.
  intros Hne Ha. exists (np_sort a).
  split; [apply np_sort64_perm|]. split; [now apply np_sort_ordered|].
  now apply np_median_middle.
Qed.

Lemma check_data_value_64 (self : t) (samples : list float) (value : float) :
  let m := np_median samples in
  (gtb (abs (sub value m)) (check_threshold self) = true ->
     _check_data_value self samples value = m) /\
  (leb (abs (sub value m)) (check_threshold self) = true ->
     _check_data_value self samples value = value).
Proof.
  cbv zeta. unfold _check_data_value. cbv zeta. split; intro H.
  - now rewrite H.
  - now rewrite (leb_not_gtb _ _ H).
Qed.

(** C2. On doubles, as the code computes: with at least [num_min_history]
    samples (10 unless changed) and [m] the value of [np.median] over a field
    of the history, a candidate [c] for which [abs(c - m) > check_threshold]
    (25 unless changed) is replaced by exactly [m], and a candidate for which
    [abs(c - m) <= check_threshold] is kept; the humidity is checked against
    the humidities and the temperature against the temperatures, each on its
    own. On a history of numbers [m] is the median of the field: the middle
    of the ordered values, the mean of the two middle ones for an even
    count. With fewer samples the candidate comes back unchanged. *)
Theorem check_values_median_rule_64 (self : t) (info_new : sample) :
  let history := data_history self in
  let threshold := check_threshold self in
  let checked := check_values self info_new in
  let m_RH := np_median (map RH history) in
  let m_Tf := np_median (map Tf history) in
  ((length history < num_min_history self)%nat -> checked = info_new) /\
  ((num_min_history self <= length history)%nat ->
   (gtb (abs (sub (RH info_new) m_RH)) threshold = true -> RH checked = m_RH) /\
   (leb (abs (sub (RH info_new) m_RH)) threshold = true ->
      RH checked = RH info_new) /\
   (gtb (abs (sub (Tf info_new) m_Tf)) threshold = true -> Tf checked = m_Tf) /\
   (leb (abs (sub (Tf info_new) m_Tf)) threshold = true ->
      Tf checked = Tf info_new) /\
   type checked = type info_new /\ pin checked = pin info_new /\
   time_stamp checked = time_stamp info_new) /\
  (history <> [] ->
   (Forall (fun x => is_nan x = false) (map RH history) ->
      is_median (map RH history) m_RH) /\
   (Forall (fun x => is_nan x = false) (map Tf history) ->
      is_median (map Tf history) m_Tf)) /\
  num_min_history __init__ = 10%nat /\ check_threshold __init__ = of_int 25.
Proof.
  intros history threshold checked m_RH m_Tf.
  split; [|split; [|split; [|split; reflexivity]]].
  - intro Hlen. subst checked. unfold check_values.
    destruct (Nat.leb_spec (num_min_history self) (length (data_history self)));
      [subst history; lia | reflexivity].
  - intro Hlen. subst checked. unfold check_values.
    destruct (Nat.leb_spec (num_min_history self) (length (data_history self)));
      [|subst history; lia].
    cbv zeta. cbn [RH Tf type pin time_stamp].
    destruct (check_data_value_64 self (map RH (data_history self)) (RH info_new))
      as [H1 H2].
    destruct (check_data_value_64 self (map Tf (data_history self)) (Tf info_new))
      as [H3 H4].
    repeat split; assumption.
  - intro Hne.
    assert (HneRH : map RH history <> [])
      by (destruct history; [congruence | discriminate]).
    assert (HneTf : map Tf history <> [])
      by (destruct history; [congruence | discriminate]).
    split; intro Hnum; now apply np_median64_is_median.
Qed.

Lemma check_values_median_rule_64_witness :
  ((num_min_history Fixtures.busy64 <= length (data_history Fixtures.busy64))%nat /\
   np_median (map RH (data_history Fixtures.busy64)) = Fixtures.tenths 302 /\
   gtb (abs (sub (RH Fixtures.spike64)
                 (np_median (map RH (data_history Fixtures.busy64)))))
       (check_threshold Fixtures.busy64) = true /\
   leb (abs (sub (Tf Fixtures.spike64)
                 (np_median (map Tf (data_history Fixtures.busy64)))))
       (check_threshold Fixtures.busy64) = true /\
   RH (check_values Fixtures.busy64 Fixtures.spike64) =
     np_median (map RH (data_history Fixtures.busy64)) /\
   Tf (check_values Fixtures.busy64 Fixtures.spike64) = Tf Fixtures.spike64) /\
  (data_history Fixtures.busy64 <> [] /\
   Forall (fun x => is_nan x = false) (map RH (data_history Fixtures.busy64)) /\
   is_median (map RH (data_history Fixtures.busy64))
             (np_median (map RH (data_history Fixtures.busy64)))) /\
  ((length (data_history Fixtures.idle64) < num_min_history Fixtures.idle64)%nat /\
   check_values Fixtures.idle64 Fixtures.spike64 = Fixtures.spike64).
Proof.
  assert (Hlen : (num_min_history Fixtures.busy64 <=
                    length (data_history Fixtures.busy64))%nat)
    by (vm_compute; lia).
  assert (Hgt : gtb (abs (sub (RH Fixtures.spike64)
                        (np_median (map RH (data_history Fixtures.busy64)))))
                    (check_threshold Fixtures.busy64) = true)
    by (vm_compute; reflexivity).
  assert (Hle : leb (abs (sub (Tf Fixtures.spike64)
                        (np_median (map Tf (data_history Fixtures.busy64)))))
                    (check_threshold Fixtures.busy64) = true)
    by (vm_compute; reflexivity).
  assert (Hne : data_history Fixtures.busy64 <> []) by discriminate.
  assert (Hnum : Forall (fun x => is_nan x = false)
                        (map RH (data_history Fixtures.busy64)))
    by (repeat constructor).
  assert (Hshort : (length (data_history Fixtures.idle64) <
                    num_min_history Fixtures.idle64)%nat)
    by (vm_compute; lia).
  destruct (check_values_median_rule_64 Fixtures.busy64 Fixtures.spike64)
    as (_ & Hrule & Hmed & _).
  destruct (Hrule Hlen) as (HRH & _ & _ & HTf & _).
  split; [|split].
  - split; [exact Hlen|]. split; [vm_compute; reflexivity|].
    split; [exact Hgt|]. split; [exact Hle|].
    split; [exact (HRH Hgt) | exact (HTf Hle)].
  - split; [exact Hne|]. split; [exact Hnum|].
    exact (proj1 (Hmed Hne) Hnum).
  - split; [exact Hshort|].
    exact (proj1 (check_values_median_rule_64 Fixtures.idle64 Fixtures.spike64)
                 Hshort).
Defined.

End Check64Facts.
